(** * Multi-resource scheduler: admission, scoring, preemption, extraction

    A shallow embedding of the scheduling core of the three front ends of
    the repository:

    - the watch-and-bind scheduler with preemption (package [main]:
      [getNodeStats], [canScheduleMulti], [scoreMultiResource],
      [getRunningPods], [attemptPreemptionMulti], [extractPodRequirements]),
      in [Module Preemptive];
    - the HTTP extender (package [sched_extension]:
      [parseResourceAnnotation], [estimateIORequirements],
      [ExtractPodRequirements], [CanScheduleMulti], [ScoreMultiResource],
      [NewMultiResourceExtender], [Filter]), in [Module Extender];
    - the in-process plug-in (package [multiresource]: [canScheduleMulti],
      [extractPodRequirements], [parseResourceAnnotation], [NormalizeScore],
      [getNodeStats]), in [Module Plugin].

    Go's [float64] is IEEE 754 binary64, taken from the Standard Library's
    [SpecFloat] with [prec = 53] and [emax = 1024]: every arithmetic
    operation below rounds, overflows and produces NaN exactly as the
    compiled code does.  Go's [int] and [int64] are [Z] with the 64-bit
    wrap-around written out where the code computes with them. *)

From Stdlib Require Import ZArith List String Ascii Bool Lia.
From Stdlib Require Import Floats.SpecFloat.
From Stdlib Require Import Sorting.Permutation Sorting.Sorted.
From stdpp Require Import base strings gmap.
Import ListNotations.

Local Open Scope Z_scope.

(** ** float64 *)

Module F64.

Definition prec : Z := 53.
Definition emax : Z := 1024.

Definition float64 : Type := spec_float.

Definition add : float64 -> float64 -> float64 := SFadd prec emax.
Definition sub : float64 -> float64 -> float64 := SFsub prec emax.
Definition mul : float64 -> float64 -> float64 := SFmul prec emax.
Definition div : float64 -> float64 -> float64 := SFdiv prec emax.

(** Go's comparison operators: every comparison with a NaN is false. *)
Definition eqb (a b : float64) : bool := SFeqb a b.
Definition ltb (a b : float64) : bool := SFltb a b.
Definition leb (a b : float64) : bool := SFleb a b.
Definition gtb (a b : float64) : bool := SFltb b a.
Definition geb (a b : float64) : bool := SFleb b a.

Definition zero : float64 := S754_zero false.

(** [float64(n)] for an integer [n], rounded to nearest even. *)
Definition of_int (n : Z) : float64 := binary_normalize prec emax n 0 false.

(** The binary64 nearest to the fraction [n / d]. *)
Definition of_ratio (neg : bool) (n d : positive) : float64 :=
  let '(q, e, l) := SFdiv_core_binary prec emax (Zpos n) 0 (Zpos d) 0 in
  binary_round_aux prec emax neg q e l.

(** The binary64 nearest to [(-1)^neg * m * 10^e]: the value of a decimal
    literal of the source and of a decimal string given to
    [strconv.ParseFloat]. *)
Definition of_decimal (neg : bool) (m : N) (e : Z) : float64 :=
  match m with
  | N0 => S754_zero neg
  | Npos p =>
      match e with
      | Zneg k => of_ratio neg p (Pos.pow 10 k)
      | _ => binary_normalize prec emax (cond_Zopp neg (Zpos p * 10 ^ e)) 0 neg
      end
  end.

(** The integer part of a finite value (truncation toward zero). *)
Definition trunc (f : float64) : option Z :=
  match f with
  | S754_zero _ => Some 0
  | S754_finite s m e =>
      Some (cond_Zopp s
              (match e with
               | Zneg k => Zpos m / 2 ^ Zpos k
               | _ => Zpos m * 2 ^ e
               end))
  | _ => None
  end.

Definition min_int64 : Z := - 2 ^ 63.
Definition max_int64 : Z := 2 ^ 63 - 1.

(** [int(f)] and [int64(f)]: the fractional part is discarded.  When the
    value is NaN, infinite or outside of the 64-bit range the language
    leaves the result to the implementation; amd64 gives the smallest
    integer. *)
Definition to_int (f : float64) : Z :=
  match trunc f with
  | Some z => if (min_int64 <=? z) && (z <=? max_int64) then z else min_int64
  | None => min_int64
  end.

Definition is_nan (f : float64) : bool :=
  match f with S754_nan => true | _ => false end.

(** A zero or a finite number whose mantissa and exponent are the ones of
    its binary64 encoding; every number that the compiled code holds is
    of this kind, or an infinity or NaN. *)
Definition is_number (f : float64) : bool :=
  match f with
  | S754_zero _ => true
  | S754_finite _ _ _ => valid_binary prec emax f
  | _ => false
  end.

(** Constants of the source. *)
Definition one : float64 := of_int 1.
Definition KiB : Z := 1024.
Definition MiB : Z := 1024 * 1024.
Definition GiB : Z := 1024 * 1024 * 1024.

End F64.

Export F64 (float64).

Declare Scope f64_scope.
Delimit Scope f64_scope with f64.
Infix "+" := F64.add : f64_scope.
Infix "-" := F64.sub : f64_scope.
Infix "*" := F64.mul : f64_scope.
Infix "/" := F64.div : f64_scope.
Infix "==" := F64.eqb (at level 70, no associativity) : f64_scope.
Infix "<" := F64.ltb : f64_scope.
Infix ">" := F64.gtb : f64_scope.
Infix ">=" := F64.geb : f64_scope.
Infix "<=" := F64.leb : f64_scope.

(** ** Rounding to nearest even

    Every operation of [SpecFloat] rounds an exact quotient [N / D * 2^e]:
    a first shift brings the quotient to the exponent of the result, the
    bits shifted out decide the rounding, and a second shift repairs a
    mantissa that the rounding made one digit too long. *)

Module Rounding.

(** The quotient [N / D] and where the fraction left lies with respect to
    one half. *)
Definition locate (N D : Z) : Z * location :=
  (N / D,
   if N mod D =? 0 then loc_Exact else loc_Inexact (2 * (N mod D) ?= D)).

(** [N / D] rounded to the nearest integer, ties to even. *)
Definition rn (N D : Z) : Z :=
  match 2 * (N mod D) ?= D with
  | Lt => N / D
  | Eq => if Z.even (N / D) then N / D else N / D + 1
  | Gt => N / D + 1
  end.

(** The second half of a rounding: the rounded mantissa [M] at exponent
    [E] is brought back to 53 binary digits and checked against the
    largest exponent. *)
Definition finish (M E : Z) : float64 :=
  let mrs_e := shr_fexp F64.prec F64.emax M E loc_Exact in
  match shr_m (fst mrs_e) with
  | 0 => S754_zero false
  | Zpos m =>
      if snd mrs_e <=? F64.emax - F64.prec
      then S754_finite false m (snd mrs_e) else S754_infinity false
  | Zneg _ => S754_nan
  end.

(** [+0], a positive number in its binary64 encoding, or [+Inf]. *)
Definition nonNegative (r : float64) : Prop :=
  match r with
  | S754_zero false | S754_infinity false => True
  | S754_finite false m e => valid_binary F64.prec F64.emax r = true
  | _ => False
  end.

(** The bound that one rounding step keeps: a result that is [+0] or a
    positive number not above [K * 2^eK]. *)
Definition atMost (K : positive) (eK : Z) (r : float64) : Prop :=
  match r with
  | S754_zero false => True
  | S754_finite false m e => e < eK \/ (e = eK /\ Zpos m <= Zpos K)
  | _ => False
  end.

End Rounding.



(** ** Byte strings

    A Go [string] is a sequence of bytes: [list ascii] inside the scanners,
    [string] at the interfaces. *)

Module Bytes.

Definition code (c : ascii) : Z := Z.of_N (N_of_ascii c).

Definition isDigit (c : ascii) : bool := (48 <=? code c) && (code c <=? 57).
Definition isLowerAZ (c : ascii) : bool := (97 <=? code c) && (code c <=? 122).
Definition isUpperAZ (c : ascii) : bool := (65 <=? code c) && (code c <=? 90).

(** [c | ('x' - 'X')] of package strconv: sets bit 5. *)
Definition lower (c : ascii) : ascii :=
  let '(Ascii b0 b1 b2 b3 b4 _ b6 b7) := c in Ascii b0 b1 b2 b3 b4 true b6 b7.

(** [strings.ToUpper] and [strings.ToLower] on ASCII text; bytes from
    0x80 on, which the scheduler never compares against, are kept. *)
Definition upperByte (c : ascii) : ascii :=
  if isLowerAZ c then ascii_of_N (Z.to_N (code c - 32)) else c.
Definition lowerByte (c : ascii) : ascii :=
  if isUpperAZ c then ascii_of_N (Z.to_N (code c + 32)) else c.

Definition ToUpper (s : list ascii) : list ascii := map upperByte s.
Definition ToLower (s : list ascii) : list ascii := map lowerByte s.

Definition eqb (a b : list ascii) : bool :=
  bool_decide (a = b).

Fixpoint HasPrefix (s prefix : list ascii) : bool :=
  match prefix, s with
  | [], _ => true
  | p :: prefix', c :: s' => Ascii.eqb p c && HasPrefix s' prefix'
  | _ :: _, [] => false
  end.

(** [strings.Contains(s, substr)]. *)
Fixpoint Contains (s substr : list ascii) : bool :=
  HasPrefix s substr ||
  match s with
  | [] => false
  | _ :: s' => Contains s' substr
  end.

(** [strings.Split(s, sep)[0]] for a one-byte separator: the part of [s]
    before the first separator, all of [s] when there is none. *)
Fixpoint SplitHead (s : list ascii) (sep : ascii) : list ascii :=
  match s with
  | [] => []
  | c :: s' => if Ascii.eqb c sep then [] else c :: SplitHead s' sep
  end.

Definition of_string (s : string) : list ascii := list_ascii_of_string s.

End Bytes.

Coercion Bytes.of_string : string >-> list.

(** ** Package strconv

    [ParseFloat(s, 64)] and [Atoi(s)] of the Go standard library, written
    after [special], [readFloat], [underscoreOK] and [atof64]: [None] stands
    for a non-nil error (syntax or range). *)

Module Strconv.
Import Bytes.

(** [special]: a possibly signed "inf" or "infinity", or "nan", in any
    case; the whole string has to be consumed. *)
Definition special (s : list ascii) : option float64 :=
  let l := ToLower s in
  if eqb l "inf" || eqb l "infinity" || eqb l "+inf" || eqb l "+infinity"
  then Some (S754_infinity false)
  else if eqb l "-inf" || eqb l "-infinity" then Some (S754_infinity true)
  else if eqb l "nan" then Some S754_nan
  else None.

Record mantissa := {
  m_digits : N;        (* the digits read so far, as a number *)
  m_frac : Z;          (* how many of them follow the point *)
  m_sawdigits : bool;
  m_underscores : bool
}.

Definition digitVal (hex : bool) (c : ascii) : option Z :=
  if isDigit c then Some (code c - 48)
  else if hex && (97 <=? code (lower c)) && (code (lower c) <=? 102)
       then Some (code (lower c) - 97 + 10)
       else None.

Definition pushDigit (hex sawdot : bool) (d : Z) (m : mantissa) : mantissa :=
  {| m_digits := (m_digits m * (if hex then 16 else 10) + Z.to_N d)%N;
     m_frac := if sawdot then m_frac m + 1 else m_frac m;
     m_sawdigits := true;
     m_underscores := m_underscores m |}.

(** The digit loop of [readFloat]. *)
Fixpoint scanMantissa (hex sawdot : bool) (m : mantissa) (s : list ascii)
  : mantissa * list ascii :=
  match s with
  | [] => (m, [])
  | c :: s' =>
      if Ascii.eqb c "_" then
        scanMantissa hex sawdot
          {| m_digits := m_digits m; m_frac := m_frac m;
             m_sawdigits := m_sawdigits m; m_underscores := true |} s'
      else if Ascii.eqb c "." then
        if sawdot then (m, s) else scanMantissa hex true m s'
      else
        match digitVal hex c with
        | Some d => scanMantissa hex sawdot (pushDigit hex sawdot d m) s'
        | None => (m, s)
        end
  end.

(** The exponent digits: [e] stops growing from 10000 on. *)
Fixpoint scanExponent (e : Z) (underscores : bool) (s : list ascii)
  : Z * bool * list ascii :=
  match s with
  | [] => (e, underscores, [])
  | c :: s' =>
      if Ascii.eqb c "_" then scanExponent e true s'
      else if isDigit c then
        scanExponent (if e <? 10000 then e * 10 + (code c - 48) else e)
                     underscores s'
      else (e, underscores, s)
  end.

(** [underscoreOK]: an underscore only between digits, or between the
    base prefix and a digit. *)
Inductive saw := SawStart | SawDigit | SawUnderscore | SawOther.

Fixpoint underscoreLoop (hex : bool) (prev : saw) (s : list ascii) : bool :=
  match s with
  | [] => match prev with SawUnderscore => false | _ => true end
  | c :: s' =>
      if isDigit c
         || (hex && (97 <=? code (lower c)) && (code (lower c) <=? 102))
      then underscoreLoop hex SawDigit s'
      else if Ascii.eqb c "_" then
        match prev with
        | SawDigit => underscoreLoop hex SawUnderscore s'
        | _ => false
        end
      else
        match prev with
        | SawUnderscore => false
        | _ => underscoreLoop hex SawOther s'
        end
  end.

Definition isSign (c : ascii) : bool := Ascii.eqb c "+" || Ascii.eqb c "-".

Definition underscoreOK (s : list ascii) : bool :=
  let s :=
    match s with
    | c :: s' => if isSign c then s' else s
    | [] => s
    end in
  match s with
  | c0 :: c1 :: s' =>
      if Ascii.eqb c0 "0"
         && (Ascii.eqb (lower c1) "b" || Ascii.eqb (lower c1) "o"
             || Ascii.eqb (lower c1) "x")
      then underscoreLoop (Ascii.eqb (lower c1) "x") SawDigit s'
      else underscoreLoop false SawStart s
  | _ => underscoreLoop false SawStart s
  end.

(** What [readFloat] hands to the conversion. *)
Record number := {
  n_neg : bool;
  n_hex : bool;
  n_mant : N;
  n_exp : Z            (* power of ten, or of two when [n_hex] *)
}.

Definition readFloat (s : list ascii) : option (number * list ascii) :=
  match s with
  | [] => None
  | c :: s' =>
      let neg := Ascii.eqb c "-" in
      let s1 := if isSign c then s' else s in
      let '(hex, s2) :=
        match s1 with
        | c0 :: c1 :: c2 :: s'' =>
            if Ascii.eqb c0 "0" && Ascii.eqb (lower c1) "x"
            then (true, c2 :: s'') else (false, s1)
        | _ => (false, s1)
        end in
      let '(m, s3) :=
        scanMantissa hex false
          {| m_digits := 0; m_frac := 0;
             m_sawdigits := false; m_underscores := false |} s2 in
      if negb (m_sawdigits m) then None
      else
        let frac := if hex then 4 * m_frac m else m_frac m in
        let finish (e : Z) (underscores : bool) (rest : list ascii) :=
          if underscores
             && negb (underscoreOK (firstn (length s - length rest) s))
          then None
          else Some ({| n_neg := neg; n_hex := hex;
                        n_mant := m_digits m; n_exp := e - frac |}, rest) in
        match s3 with
        | c :: s4 =>
            if Ascii.eqb (lower c) (if hex then "p" else "e")%char then
              match s4 with
              | [] => None
              | c' :: s5 =>
                  let eneg := Ascii.eqb c' "-" in
                  let s6 := if isSign c' then s5 else s4 in
                  match s6 with
                  | d :: _ =>
                      if isDigit d then
                        let '(e, us, rest) :=
                          scanExponent 0 (m_underscores m) s6 in
                        finish (if eneg then - e else e) us rest
                      else None
                  | [] => None
                  end
              end
            else if hex then None
            else finish 0 (m_underscores m) s3
        | [] => if hex then None else finish 0 (m_underscores m) s3
        end
  end.

(** The nearest binary64 of the number read. *)
Definition convert (n : number) : float64 :=
  if n_hex n then
    binary_normalize F64.prec F64.emax
      (cond_Zopp (n_neg n) (Z.of_N (n_mant n))) (n_exp n) (n_neg n)
  else F64.of_decimal (n_neg n) (n_mant n) (n_exp n).

Definition ParseFloat (s : list ascii) : option float64 :=
  match special s with
  | Some f => Some f
  | None =>
      match readFloat s with
      | Some (n, []) =>
          match convert n with
          | S754_infinity _ => None      (* value out of range *)
          | f => Some f
          end
      | _ => None
      end
  end.

(** [Atoi]: an optional sign and decimal digits, within 64 bits. *)
Fixpoint scanInt (acc : Z) (s : list ascii) : option Z :=
  match s with
  | [] => Some acc
  | c :: s' => if isDigit c then scanInt (acc * 10 + (code c - 48)) s' else None
  end.

Definition Atoi (s : list ascii) : option Z :=
  let '(neg, digits) :=
    match s with
    | c :: s' => if isSign c then (Ascii.eqb c "-", s') else (false, s)
    | [] => (false, s)
    end in
  match digits with
  | [] => None
  | _ =>
      match scanInt 0 digits with
      | Some n =>
          let v := if neg then - n else n in
          if (F64.min_int64 <=? v) && (v <=? F64.max_int64) then Some v else None
      | None => None
      end
  end.

End Strconv.


(** ** Cluster objects

    The fields of [v1.Pod] that the schedulers read.  A
    [resource.Quantity] is held in thousandths, the finest unit read
    ([MilliValue]); [Value] rounds to the next integer away from zero.
    Quantities are taken in the range where [MilliValue] and [Value] fit
    an int64; beyond it the library saturates, which is not modelled. *)

Module v1.

Definition Quantity : Type := Z.
Definition MilliValue (q : Quantity) : Z := q.
Definition Value (q : Quantity) : Z :=
  if 0 <=? q then - ((- q) / 1000) else q / 1000.
Definition IsZero (q : Quantity) : bool := q =? 0.

Definition ResourceCPU : string := "cpu".
Definition ResourceMemory : string := "memory".

(** [Requests.Cpu()] and [Requests.Memory()]: the zero quantity when the
    list is nil or has no such entry. *)
Definition quantityOf (name : string) (rl : option (gmap string Quantity))
  : Quantity :=
  match rl with
  | Some l => default 0 (l !! name)
  | None => 0
  end.

Record Container := {
  Image : string;
  Requests : option (gmap string Quantity)      (* Resources.Requests *)
}.

Inductive PodPhase :=
  PodPending | PodRunning | PodSucceeded | PodFailed | PodUnknown.

Record PodSpec := {
  NodeName : string;
  Containers : list Container;
  Priority : option Z                           (* *int32 *)
}.

Record Pod := {
  Name : string;
  Namespace : string;
  Annotations : option (gmap string string);
  Spec : PodSpec;
  Phase : PodPhase                              (* Status.Phase *)
}.

Definition phase_eqb (a b : PodPhase) : bool :=
  match a, b with
  | PodPending, PodPending | PodRunning, PodRunning
  | PodSucceeded, PodSucceeded | PodFailed, PodFailed
  | PodUnknown, PodUnknown => true
  | _, _ => false
  end.

End v1.

(** ** Node state and demand vector

    [NodeStats] and [PodRequest] are declared with the same fields in the
    three packages. *)

Module Types.

Record NodeStats := {
CPUTotal : float64;
CPUFree : float64;
MemTotal : float64;
MemFree : float64;
DiskReadTotal : float64;
DiskReadFree : float64;
DiskWriteTotal : float64;
DiskWriteFree : float64;
NetUpTotal : float64;
NetUpFree : float64;
NetDownTotal : float64;
NetDownFree : float64
}.

Record PodRequest := {
CPU : float64;
Mem : float64;
DiskRead : float64;
DiskWrite : float64;
NetUp : float64;
NetDown : float64;
Priority : Z
}.

End Types.

Export Types.

(** ** The metrics source

    A query answers with an error ([None]) or with a map from instance label
    to sample.  The map is a list: [range] walks it in an order the language
    does not fix, which is the order of the list here. *)

Definition Samples : Type := list (string * float64).
Definition Metrics : Type := string -> option Samples.

Fixpoint lookupSample (key : string) (m : Samples) : option float64 :=
  match m with
  | [] => None
  | (k, v) :: m' => if String.eqb k key then Some v else lookupSample key m'
  end.

Definition dquote : string := String (ascii_of_nat 34) EmptyString.

(** ** Annotation parsing

    [parseResourceAnnotation], declared with the same body in packages
    [sched_extension] and [multiresource]. *)

Definition parseResourceAnnotation (pod : v1.Pod) (key : string)
           (defaultValue : float64) : float64 :=
  match v1.Annotations pod with
  | None => defaultValue
  | Some annotations =>
      match (annotations !! key : option string) with
      | Some value =>
          let value := Bytes.of_string value in
          match Strconv.ParseFloat value with
          | Some parsedValue => parsedValue
          | None =>
              if (1 <? length value)%nat then
                let unit := Bytes.ToUpper (skipn (length value - 1) value) in
                let numPart := firstn (length value - 1) value in
                match Strconv.ParseFloat numPart with
                | Some parsedNum =>
                    if Bytes.eqb unit "K" then
                      (parsedNum * F64.of_int 1024)%f64
                    else if Bytes.eqb unit "M" then
                      (parsedNum * F64.of_int 1024 * F64.of_int 1024)%f64
                    else if Bytes.eqb unit "G" then
                      (parsedNum * F64.of_int 1024 * F64.of_int 1024
                       * F64.of_int 1024)%f64
                    else defaultValue
                | None => defaultValue
                end
              else defaultValue
          end
      | None => defaultValue
      end
  end.

(** ** The watch-and-bind scheduler with preemption (package main) *)

Module Preemptive.

Record RunningPod := {
  Name : string;
  Namespace : string;
  CPURequest : float64;
  MemRequest : float64;
  Priority : Z
}.

(** *** getNodeStats *)

(** The instance of a node, as every query of [getNodeStats] looks it up:
    the key [nodeName + ":9100"]; failing that the first instance, in
    [range] order, whose label contains the node name or whose host part
    is contained in it; failing that the first sample of the map. *)
Definition instanceMatches (nodeName instance : string) : bool :=
  Bytes.Contains instance nodeName
  || Bytes.Contains nodeName (Bytes.SplitHead instance ":").

Fixpoint firstMatching (nodeName : string) (m : Samples) : option float64 :=
  match m with
  | [] => None
  | (instance, v) :: m' =>
      if instanceMatches nodeName instance then Some v
      else firstMatching nodeName m'
  end.

Definition pickSample (nodeName : string) (m : Samples) : option float64 :=
  match lookupSample (nodeName ++ ":9100") m with
  | Some v => Some v
  | None =>
      match firstMatching nodeName m with
      | Some v => Some v
      | None => match m with (_, v) :: _ => Some v | [] => None end
      end
  end.

(** A usage or capacity variable: [onError] when the query fails, the
    picked sample otherwise, and the zero value of the variable when the
    map is empty. *)
Definition sampleOr (prom : Metrics) (query nodeName : string)
           (onError : float64) : float64 :=
  match prom query with
  | None => onError
  | Some m => default F64.zero (pickSample nodeName m)
  end.

Definition cpuQuery : string :=
  "sum(rate(node_cpu_seconds_total{mode!=" ++ dquote ++ "idle" ++ dquote
    ++ "}[5m])) by (instance)".
Definition memQuery : string :=
  "node_memory_MemTotal_bytes - node_memory_MemAvailable_bytes".
Definition memTotalQuery : string := "node_memory_MemTotal_bytes".
Definition diskReadUsageQuery : string := "rate(node_disk_read_bytes_total[5m])".
Definition diskReadTotalQuery : string := "node_disk_read_bytes_max".
Definition diskWriteUsageQuery : string := "rate(node_disk_written_bytes_total[5m])".
Definition diskWriteTotalQuery : string := "node_disk_write_bytes_max".
Definition netUpUsageQuery : string := "rate(node_network_transmit_bytes_total[5m])".
Definition netDownUsageQuery : string := "rate(node_network_receive_bytes_total[5m])".
Definition netSpeedQuery : string := "node_network_speed_bytes".

(** The CPU block: total and free cores. *)
Definition cpuStats (prom : Metrics) (nodeName : string) : float64 * float64 :=
  match prom cpuQuery with
  | None => (F64.of_int 6, F64.of_int 2)
  | Some cpuMetrics =>
      match pickSample nodeName cpuMetrics with
      | None => (F64.of_int 6, F64.of_int 2)
      | Some cpuUsage => (F64.of_int 6, (F64.of_int 6 - cpuUsage)%f64)
      end
  end.

(** The memory block: total and free bytes. *)
Definition memStats (prom : Metrics) (nodeName : string) : float64 * float64 :=
  match prom memQuery with
  | None => (F64.of_int (8 * F64.GiB), F64.of_int (4 * F64.GiB))
  | Some memMetrics =>
      match pickSample nodeName memMetrics with
      | None => (F64.of_int (8 * F64.GiB), F64.of_int (4 * F64.GiB))
      | Some memUsed =>
          let memTotal :=
            match prom memTotalQuery with
            | None => F64.of_int (8 * F64.GiB)
            | Some memTotalMetrics =>
                match lookupSample (nodeName ++ ":9100") memTotalMetrics with
                | Some total => total
                | None =>
                    match memTotalMetrics with
                    | (_, total) :: _ => total
                    | [] => F64.zero
                    end
                end
            end in
          (memTotal, (memTotal - memUsed)%f64)
      end
  end.

Definition getNodeStats (prom : Metrics) (nodeName : string) : NodeStats :=
  let cpu := cpuStats prom nodeName in
  let mem := memStats prom nodeName in
  (* Disk *)
  let diskReadUsage := sampleOr prom diskReadUsageQuery nodeName F64.zero in
  let diskReadTotal := sampleOr prom diskReadTotalQuery nodeName (F64.of_int 100) in
  let diskWriteUsage := sampleOr prom diskWriteUsageQuery nodeName F64.zero in
  let diskWriteTotal := sampleOr prom diskWriteTotalQuery nodeName (F64.of_int 100) in
  (* Network *)
  let netUpUsage := sampleOr prom netUpUsageQuery nodeName F64.zero in
  let netDownUsage := sampleOr prom netDownUsageQuery nodeName F64.zero in
  let netSpeed := sampleOr prom netSpeedQuery nodeName (F64.of_int 1000) in
  {| CPUTotal := fst cpu; CPUFree := snd cpu;
     MemTotal := fst mem; MemFree := snd mem;
     DiskReadTotal := diskReadTotal;
     DiskReadFree := (diskReadTotal - diskReadUsage)%f64;
     DiskWriteTotal := diskWriteTotal;
     DiskWriteFree := (diskWriteTotal - diskWriteUsage)%f64;
     NetUpTotal := netSpeed;
     NetUpFree := (netSpeed - netUpUsage)%f64;
     NetDownTotal := netSpeed;
     NetDownFree := (netSpeed - netDownUsage)%f64 |}.

(** *** canScheduleMulti *)

(** What [log.Printf] writes when a node is turned down. *)
Inductive LogLine :=
| NotEnough (name : string) (free req : float64)
| UtilizationTooHigh (name : string) (expectedUtil alpha : float64).

Record resource := {
  free : float64;
  total : float64;
  req : float64;
  name : string
}.

Definition resources (pod : PodRequest) (stats : NodeStats) : list resource :=
  [ {| free := CPUFree stats; total := CPUTotal stats; req := CPU pod; name := "cpu" |};
    {| free := MemFree stats; total := MemTotal stats; req := Mem pod; name := "mem" |};
    {| free := DiskReadFree stats; total := DiskReadTotal stats;
       req := DiskRead pod; name := "diskRead" |};
    {| free := DiskWriteFree stats; total := DiskWriteTotal stats;
       req := DiskWrite pod; name := "diskWrite" |};
    {| free := NetUpFree stats; total := NetUpTotal stats;
       req := NetUp pod; name := "netUp" |};
    {| free := NetDownFree stats; total := NetDownTotal stats;
       req := NetDown pod; name := "netDown" |} ].

Definition expectedUtil (r : resource) : float64 :=
  (F64.one - ((free r - req r) / total r))%f64.

(** The body of the loop for one resource: the line logged when the
    resource turns the node down, [None] when the loop goes on. *)
Definition checkOne (r : resource) (alpha : float64) : option LogLine :=
  if (req r == F64.zero)%f64 then None
  else if (free r < req r)%f64 then
    Some (NotEnough (name r) (free r) (req r))
  else if (expectedUtil r > alpha)%f64 then
    Some (UtilizationTooHigh (name r) (expectedUtil r) alpha)
  else None.

Fixpoint checkResources (rs : list resource) (alpha : float64)
  : bool * list LogLine :=
  match rs with
  | [] => (true, [])
  | r :: rs' =>
      match checkOne r alpha with
      | Some line => (false, [line])
      | None => checkResources rs' alpha
      end
  end.

Definition canScheduleMulti (pod : PodRequest) (stats : NodeStats)
           (alpha : float64) : bool * list LogLine :=
  checkResources (resources pod stats) alpha.

(** *** scoreMultiResource *)

Fixpoint dominantShareOf (dominantShare : float64)
         (rs : list (float64 * float64)) : float64 :=
  match rs with
  | [] => dominantShare
  | (free, req) :: rs' =>
      if (req == F64.zero)%f64 then dominantShareOf dominantShare rs'
      else
        let share := (req / free)%f64 in
        dominantShareOf
          (if (share > dominantShare)%f64 then share else dominantShare) rs'
  end.

Definition scoreResources (pod : PodRequest) (stats : NodeStats)
  : list (float64 * float64) :=
  [ (CPUFree stats, CPU pod); (MemFree stats, Mem pod);
    (DiskReadFree stats, DiskRead pod); (DiskWriteFree stats, DiskWrite pod);
    (NetUpFree stats, NetUp pod); (NetDownFree stats, NetDown pod) ].

Definition scoreMultiResource (pod : PodRequest) (stats : NodeStats)
           (maxScore : Z) : Z :=
  let dominantShare := dominantShareOf F64.zero (scoreResources pod stats) in
  if (dominantShare == F64.zero)%f64 then maxScore ÷ 2
  else
    let score := (F64.of_int maxScore - (F64.of_int maxScore * dominantShare))%f64 in
    let score := if (score < F64.zero)%f64 then F64.zero else score in
    F64.to_int score.

(** *** The cluster API

    [pods] are the pods of the cluster, [listFails] makes the pod list
    call fail, [evictFails ns name] makes the eviction of that pod fail. *)

Record Client := {
  pods : list v1.Pod;
  listFails : bool;
  evictFails : string -> string -> bool
}.

Definition sumRequests (name : string)
           (amount : v1.Quantity -> float64) (cs : list v1.Container)
  : float64 :=
  fold_left
    (fun acc c =>
       match v1.Requests c with
       | Some rl =>
           match rl !! name with
           | Some q => (acc + amount q)%f64
           | None => acc
           end
       | None => acc
       end) cs F64.zero.

Definition cpuCores (q : v1.Quantity) : float64 :=
  (F64.of_int (v1.MilliValue q) / F64.of_int 1000)%f64.
Definition memBytes (q : v1.Quantity) : float64 :=
  F64.of_int (v1.Value q).

Definition toRunningPod (pod : v1.Pod) : RunningPod :=
  {| Name := v1.Name pod;
     Namespace := v1.Namespace pod;
     CPURequest := sumRequests v1.ResourceCPU cpuCores (v1.Containers (v1.Spec pod));
     MemRequest := sumRequests v1.ResourceMemory memBytes (v1.Containers (v1.Spec pod));
     Priority := default 0 (v1.Priority (v1.Spec pod)) |}.

(** [getRunningPods]: the pods bound to the node (field selector
    [spec.nodeName]) that are in phase Running. *)
Definition getRunningPods (client : Client) (nodeName : string)
  : option (list RunningPod) :=
  if listFails client then None
  else
    Some (map toRunningPod
            (List.filter (fun pod => v1.phase_eqb (v1.Phase pod) v1.PodRunning)
               (List.filter (fun pod => String.eqb (v1.NodeName (v1.Spec pod)) nodeName)
                  (pods client)))).

(** [evictPod]: [true] when the eviction call returns an error. *)
Definition evictPod (client : Client) (pod : RunningPod) : bool :=
  evictFails client (Namespace pod) (Name pod).

(** [sort.Slice] with [less i j := Priority i < Priority j].  On slices of
    at most twelve elements the library runs this insertion sort; on
    longer ones it leaves the order among equal priorities open. *)
Fixpoint insertByPriority (x : RunningPod) (sorted : list RunningPod)
  : list RunningPod :=
  match sorted with
  | [] => [x]
  | y :: ys =>
      if Priority x <? Priority y then x :: y :: ys
      else y :: insertByPriority x ys
  end.

Definition sortByPriority (l : list RunningPod) : list RunningPod :=
  fold_left (fun sorted x => insertByPriority x sorted) l [].

(** The eviction loop: the pods evicted before the first failing call,
    and whether every call went through. *)
Fixpoint evictAll (client : Client) (victims : list RunningPod)
  : bool * list RunningPod :=
  match victims with
  | [] => (true, [])
  | victim :: rest =>
      if evictPod client victim then (false, [])
      else let '(ok, evicted) := evictAll client rest in (ok, victim :: evicted)
  end.

(** The accumulation loop of [attemptPreemptionMulti]: [freedCPU] and
    [freedMem] are [freedResources.cpu] and [.mem], [victims] the victims
    so far in accumulation order. *)
Fixpoint accumulate (client : Client) (pod : PodRequest) (stats : NodeStats)
         (freedCPU freedMem : float64) (victims : list RunningPod)
         (candidates : list RunningPod) : bool * list RunningPod :=
  match candidates with
  | [] => (false, [])
  | candidate :: rest =>
      let freedCPU := (freedCPU + CPURequest candidate)%f64 in
      let freedMem := (freedMem + MemRequest candidate)%f64 in
      let victims := victims ++ [candidate] in
      let canScheduleAfterPreemption :=
        ((CPUFree stats + freedCPU >= CPU pod)%f64
         && (MemFree stats + freedMem >= Mem pod)%f64)%bool in
      if canScheduleAfterPreemption then evictAll client victims
      else accumulate client pod stats freedCPU freedMem victims rest
  end.

(** [attemptPreemptionMulti]: the result, and the pods it evicted in the
    order of the eviction calls. *)
Definition attemptPreemptionMulti (client : Client) (pod : PodRequest)
           (nodeName : string) (stats : NodeStats) : bool * list RunningPod :=
  match getRunningPods client nodeName with
  | None => (false, [])
  | Some runningPods =>
      let candidates :=
        List.filter (fun rp => Priority rp <? Types.Priority pod) runningPods in
      match candidates with
      | [] => (false, [])
      | _ =>
          accumulate client pod stats F64.zero F64.zero []
            (sortByPriority candidates)
      end
  end.

End Preemptive.

(** ** The HTTP extender (package sched_extension) *)

Module Extender.

(** The package's own [max]. *)
Definition max (a b : float64) : float64 :=
  if (a > b)%f64 then a else b.

Definition imageContains (imageLower : list ascii) (pattern : string) : bool :=
  Bytes.Contains imageLower pattern.

(** The first loop of [estimateIORequirements]: image names. *)
Fixpoint estimateFromImages (cs : list v1.Container)
         (est : float64 * float64 * float64 * float64)
  : float64 * float64 * float64 * float64 :=
  match cs with
  | [] => est
  | container :: cs' =>
      let '(diskRead, diskWrite, netUp, netDown) := est in
      let imageLower := Bytes.ToLower (v1.Image container) in
      let '(diskRead, diskWrite) :=
        if imageContains imageLower "mysql" || imageContains imageLower "postgres"
           || imageContains imageLower "mongo" || imageContains imageLower "redis"
        then (max diskRead (F64.of_int (50 * F64.MiB)),
              max diskWrite (F64.of_int (20 * F64.MiB)))
        else (diskRead, diskWrite) in
      let '(netUp, netDown) :=
        if imageContains imageLower "nginx" || imageContains imageLower "apache"
           || imageContains imageLower "node" || imageContains imageLower "tomcat"
        then (max netUp (F64.of_int (20 * F64.MiB)),
              max netDown (F64.of_int (40 * F64.MiB)))
        else (netUp, netDown) in
      estimateFromImages cs' (diskRead, diskWrite, netUp, netDown)
  end.

(** The sums over the containers whose request list is not nil. *)
Definition totalRequests (cs : list v1.Container) : float64 * float64 :=
  fold_left
    (fun '(cpu, mem) container =>
       match v1.Requests container with
       | Some rl =>
           ((cpu + F64.of_int (v1.MilliValue (v1.quantityOf v1.ResourceCPU (Some rl)))
                   / F64.of_int 1000)%f64,
            (mem + F64.of_int (v1.Value (v1.quantityOf v1.ResourceMemory (Some rl))))%f64)
       | None => (cpu, mem)
       end) cs (F64.zero, F64.zero).

Definition estimateIORequirements (pod : v1.Pod)
  : float64 * float64 * float64 * float64 :=
  let diskRead := F64.of_int (10 * F64.MiB) in
  let diskWrite := F64.of_int (5 * F64.MiB) in
  let netUp := F64.of_int (1 * F64.MiB) in
  let netDown := F64.of_int (2 * F64.MiB) in
  let diskRead := parseResourceAnnotation pod "scheduler.extender/disk-read" diskRead in
  let diskWrite := parseResourceAnnotation pod "scheduler.extender/disk-write" diskWrite in
  let netUp := parseResourceAnnotation pod "scheduler.extender/net-up" netUp in
  let netDown := parseResourceAnnotation pod "scheduler.extender/net-down" netDown in
  let '(diskRead, diskWrite, netUp, netDown) :=
    estimateFromImages (v1.Containers (v1.Spec pod))
      (diskRead, diskWrite, netUp, netDown) in
  let '(totalCPU, totalMem) := totalRequests (v1.Containers (v1.Spec pod)) in
  let '(diskRead, diskWrite) :=
    if (totalCPU >= F64.of_int 4)%f64 then
      (max diskRead (F64.of_int (100 * F64.MiB)),
       max diskWrite (F64.of_int (50 * F64.MiB)))
    else if (totalCPU >= F64.of_int 2)%f64 then
      (max diskRead (F64.of_int (50 * F64.MiB)),
       max diskWrite (F64.of_int (25 * F64.MiB)))
    else (diskRead, diskWrite) in
  let '(netUp, netDown) :=
    if (totalMem >= F64.of_int (4 * F64.GiB))%f64 then
      (max netUp (F64.of_int (50 * F64.MiB)),
       max netDown (F64.of_int (100 * F64.MiB)))
    else if (totalMem >= F64.of_int (1 * F64.GiB))%f64 then
      (max netUp (F64.of_int (20 * F64.MiB)),
       max netDown (F64.of_int (40 * F64.MiB)))
    else (netUp, netDown) in
  (diskRead, diskWrite, netUp, netDown).

Definition ExtractPodRequirements (pod : v1.Pod) : PodRequest :=
  let priority := default 0 (v1.Priority (v1.Spec pod)) in
  let '(cpu, mem) := totalRequests (v1.Containers (v1.Spec pod)) in
  let '(diskRead, diskWrite, netUp, netDown) := estimateIORequirements pod in
  {| CPU := cpu; Mem := mem;
     DiskRead := diskRead; DiskWrite := diskWrite;
     NetUp := netUp; NetDown := netDown;
     Priority := priority |}.

Definition CanScheduleMulti (podReq : PodRequest) (stats : NodeStats)
           (alpha : float64) : bool :=
  if (CPU podReq > CPUFree stats)%f64 || (Mem podReq > MemFree stats)%f64
  then false
  else if (DiskRead podReq > DiskReadFree stats)%f64
          || (DiskWrite podReq > DiskWriteFree stats)%f64
  then false
  else if (NetUp podReq > NetUpFree stats)%f64
          || (NetDown podReq > NetDownFree stats)%f64
  then false
  else true.

Fixpoint dominantShareOf (dominantShare : float64)
         (rs : list (float64 * float64)) : float64 :=
  match rs with
  | [] => dominantShare
  | (free, req) :: rs' =>
      if (req == F64.zero)%f64 then dominantShareOf dominantShare rs'
      else
        let share := (req / free)%f64 in
        dominantShareOf
          (if (share > dominantShare)%f64 then share else dominantShare) rs'
  end.

Definition ScoreMultiResource (podReq : PodRequest) (stats : NodeStats)
           (maxScore : Z) : Z :=
  let dominantShare :=
    dominantShareOf F64.zero
      [ (CPUFree stats, CPU podReq); (MemFree stats, Mem podReq);
        (DiskReadFree stats, DiskRead podReq);
        (DiskWriteFree stats, DiskWrite podReq);
        (NetUpFree stats, NetUp podReq); (NetDownFree stats, NetDown podReq) ] in
  let score := (F64.of_int maxScore - (F64.of_int maxScore * dominantShare))%f64 in
  let score := if (score < F64.zero)%f64 then F64.zero else score in
  F64.to_int score.

Record MultiResourceExtender := {
  alpha : float64;
  maxScore : Z;
  nodeStats : gmap string NodeStats
}.

(** [os.Getenv]: the empty string for a variable that is not set. *)
Definition Getenv (env : gmap string string) (name : string) : string :=
  default EmptyString (env !! name).

(** [NewMultiResourceExtender] in the environment [env]; the cache is
    empty until the updater has run. *)
Definition NewMultiResourceExtender (env : gmap string string)
  : MultiResourceExtender :=
  let alpha := F64.of_decimal false 8 (-1) in
  let alpha :=
    let val := Getenv env "MULTIRESOURCE_ALPHA" in
    if negb (String.eqb val EmptyString) then
      match Strconv.ParseFloat val with
      | Some a => a
      | None => alpha
      end
    else alpha in
  let maxScore := 100 in
  let maxScore :=
    let val := Getenv env "MULTIRESOURCE_MAXSCORE" in
    if negb (String.eqb val EmptyString) then
      match Strconv.Atoi val with
      | Some ms => ms
      | None => maxScore
      end
    else maxScore in
  {| alpha := alpha; maxScore := maxScore; nodeStats := ∅ |}.

Definition getNodeStatsFromCache (e : MultiResourceExtender)
           (nodeName : string) : option NodeStats :=
  nodeStats e !! nodeName.

Record ExtenderFilterResult := {
  Nodes : list string;                 (* the names of Nodes.Items *)
  FailedNodes : gmap string string
}.

(** [Filter] for a pod and the names of the candidate nodes. *)
Fixpoint filterNodes (e : MultiResourceExtender) (pod : v1.Pod)
         (nodes : list string) (filteredNodes : list string)
         (failedNodes : gmap string string) : ExtenderFilterResult :=
  match nodes with
  | [] => {| Nodes := filteredNodes; FailedNodes := failedNodes |}
  | node :: nodes' =>
      match getNodeStatsFromCache e node with
      | None =>
          filterNodes e pod nodes' filteredNodes
            (<[node := ("error retrieving stats: node stats not available for "
                        ++ node)%string]> failedNodes)
      | Some stats =>
          let podReq := ExtractPodRequirements pod in
          if negb (CanScheduleMulti podReq stats (alpha e)) then
            filterNodes e pod nodes' filteredNodes
              (<[node := "insufficient resources"]> failedNodes)
          else
            filterNodes e pod nodes' (filteredNodes ++ [node]) failedNodes
      end
  end.

Definition Filter (e : MultiResourceExtender) (pod : v1.Pod)
           (nodes : list string) : ExtenderFilterResult :=
  filterNodes e pod nodes [] ∅.

(** [Prioritize]: host and score per node. *)
Definition Prioritize (e : MultiResourceExtender) (pod : v1.Pod)
           (nodes : list string) : list (string * Z) :=
  let podReq := ExtractPodRequirements pod in
  map (fun node =>
         match getNodeStatsFromCache e node with
         | None => (node, 0)
         | Some stats => (node, ScoreMultiResource podReq stats (maxScore e))
         end) nodes.

End Extender.

(** ** The in-process plug-in (package multiresource) *)

Module Plugin.

Record Plugin := {
  promClient : option Metrics;         (* nil when not initialised *)
  alpha : float64;
  maxScore : Z;
  nodeStats : gmap string NodeStats
}.

(** *** canScheduleMulti *)

(** The line that [canScheduleMulti] logs at verbosity 4: the resource
    that is short when it turns a node down, the demand and the node state
    when it accepts. *)
Inductive LogLine :=
| NotEnough (what : string) (requested available : float64)
| CanBeScheduled (podReq : PodRequest) (nodeStats : NodeStats).

Definition canScheduleMulti (podReq : PodRequest) (nodeStats : NodeStats)
  : bool * list LogLine :=
  if (CPU podReq > CPUFree nodeStats)%f64 then
    (false, [NotEnough "CPU" (CPU podReq) (CPUFree nodeStats)])
  else if (Mem podReq > MemFree nodeStats)%f64 then
    (false, [NotEnough "Memory" (Mem podReq) (MemFree nodeStats)])
  else if (DiskRead podReq > DiskReadFree nodeStats)%f64 then
    (false, [NotEnough "Disk Read" (DiskRead podReq) (DiskReadFree nodeStats)])
  else if (DiskWrite podReq > DiskWriteFree nodeStats)%f64 then
    (false, [NotEnough "Disk Write" (DiskWrite podReq) (DiskWriteFree nodeStats)])
  else if (NetUp podReq > NetUpFree nodeStats)%f64 then
    (false, [NotEnough "Network Upload" (NetUp podReq) (NetUpFree nodeStats)])
  else if (NetDown podReq > NetDownFree nodeStats)%f64 then
    (false, [NotEnough "Network Download" (NetDown podReq) (NetDownFree nodeStats)])
  else (true, [CanBeScheduled podReq nodeStats]).

(** *** extractPodRequirements *)

Definition sumContainers (cs : list v1.Container) : float64 * float64 :=
  fold_left
    (fun '(cpu, mem) container =>
       let cpuReq := v1.quantityOf v1.ResourceCPU (v1.Requests container) in
       let cpu :=
         if negb (v1.IsZero cpuReq)
         then (cpu + F64.of_int (v1.MilliValue cpuReq) / F64.of_int 1000)%f64
         else cpu in
       let memReq := v1.quantityOf v1.ResourceMemory (v1.Requests container) in
       let mem :=
         if negb (v1.IsZero memReq)
         then (mem + F64.of_int (v1.Value memReq))%f64
         else mem in
       (cpu, mem)) cs (F64.zero, F64.zero).

Definition extractPodRequirements (pod : v1.Pod) : PodRequest :=
  let priority := 1 in
  let '(cpu, mem) := sumContainers (v1.Containers (v1.Spec pod)) in
  let scaled (n : Z) : float64 :=
    (cpu * F64.of_int n * F64.of_int 1024 * F64.of_int 1024)%f64 in
  {| CPU := cpu; Mem := mem;
     DiskRead := parseResourceAnnotation pod "scheduler.extender/disk-read" (scaled 10);
     DiskWrite := parseResourceAnnotation pod "scheduler.extender/disk-write" (scaled 5);
     NetUp := parseResourceAnnotation pod "scheduler.extender/net-up" (scaled 5);
     NetDown := parseResourceAnnotation pod "scheduler.extender/net-down" (scaled 10);
     Priority := priority |}.

(** *** NormalizeScore *)

Record NodeScore := {
  Name : string;
  Score : Z                            (* int64 *)
}.

(** 64-bit two's complement wrap-around. *)
Definition wrap64 (z : Z) : Z := (z + 2 ^ 63) mod 2 ^ 64 - 2 ^ 63.

Definition highestOf (scores : list NodeScore) : Z :=
  fold_left (fun highest ns => if highest <? Score ns then Score ns else highest)
            scores 0.

Definition lowestOf (maxScore : Z) (scores : list NodeScore) : Z :=
  fold_left (fun lowest ns => if Score ns <? lowest then Score ns else lowest)
            scores maxScore.

(** [NormalizeScore] rewrites the slice in place; the result is the slice
    after the call. *)
Definition NormalizeScore (p : Plugin) (scores : list NodeScore)
  : list NodeScore :=
  let highest := highestOf scores in
  let lowest := lowestOf (maxScore p) scores in
  if highest =? lowest then scores
  else
    map (fun ns =>
           {| Name := Name ns;
              Score :=
                if negb (highest =? lowest) then
                  wrap64 (wrap64 (wrap64 (Score ns - lowest) * maxScore p)
                          ÷ wrap64 (highest - lowest))
                else maxScore p ÷ 2 |}) scores.

(** *** getNodeStats

    [Query] answers with a map keyed by node name; a query is looked up
    under the name of the node only. *)

Definition selector (metric nodeName : string) : string :=
  metric ++ "{instance=~" ++ dquote ++ nodeName ++ ".*" ++ dquote ++ "}".

Definition idleSelector (nodeName : string) : string :=
  "node_cpu_seconds_total{mode=" ++ dquote ++ "idle" ++ dquote
    ++ ",instance=~" ++ dquote ++ nodeName ++ ".*" ++ dquote ++ "}".

Definition cpuQuery (nodeName : string) : string :=
  "count(" ++ idleSelector nodeName ++ ")".
Definition cpuUsageQuery (nodeName : string) : string :=
  "1 - avg(rate(" ++ idleSelector nodeName ++ "[5m]))".
Definition memTotalQuery (nodeName : string) : string :=
  selector "node_memory_MemTotal_bytes" nodeName.
Definition memAvailableQuery (nodeName : string) : string :=
  selector "node_memory_MemAvailable_bytes" nodeName.
Definition rateQuery (metric nodeName : string) : string :=
  "sum(rate(" ++ selector metric nodeName ++ "[5m]))".

Inductive answer := QueryError | Found (value : float64) | Missing.

Definition ask (prom : Metrics) (query nodeName : string) : answer :=
  match prom query with
  | None => QueryError
  | Some result =>
      match lookupSample nodeName result with
      | Some value => Found value
      | None => Missing
      end
  end.

Definition p2 : float64 := F64.of_decimal false 2 (-1).     (* 0.2 *)
Definition p8 : float64 := F64.of_decimal false 8 (-1).     (* 0.8 *)

(** A throughput dimension: the observed rate is taken to be 80% of the
    capacity; nothing is stored when the query fails. *)
Definition throughput (prom : Metrics) (metric nodeName : string)
           (defaultTotal : float64) : float64 * float64 :=
  match ask prom (rateQuery metric nodeName) nodeName with
  | QueryError => (F64.zero, F64.zero)
  | Found value =>
      let total := (value / p8)%f64 in (total, (total - value)%f64)
  | Missing => (defaultTotal, (defaultTotal * p2)%f64)
  end.

Definition getNodeStats (p : Plugin) (nodeName : string) : option NodeStats :=
  match promClient p with
  | None => None
  | Some prom =>
      let cpuTotal :=
        match ask prom (cpuQuery nodeName) nodeName with
        | QueryError => F64.zero
        | Found value => value
        | Missing => F64.one
        end in
      let cpuFree :=
        match ask prom (cpuUsageQuery nodeName) nodeName with
        | QueryError => (cpuTotal * p2)%f64
        | Found value =>
            let usageRatio := if (value > F64.one)%f64 then F64.one else value in
            (cpuTotal * (F64.one - usageRatio))%f64
        | Missing => (cpuTotal * p2)%f64
        end in
      let memTotal :=
        match ask prom (memTotalQuery nodeName) nodeName with
        | QueryError => F64.zero
        | Found value => value
        | Missing => F64.of_int (4 * F64.GiB)
        end in
      let memFree :=
        match ask prom (memAvailableQuery nodeName) nodeName with
        | QueryError => (memTotal * p2)%f64
        | Found value => value
        | Missing => (memTotal * p2)%f64
        end in
      let diskRead :=
        throughput prom "node_disk_read_bytes_total" nodeName
                   (F64.of_int (100 * F64.MiB)) in
      let diskWrite :=
        throughput prom "node_disk_written_bytes_total" nodeName
                   (F64.of_int (50 * F64.MiB)) in
      let netUp :=
        throughput prom "node_network_transmit_bytes_total" nodeName
                   (F64.of_int (125 * F64.MiB)) in
      let netDown :=
        throughput prom "node_network_receive_bytes_total" nodeName
                   (F64.of_int (125 * F64.MiB)) in
      Some {| CPUTotal := cpuTotal; CPUFree := cpuFree;
              MemTotal := memTotal; MemFree := memFree;
              DiskReadTotal := fst diskRead; DiskReadFree := snd diskRead;
              DiskWriteTotal := fst diskWrite; DiskWriteFree := snd diskWrite;
              NetUpTotal := fst netUp; NetUpFree := snd netUp;
              NetDownTotal := fst netDown; NetDownFree := snd netDown |}
  end.

End Plugin.

(** ** Dimensions

    The six resource dimensions in the order in which every admission
    predicate visits them. *)

Module Dimension.

Inductive Dim := cpu | mem | diskRead | diskWrite | netUp | netDown.

#[export] Instance Dim_eq_dec : EqDecision Dim.
Proof. solve_decision. Defined.

Definition all : list Dim := [cpu; mem; diskRead; diskWrite; netUp; netDown].

Definition index (x : Dim) : nat :=
  match x with
  | cpu => 0 | mem => 1 | diskRead => 2
  | diskWrite => 3 | netUp => 4 | netDown => 5
  end.

Definition demand (x : Dim) (d : PodRequest) : float64 :=
  match x with
  | cpu => CPU d | mem => Mem d | diskRead => DiskRead d
  | diskWrite => DiskWrite d | netUp => NetUp d | netDown => NetDown d
  end.

Definition freeOf (x : Dim) (n : NodeStats) : float64 :=
  match x with
  | cpu => CPUFree n | mem => MemFree n | diskRead => DiskReadFree n
  | diskWrite => DiskWriteFree n | netUp => NetUpFree n
  | netDown => NetDownFree n
  end.

Definition totalOf (x : Dim) (n : NodeStats) : float64 :=
  match x with
  | cpu => CPUTotal n | mem => MemTotal n | diskRead => DiskReadTotal n
  | diskWrite => DiskWriteTotal n | netUp => NetUpTotal n
  | netDown => NetDownTotal n
  end.

(** The node state with the free capacity of one dimension replaced. *)
Definition setFree (x : Dim) (f : float64) (n : NodeStats) : NodeStats :=
  {| CPUTotal := CPUTotal n;
     CPUFree := match x with cpu => f | _ => CPUFree n end;
     MemTotal := MemTotal n;
     MemFree := match x with mem => f | _ => MemFree n end;
     DiskReadTotal := DiskReadTotal n;
     DiskReadFree := match x with diskRead => f | _ => DiskReadFree n end;
     DiskWriteTotal := DiskWriteTotal n;
     DiskWriteFree := match x with diskWrite => f | _ => DiskWriteFree n end;
     NetUpTotal := NetUpTotal n;
     NetUpFree := match x with netUp => f | _ => NetUpFree n end;
     NetDownTotal := NetDownTotal n;
     NetDownFree := match x with netDown => f | _ => NetDownFree n end |}.

(** The names under which the two logging predicates report a dimension. *)
Definition loopName (x : Dim) : string :=
  match x with
  | cpu => "cpu" | mem => "mem" | diskRead => "diskRead"
  | diskWrite => "diskWrite" | netUp => "netUp" | netDown => "netDown"
  end.

Definition pluginName (x : Dim) : string :=
  match x with
  | cpu => "CPU" | mem => "Memory" | diskRead => "Disk Read"
  | diskWrite => "Disk Write" | netUp => "Network Upload"
  | netDown => "Network Download"
  end.

(** The entry of a dimension in the table of [canScheduleMulti]. *)
Definition entry (x : Dim) (d : PodRequest) (n : NodeStats)
  : Preemptive.resource :=
  {| Preemptive.free := freeOf x n; Preemptive.total := totalOf x n;
     Preemptive.req := demand x d; Preemptive.name := loopName x |}.

(** The demand exceeds the free capacity in dimension [x]. *)
Definition overAsked (d : PodRequest) (n : NodeStats) (x : Dim) : bool :=
  (demand x d > freeOf x n)%f64.

(** The loop body of [canScheduleMulti] turns the node down at [x]. *)
Definition turnedDown (d : PodRequest) (n : NodeStats) (alpha : float64)
           (x : Dim) : bool :=
  match Preemptive.checkOne (entry x d n) alpha with
  | Some _ => true
  | None => false
  end.

(** The projected utilization of dimension [x] once its free capacity
    is [f]. *)
Definition utilAfter (d : PodRequest) (n : NodeStats) (x : Dim) (f : float64)
  : float64 :=
  (F64.one - ((f - demand x d) / totalOf x n))%f64.

(** The usage that [getNodeStats] of the watch-and-bind scheduler
    subtracts in dimension [x]; [None] when CPU or memory fall back to
    their defaults. *)
Definition usageSample (prom : Metrics) (nodeName : string) (x : Dim)
  : option float64 :=
  match x with
  | cpu =>
      match prom Preemptive.cpuQuery with
      | Some samples => Preemptive.pickSample nodeName samples
      | None => None
      end
  | mem =>
      match prom Preemptive.memQuery with
      | Some samples => Preemptive.pickSample nodeName samples
      | None => None
      end
  | diskRead =>
      Some (Preemptive.sampleOr prom Preemptive.diskReadUsageQuery nodeName F64.zero)
  | diskWrite =>
      Some (Preemptive.sampleOr prom Preemptive.diskWriteUsageQuery nodeName F64.zero)
  | netUp =>
      Some (Preemptive.sampleOr prom Preemptive.netUpUsageQuery nodeName F64.zero)
  | netDown =>
      Some (Preemptive.sampleOr prom Preemptive.netDownUsageQuery nodeName F64.zero)
  end.

(** The free value of the fallback: 2 cores, 4 GiB. *)
Definition fallbackFree (x : Dim) : float64 :=
  match x with
  | cpu => F64.of_int 2
  | _ => F64.of_int (4 * F64.GiB)
  end.

(** [0 <= free <= total] in dimension [x]. *)
Definition inCapacity (x : Dim) (n : NodeStats) : bool :=
  (F64.zero <= freeOf x n)%f64 && (freeOf x n <= totalOf x n)%f64.

(** A usage between zero and the capacity, both of them numbers. *)
Definition usageInRange (usage total : float64) : bool :=
  F64.is_number usage && F64.is_number total
  && (F64.zero <= usage)%f64 && (usage <= total)%f64.

(** Dimension [x] as the data model has it: demand, free capacity and
    capacity are numbers, the demand is not negative, and the capacity is
    positive or at least the free capacity. *)
Definition inModel (x : Dim) (d : PodRequest) (n : NodeStats) : bool :=
  F64.is_number (demand x d) && F64.is_number (freeOf x n)
  && F64.is_number (totalOf x n)
  && (F64.zero <= demand x d)%f64
  && ((F64.zero < totalOf x n)%f64 || (freeOf x n <= totalOf x n)%f64).

(** Zero demand in every dimension ([+0] or [-0]). *)
Definition zeroDemand (d : PodRequest) : bool :=
  forallb (fun x => (demand x d == F64.zero)%f64) all.

(** [0 <= free <= total] in every dimension. *)
Definition withinCapacity (n : NodeStats) : bool :=
  forallb (fun x => inCapacity x n) all.

End Dimension.

(** ** Inputs of the worked scenarios *)

Module Scenario.

Definition half : float64 := F64.of_decimal false 5 (-1).          (* 0.5 *)
Definition alpha08 : float64 := F64.of_decimal false 8 (-1).       (* 0.8 *)

Definition demandOf (cpu mem : float64) (priority : Z) : PodRequest :=
  {| CPU := cpu; Mem := mem;
     DiskRead := F64.zero; DiskWrite := F64.zero;
     NetUp := F64.zero; NetDown := F64.zero;
     Priority := priority |}.

Definition nodeOf (cpuTotal cpuFree memTotal memFree : float64) : NodeStats :=
  {| CPUTotal := cpuTotal; CPUFree := cpuFree;
     MemTotal := memTotal; MemFree := memFree;
     DiskReadTotal := F64.zero; DiskReadFree := F64.zero;
     DiskWriteTotal := F64.zero; DiskWriteFree := F64.zero;
     NetUpTotal := F64.zero; NetUpFree := F64.zero;
     NetDownTotal := F64.zero; NetDownFree := F64.zero |}.

(** The pod with one annotation set, and the pod with another declared
    priority. *)
Definition annotate (pod : v1.Pod) (key value : string) : v1.Pod :=
  {| v1.Name := v1.Name pod; v1.Namespace := v1.Namespace pod;
     v1.Annotations := Some (<[key := value]> (default ∅ (v1.Annotations pod)));
     v1.Spec := v1.Spec pod; v1.Phase := v1.Phase pod |}.

Definition withPriority (pod : v1.Pod) (priority : option Z) : v1.Pod :=
  {| v1.Name := v1.Name pod; v1.Namespace := v1.Namespace pod;
     v1.Annotations := v1.Annotations pod;
     v1.Spec := {| v1.NodeName := v1.NodeName (v1.Spec pod);
                   v1.Containers := v1.Containers (v1.Spec pod);
                   v1.Priority := priority |};
     v1.Phase := v1.Phase pod |}.

(** The preemption test: two running pods of priority 1 on node1, each
    requesting 0.5 CPU and 500Mi; a demand of 1 CPU and 1Gi at priority 10;
    0.5 CPU and 512Mi free. *)
Definition lowPod (name : string) : v1.Pod :=
  {| v1.Name := name; v1.Namespace := "default"; v1.Annotations := None;
     v1.Spec :=
       {| v1.NodeName := "node1";
          v1.Containers :=
            [ {| v1.Image := "busybox";
                 v1.Requests :=
                   Some (<[v1.ResourceCPU := 500]>
                           (<[v1.ResourceMemory := 500 * F64.MiB * 1000]> ∅)) |} ];
          v1.Priority := Some 1 |};
     v1.Phase := v1.PodRunning |}.

Definition testClient : Preemptive.Client :=
  {| Preemptive.pods := [lowPod "low-pod-1"; lowPod "low-pod-2"];
     Preemptive.listFails := false;
     Preemptive.evictFails := fun _ _ => false |}.

Definition testDemand : PodRequest :=
  demandOf (F64.of_int 1) (F64.of_int (1 * F64.GiB)) 10.

Definition testNode : NodeStats :=
  nodeOf (F64.of_int 4) half (F64.of_int (4 * F64.GiB)) (F64.of_int (512 * F64.MiB)).

Definition lowRunning (name : string) : Preemptive.RunningPod :=
  {| Preemptive.Name := name; Preemptive.Namespace := "default";
     Preemptive.CPURequest := half;
     Preemptive.MemRequest := F64.of_int (500 * F64.MiB);
     Preemptive.Priority := 1 |}.

(** A request without demand and a node with 3 of 4 cores and 6 of 8 GiB
    free. *)
Definition noDemand : PodRequest := demandOf F64.zero F64.zero 0.

Definition roomyNode : NodeStats :=
  nodeOf (F64.of_int 4) (F64.of_int 3)
         (F64.of_int (8 * F64.GiB)) (F64.of_int (6 * F64.GiB)).

(** One core asked and one core free on a one-core node, two bytes of
    memory asked with one free. *)
Definition tightDemand : PodRequest := demandOf (F64.of_int 1) (F64.of_int 2) 0.

Definition tightNode : NodeStats :=
  nodeOf (F64.of_int 1) (F64.of_int 1) (F64.of_int 8) (F64.of_int 1).

(** No demand, and a node whose CPU usage was sampled above its six
    cores. *)
Definition overcommitted : NodeStats :=
  nodeOf (F64.of_int 6) (F64.of_int (-1)) (F64.of_int 8) (F64.of_int 4).

(** A metrics source that reports seven busy cores for node1 and fails
    every other query; one that fails every query. *)
Definition sevenBusyCores : Metrics :=
  fun query =>
    if String.eqb query Preemptive.cpuQuery
    then Some [("node1:9100"%string, F64.of_int 7)]
    else None.

Definition outage : Metrics := fun _ => None.

(** What the watch-and-bind scheduler records during an outage. *)
Definition outageDefaults : NodeStats :=
  {| CPUTotal := F64.of_int 6; CPUFree := F64.of_int 2;
     MemTotal := F64.of_int (8 * F64.GiB); MemFree := F64.of_int (4 * F64.GiB);
     DiskReadTotal := F64.of_int 100; DiskReadFree := F64.of_int 100;
     DiskWriteTotal := F64.of_int 100; DiskWriteFree := F64.of_int 100;
     NetUpTotal := F64.of_int 1000; NetUpFree := F64.of_int 1000;
     NetDownTotal := F64.of_int 1000; NetDownFree := F64.of_int 1000 |}.

(** The zero value of [NodeStats]. *)
Definition zeroStats : NodeStats :=
  nodeOf F64.zero F64.zero F64.zero F64.zero.

(** A node whose CPU capacity is recorded as negative. *)
Definition negativeTotal : NodeStats :=
  nodeOf (F64.of_int (-1)) (F64.of_int 1) (F64.of_int 8) (F64.of_int 8).

Definition oneCore : PodRequest := demandOf (F64.of_int 1) F64.zero 0.

(** The six letters that [parseResourceAnnotation] takes for a unit. *)
Definition unitLetter (c : ascii) : Prop :=
  c = "k"%char \/ c = "K"%char \/ c = "m"%char \/ c = "M"%char
  \/ c = "g"%char \/ c = "G"%char.

(** The multiplier of a unit letter, in either case. *)
Definition scale (c : ascii) (parsedNum : float64) : float64 :=
  if Bytes.eqb [Bytes.upperByte c] "K" then (parsedNum * F64.of_int 1024)%f64
  else if Bytes.eqb [Bytes.upperByte c] "M" then
    (parsedNum * F64.of_int 1024 * F64.of_int 1024)%f64
  else (parsedNum * F64.of_int 1024 * F64.of_int 1024 * F64.of_int 1024)%f64.

End Scenario.

(** ** Preemption accounting (package main) *)

Module Accounting.
Import Preemptive.

(** What the accumulation loop of [attemptPreemptionMulti] has added up
    after the victims [victims]: [freedResources.cpu] for
    [amount := CPURequest], [freedResources.mem] for [MemRequest]. *)
Definition freed (amount : RunningPod -> float64) (victims : list RunningPod)
  : float64 :=
  fold_left (fun acc v => (acc + amount v)%f64) victims F64.zero.

(** [canScheduleAfterPreemption] for the victims [victims]. *)
Definition covers (pod : PodRequest) (stats : NodeStats)
           (victims : list RunningPod) : bool :=
  (CPUFree stats + freed CPURequest victims >= CPU pod)%f64
  && (MemFree stats + freed MemRequest victims >= Mem pod)%f64.

(** The running pods of a node whose priority is below the one of the
    demand. *)
Definition candidatesOf (client : Client) (pod : PodRequest) (nodeName : string)
  : list RunningPod :=
  match getRunningPods client nodeName with
  | Some running => List.filter (fun rp => Priority rp <? Types.Priority pod) running
  | None => []
  end.

(** Ascending priority, the order of [sort.Slice] in
    [attemptPreemptionMulti]. *)
Definition byPriority (a b : RunningPod) : Prop := Priority a <= Priority b.

End Accounting.

(** ** The verdict of the extender's [Filter] on one node *)

Module Verdict.
Import Extender.

(** What [Filter] decides for one node: [None] when the node passes, the
    reason it records under the name of the node otherwise. *)
Definition verdict (e : MultiResourceExtender) (pod : v1.Pod) (node : string)
  : option string :=
  match getNodeStatsFromCache e node with
  | None =>
      Some ("error retrieving stats: node stats not available for " ++ node)%string
  | Some stats =>
      if CanScheduleMulti (ExtractPodRequirements pod) stats (alpha e)
      then None else Some "insufficient resources"%string
  end.

Definition passes (e : MultiResourceExtender) (pod : v1.Pod) (node : string)
  : bool :=
  match verdict e pod node with None => true | Some _ => false end.

End Verdict.

(** ** Placement (package main)

    [extractPodRequirements], [isNodeReady] and [findNodeForPod] of the
    watch-and-bind scheduler. *)

Module Placement.
Import Preemptive.

(** [extractPodRequirements]: CPU and memory summed over the containers,
    the priority of the pod, and no I/O demand. *)
Definition extractPodRequirements (pod : v1.Pod) : PodRequest :=
  let '(cpuReq, memReq) :=
    fold_left
      (fun '(cpuReq, memReq) container =>
         match v1.Requests container with
         | Some requests =>
             let cpuReq :=
               match requests !! v1.ResourceCPU with
               | Some cpu =>
                   (cpuReq + F64.of_int (v1.MilliValue cpu) / F64.of_int 1000)%f64
               | None => cpuReq
               end in
             let memReq :=
               match requests !! v1.ResourceMemory with
               | Some mem => (memReq + F64.of_int (v1.Value mem))%f64
               | None => memReq
               end in
             (cpuReq, memReq)
         | None => (cpuReq, memReq)
         end)
      (v1.Containers (v1.Spec pod)) (F64.zero, F64.zero) in
  let priority :=
    match v1.Priority (v1.Spec pod) with
    | Some priority => priority
    | None => 0
    end in
  {| CPU := cpuReq; Mem := memReq; Types.Priority := priority;
     DiskRead := F64.zero; DiskWrite := F64.zero;
     NetUp := F64.zero; NetDown := F64.zero |}.

Record NodeCondition := {
  Type_ : string;                         (* Type *)
  Status : string
}.

Definition NodeReady : string := "Ready".
Definition ConditionTrue : string := "True".

Record Node := {
  NodeName : string;                       (* ObjectMeta.Name *)
  Unschedulable : bool;                    (* Spec.Unschedulable *)
  Conditions : list NodeCondition          (* Status.Conditions *)
}.

Fixpoint readyIn (conditions : list NodeCondition) : bool :=
  match conditions with
  | [] => false
  | condition :: rest =>
      if String.eqb (Type_ condition) NodeReady
      then String.eqb (Status condition) ConditionTrue
      else readyIn rest
  end.

Definition isNodeReady (node : Node) : bool := readyIn (Conditions node).

(** The loop of [findNodeForPod].  [fetch k] is what the metrics source
    answers to the [k]-th call of [getNodeStats]; the pod list of the
    cluster is the one of [client] for every node.  The result is the name
    returned ([""] when no node is found) and the pods evicted on the way,
    in the order of the eviction calls. *)
Fixpoint findLoop (client : Client) (fetch : nat -> Metrics)
         (podReq : PodRequest) (alpha : float64) (enablePreemption : bool)
         (nodes : list Node) (k : nat) (evicted : list RunningPod)
  : string * list RunningPod :=
  match nodes with
  | [] => (EmptyString, evicted)
  | node :: rest =>
      let nodeName := NodeName node in
      if negb (isNodeReady node) || Unschedulable node then
        findLoop client fetch podReq alpha enablePreemption rest k evicted
      else
        let stats := getNodeStats (fetch k) nodeName in
        if fst (canScheduleMulti podReq stats alpha) then (nodeName, evicted)
        else if enablePreemption then
          let '(ok, victims) := attemptPreemptionMulti client podReq nodeName stats in
          if ok then
            let stats := getNodeStats (fetch (S k)) nodeName in
            if fst (canScheduleMulti podReq stats alpha)
            then (nodeName, evicted ++ victims)
            else findLoop client fetch podReq alpha enablePreemption rest
                          (S (S k)) (evicted ++ victims)
          else findLoop client fetch podReq alpha enablePreemption rest
                        (S k) (evicted ++ victims)
        else findLoop client fetch podReq alpha enablePreemption rest (S k) evicted
  end.

(** [findNodeForPod]: [None] when the node list cannot be had. *)
Definition findNodeForPod (client : Client) (nodes : option (list Node))
           (fetch : nat -> Metrics) (podReq : PodRequest) (alpha : float64)
           (enablePreemption : bool) : option (string * list RunningPod) :=
  match nodes with
  | None => None
  | Some nodes =>
      Some (findLoop client fetch podReq alpha enablePreemption nodes 0 [])
  end.

(** A node that [findNodeForPod] does not skip. *)
Definition eligible (node : Node) : bool :=
  isNodeReady node && negb (Unschedulable node).

End Placement.

(** ** The scheduling cycle of the plug-in (package multiresource)

    [Filter], [getNodeStatsFromCache] and [updateAllNodeStats]; the plug-in
    after a call is returned beside the result. *)

Module Cycle.
Import Plugin.

Inductive Code := Unschedulable | Error.

Record Status := {
  code : Code;
  reasons : string
}.

Definition getNodeStatsFromCache (p : Plugin) (nodeName : string)
  : option NodeStats :=
  nodeStats p !! nodeName.

(** [p.nodeStats[nodeName] = stats]. *)
Definition store (p : Plugin) (nodeName : string) (stats : NodeStats) : Plugin :=
  {| promClient := promClient p; alpha := alpha p; maxScore := maxScore p;
     nodeStats := <[nodeName := stats]> (nodeStats p) |}.

Definition Filter (p : Plugin) (pod : v1.Pod) (nodeName : string)
  : Plugin * option Status :=
  let podReq := extractPodRequirements pod in
  match getNodeStatsFromCache p nodeName with
  | Some nodeStats =>
      if negb (fst (canScheduleMulti podReq nodeStats)) then
        (p, Some {| code := Unschedulable;
                    reasons := "Node " ++ nodeName
                               ++ " doesn't have enough resources for pod "
                               ++ v1.Namespace pod ++ "/" ++ v1.Name pod |})
      else (p, None)
  | None =>
      match getNodeStats p nodeName with
      | None =>
          (p, Some {| code := Unschedulable;
                      reasons := "Failed to get node " ++ nodeName ++ " stats" |})
      | Some nodeStats =>
          let p := store p nodeName nodeStats in
          if negb (fst (canScheduleMulti podReq nodeStats)) then
            (p, Some {| code := Unschedulable;
                        reasons := "Node " ++ nodeName
                                   ++ " doesn't have enough resources for pod "
                                   ++ v1.Namespace pod ++ "/" ++ v1.Name pod |})
          else (p, None)
      end
  end.

(** What [Filter] answers once it has the state of the node. *)
Definition decision (pod : v1.Pod) (nodeName : string) (stats : NodeStats)
  : option Status :=
  if negb (fst (canScheduleMulti (extractPodRequirements pod) stats)) then
    Some {| code := Unschedulable;
            reasons := "Node " ++ nodeName
                       ++ " doesn't have enough resources for pod "
                       ++ v1.Namespace pod ++ "/" ++ v1.Name pod |}
  else None.

(** [updateAllNodeStats] for the node names that the snapshot lists;
    [None] when the list cannot be had. *)
Definition updateAllNodeStats (p : Plugin) (nodes : option (list string))
  : Plugin :=
  match nodes with
  | None => p
  | Some nodes =>
      fold_left
        (fun p nodeName =>
           match getNodeStats p nodeName with
           | None => p
           | Some stats => store p nodeName stats
           end) nodes p
  end.

End Cycle.

(** ** Sample keys of the plug-in's metrics client *)

Module Prom.

(** [lastIndex]: the loop from [len(s) - len(sep)] down to 0. *)
Fixpoint lastIndexFrom (s sep : list ascii) (i : nat) : Z :=
  if Bytes.eqb (firstn (length sep) (skipn i s)) sep then Z.of_nat i
  else match i with
       | O => -1
       | S i' => lastIndexFrom s sep i'
       end.

Definition lastIndex (s sep : list ascii) : Z :=
  if (length sep <=? length s)%nat
  then lastIndexFrom s sep (length s - length sep)
  else -1.

(** [s[i:i+len(sep)] == sep]. *)
Definition occursAt (s sep : list ascii) (i : nat) : Prop :=
  firstn (length sep) (skipn i s) = sep.

(** The key under which [Query] stores a sample: the [node] label when the
    sample has one, the [instance] label up to its last colon otherwise. *)
Definition sampleKey (instance : list ascii) (node : option (list ascii))
  : list ascii :=
  let nodeName := instance in
  let idx := lastIndex nodeName ":" in
  let nodeName := if negb (idx =? -1) then firstn (Z.to_nat idx) nodeName
                  else nodeName in
  match node with
  | Some node => node
  | None => nodeName
  end.

End Prom.

(** ** Ranges of scores *)

Module ScoreRange.

(** A dominant share: [+0], or a value above zero. *)
Definition share (x : float64) : Prop :=
  x = F64.zero \/ F64.ltb F64.zero x = true.

(** [+0], [-0], or a positive number in its encoding that is at most
    [m * 2^e]. *)
Definition within (m : positive) (e : Z) (r : float64) : Prop :=
  match r with
  | S754_zero _ => True
  | S754_finite false _ _ => valid_binary F64.prec F64.emax r = true /\ Rounding.atMost m e r
  | _ => False
  end.

End ScoreRange.

(** ** Workload hints of the extender

    The two tests that [estimateIORequirements] makes on the image of a
    container, and the four estimates by name. *)

Module Workload.
Import Extender.

Definition databaseImage (container : v1.Container) : bool :=
  let imageLower := Bytes.ToLower (v1.Image container) in
  imageContains imageLower "mysql" || imageContains imageLower "postgres"
  || imageContains imageLower "mongo" || imageContains imageLower "redis".

Definition webImage (container : v1.Container) : bool :=
  let imageLower := Bytes.ToLower (v1.Image container) in
  imageContains imageLower "nginx" || imageContains imageLower "apache"
  || imageContains imageLower "node" || imageContains imageLower "tomcat".

Definition diskReadOf (est : float64 * float64 * float64 * float64) : float64 :=
  fst (fst (fst est)).
Definition diskWriteOf (est : float64 * float64 * float64 * float64) : float64 :=
  snd (fst (fst est)).
Definition netUpOf (est : float64 * float64 * float64 * float64) : float64 :=
  snd (fst est).
Definition netDownOf (est : float64 * float64 * float64 * float64) : float64 :=
  snd est.

(** [n] MB/s, as the source writes it: [n*1024*1024]. *)
Definition MBps (n : Z) : float64 := F64.of_int (n * F64.MiB).

End Workload.

(** * Properties *)

Import Rounding Dimension Scenario.

(** ** Order of float64 values *)

Section FloatOrder.

Ltac order_cases :=
  repeat match goal with
         | H : context [Pos.compare_cont Eq ?x ?y] |- _ =>
             change (Pos.compare_cont Eq x y) with (Pos.compare x y) in H
         | |- context [Pos.compare_cont Eq ?x ?y] =>
             change (Pos.compare_cont Eq x y) with (Pos.compare x y)
         | H : context [Z.compare ?x ?y] |- _ => destruct (Z.compare_spec x y)
         | H : context [Pos.compare ?x ?y] |- _ => destruct (Pos.compare_spec x y)
         | |- context [Z.compare ?x ?y] => destruct (Z.compare_spec x y)
         | |- context [Pos.compare ?x ?y] => destruct (Pos.compare_spec x y)
         end.

Lemma SFcompare_lt_trans (a b c : spec_float) :
  SFcompare a b = Some Lt -> SFcompare b c = Some Lt -> SFcompare a c = Some Lt.
Proof.
  destruct a as [[]|[]| |[] ma ea], b as [[]|[]| |[] mb eb],
           c as [[]|[]| |[] mc ec];
    cbn [SFcompare]; intros Hab Hbc;
    try discriminate; try reflexivity;
    order_cases; cbn in *; try discriminate; try reflexivity; lia.
Qed.

(** When [c > a] is false and [a < b], [c > b] is false. *)
Lemma gtb_raise (a b c : float64) :
  F64.gtb c a = false -> F64.ltb a b = true -> F64.gtb c b = false.
Proof.
  unfold F64.gtb, F64.ltb, SFltb. intros Hca Hab.
  destruct (SFcompare b c) as [[]|] eqn:Hbc; try reflexivity.
  destruct (SFcompare a b) as [[]|] eqn:Hab'; try discriminate.
  rewrite (SFcompare_lt_trans a b c Hab' Hbc) in Hca. discriminate.
Qed.

Lemma ltb_raise (a b c : float64) :
  F64.ltb a c = false -> F64.ltb a b = true -> F64.ltb b c = false.
Proof. exact (gtb_raise a b c). Qed.

Lemma leb_trans (a b c : float64) :
  F64.leb a b = true -> F64.leb b c = true -> F64.leb a c = true.
Proof.
  unfold F64.leb, SFleb.
  destruct a as [[]|[]| |[] ma ea], b as [[]|[]| |[] mb eb],
           c as [[]|[]| |[] mc ec];
    cbn [SFcompare]; intros Hab Hbc;
    try discriminate; try reflexivity;
    order_cases; cbn in *; try discriminate; try reflexivity; lia.
Qed.

Lemma ltb_leb_trans (a b c : float64) :
  F64.ltb a b = true -> F64.leb b c = true -> F64.ltb a c = true.
Proof.
  unfold F64.ltb, SFltb, F64.leb, SFleb.
  destruct a as [[]|[]| |[] ma ea], b as [[]|[]| |[] mb eb],
           c as [[]|[]| |[] mc ec];
    cbn [SFcompare]; intros Hab Hbc;
    try discriminate; try reflexivity;
    order_cases; cbn in *; try discriminate; try reflexivity; lia.
Qed.

(** When [u > c] is false and [u' <= u], [u' > c] is false. *)
Lemma gtb_lower (u u' c : float64) :
  F64.gtb u c = false -> F64.leb u' u = true -> F64.gtb u' c = false.
Proof.
  unfold F64.gtb. intros Hu Hle.
  destruct (SFltb c u') eqn:E; [|reflexivity].
  pose proof (ltb_leb_trans c u' u E Hle) as H. unfold F64.ltb in H. congruence.
Qed.

End FloatOrder.

(** ** Integers as float64 *)

Section IntConversion.

Lemma digits2_lower (p : positive) :
  2 ^ (Zpos (digits2_pos p) - 1) <= Zpos p.
Proof.
  induction p as [p IH|p IH|]; cbn [digits2_pos]; [| |cbn; lia].
  all: rewrite Pos2Z.inj_succ;
    replace (Z.succ (Zpos (digits2_pos p)) - 1)
      with (Z.succ (Zpos (digits2_pos p) - 1)) by lia;
    rewrite Z.pow_succ_r by lia; lia.
Qed.

Lemma digits2_bound (p : positive) (k : Z) :
  Zpos p < 2 ^ k -> Zpos (digits2_pos p) <= k.
Proof.
  intros H. pose proof (digits2_lower p) as Hl.
  destruct (Z_lt_le_dec k (Zpos (digits2_pos p))) as [Hlt|]; [|assumption].
  exfalso. assert (2 ^ k <= 2 ^ (Zpos (digits2_pos p) - 1)).
  { destruct (Z_lt_le_dec k 0).
    - rewrite (Z.pow_neg_r 2 k) by assumption. apply Z.pow_nonneg. lia.
    - apply Z.pow_le_mono_r; lia. }
  lia.
Qed.

Lemma iter_xO_value (p d : positive) :
  Zpos (Pos.iter xO p d) = Zpos p * 2 ^ Zpos d.
Proof.
  induction d as [|d IH] using Pos.peano_ind.
  - cbn. lia.
  - rewrite Pos.iter_succ, Pos2Z.inj_xO, IH, Pos2Z.inj_succ, Z.pow_succ_r by lia.
    lia.
Qed.

Lemma iter_xO_digits (p d : positive) :
  digits2_pos (Pos.iter xO p d) = (digits2_pos p + d)%positive.
Proof.
  induction d as [|d IH] using Pos.peano_ind.
  - cbn. lia.
  - rewrite Pos.iter_succ. cbn [digits2_pos]. rewrite IH. lia.
Qed.

(** A mantissa of 53 digits with an exponent within range is left as it
    is by the rounding step. *)
Lemma round_aux_canonical (s : bool) (m : positive) (e : Z) :
  Zpos (digits2_pos m) = 53 -> -1074 <= e <= 971 ->
  binary_round_aux F64.prec F64.emax s (Zpos m) e loc_Exact = S754_finite s m e.
Proof.
  intros Hd He. unfold binary_round_aux, shr_fexp.
  cbn [Zdigits2 shr_record_of_loc]. rewrite Hd.
  assert (Hf : fexp F64.prec F64.emax (53 + e) - e = 0).
  { unfold fexp, emin, F64.prec, F64.emax. lia. }
  rewrite Hf.
  cbn [shr shr_m loc_of_shr_record round_nearest_even Zdigits2 shr_record_of_loc].
  rewrite Hd, Hf. cbn [shr shr_m].
  replace (e <=? F64.emax - F64.prec) with true; [reflexivity|].
  symmetry. apply Z.leb_le. unfold F64.emax, F64.prec. lia.
Qed.

(** [float64(n)] is exact below 2^53, and [int] gives [n] back. *)
Lemma of_int_small (p : positive) :
  Zpos p < 2 ^ 53 ->
  exists m e, F64.of_int (Zpos p) = S754_finite false m e
              /\ F64.trunc (S754_finite false m e) = Some (Zpos p).
Proof.
  intros Hp. pose proof (digits2_bound p 53 Hp) as Hd.
  pose proof (Pos2Z.is_pos (digits2_pos p)) as Hd0.
  unfold F64.of_int, binary_normalize, binary_round.
  assert (Hf : fexp F64.prec F64.emax (Zpos (digits2_pos p) + 0)
               = Zpos (digits2_pos p) - 53).
  { unfold fexp, emin, F64.prec, F64.emax. lia. }
  rewrite Hf. unfold shl_align.
  destruct (Zpos (digits2_pos p) - 53 - 0) as [|k|k] eqn:Ek; [|lia|].
  - exists p, 0. split; [apply round_aux_canonical; lia|]. cbn. f_equal. lia.
  - exists (Pos.iter xO p k), (Zpos (digits2_pos p) - 53).
    split.
    + apply round_aux_canonical; [rewrite iter_xO_digits|]; lia.
    + replace (Zpos (digits2_pos p) - 53) with (Zneg k) by lia.
      cbn [F64.trunc cond_Zopp]. rewrite iter_xO_value.
      f_equal. apply Z.div_mul. apply Z.pow_nonzero; lia.
Qed.

(** The score the extender gives to a request without demand:
    [int(float64(maxScore) - float64(maxScore) * 0)]. *)
Lemma full_score_roundtrip (n : Z) :
  0 <= n <= 2 ^ 53 ->
  let score := (F64.of_int n - F64.of_int n * F64.zero)%f64 in
  F64.to_int (if (score < F64.zero)%f64 then F64.zero else score) = n.
Proof.
  intros Hn. destruct (Z.eq_dec n (2 ^ 53)) as [->|Hne]; [vm_compute; reflexivity|].
  destruct n as [|p|p]; [vm_compute; reflexivity| |lia].
  destruct (of_int_small p) as [m [e [Hof Htr]]]; [lia|].
  cbn zeta. rewrite Hof.
  cbn [F64.mul SFmul F64.zero xorb F64.sub SFsub F64.ltb SFltb SFcompare].
  unfold F64.to_int. rewrite Htr.
  replace ((F64.min_int64 <=? Zpos p) && (Zpos p <=? F64.max_int64)) with true;
    [reflexivity|].
  symmetry. apply andb_true_intro.
  split; apply Z.leb_le; unfold F64.min_int64, F64.max_int64; lia.
Qed.

End IntConversion.

(** ** The admission predicates *)

Section Admission.

Lemma checkResources_accepts (rs : list Preemptive.resource) (α : float64) :
  fst (Preemptive.checkResources rs α) = true ->
  Forall (fun r => Preemptive.checkOne r α = None) rs.
Proof.
  induction rs as [|r rs IH]; simpl; intros H.
  - constructor.
  - destruct (Preemptive.checkOne r α) eqn:E; [discriminate|].
    constructor; auto.
Qed.

Lemma checkResources_all_pass (rs : list Preemptive.resource) (α : float64) :
  Forall (fun r => Preemptive.checkOne r α = None) rs ->
  Preemptive.checkResources rs α = (true, []).
Proof.
  induction 1 as [|r rs Hr _ IH]; simpl; [reflexivity|].
  rewrite Hr. exact IH.
Qed.

Lemma checkResources_first (before : list Preemptive.resource)
      (r : Preemptive.resource) (after : list Preemptive.resource)
      (α : float64) (line : Preemptive.LogLine) :
  Forall (fun r' => Preemptive.checkOne r' α = None) before ->
  Preemptive.checkOne r α = Some line ->
  Preemptive.checkResources (before ++ r :: after) α = (false, [line]).
Proof.
  induction 1 as [|r' rs Hr' _ IH]; simpl; intros Hr.
  - rewrite Hr. reflexivity.
  - rewrite Hr'. auto.
Qed.

(** The table of [canScheduleMulti] holds the six dimensions in order. *)
Lemma canScheduleMulti_table (d : PodRequest) (n : NodeStats) (α : float64) :
  Preemptive.canScheduleMulti d n α =
  Preemptive.checkResources (map (fun x => entry x d n) all) α.
Proof. reflexivity. Qed.

(** A dimension asked beyond its free capacity, with a demand that is not
    zero, is turned down by the loop body for lack of capacity. *)
Lemma checkOne_excess (d : PodRequest) (n : NodeStats) (α : float64) (x : Dim) :
  overAsked d n x = true ->
  (demand x d == F64.zero)%f64 = false ->
  Preemptive.checkOne (entry x d n) α =
  Some (Preemptive.NotEnough (loopName x) (freeOf x n) (demand x d)).
Proof.
  intros Hgt Hz. unfold Preemptive.checkOne.
  cbn [entry Preemptive.req Preemptive.free Preemptive.name].
  rewrite Hz. unfold F64.ltb. unfold overAsked, F64.gtb in Hgt. rewrite Hgt.
  reflexivity.
Qed.

Lemma split_at (x : Dim) :
  all = firstn (index x) all ++ x :: skipn (S (index x)) all.
Proof. destruct x; reflexivity. Qed.

Lemma before_index (x z : Dim) :
  In z (firstn (index x) all) <-> (index z < index x)%nat.
Proof.
  destruct x, z; cbn; split; intros H; try lia; intuition (try discriminate).
Qed.

(** Among the dimensions that a predicate flags there is a first one. *)
Lemma least_dimension (flagged : Dim -> bool) (x : Dim) :
  flagged x = true ->
  exists y,
    (index y <= index x)%nat /\ flagged y = true
    /\ forall z, (index z < index y)%nat -> flagged z = false.
Proof.
  remember (index x) as k eqn:Hk. revert x Hk.
  induction k as [k IH] using lt_wf_ind. intros x -> Hx.
  destruct (existsb flagged (firstn (index x) all)) eqn:E.
  - apply existsb_exists in E as [z [Hin Hz]]. apply before_index in Hin.
    destruct (IH (index z) Hin z eq_refl Hz) as [y [Hle [Hy Hfirst]]].
    exists y. split; [lia | split; assumption].
  - exists x. split; [lia | split; [assumption|]].
    intros z Hz. apply before_index in Hz.
    destruct (flagged z) eqn:Ez; [|reflexivity].
    assert (existsb flagged (firstn (index x) all) = true)
      by (apply existsb_exists; exists z; auto).
    congruence.
Qed.

Lemma plugin_rejects_at (d : PodRequest) (n : NodeStats) (y : Dim) :
  overAsked d n y = true ->
  (forall z, (index z < index y)%nat -> overAsked d n z = false) ->
  Plugin.canScheduleMulti d n =
  (false, [Plugin.NotEnough (pluginName y) (demand y d) (freeOf y n)]).
Proof.
  intros Hy Hfirst.
  assert (Hz : forall z, (index z <? index y)%nat = true -> overAsked d n z = false)
    by (intros z Hz; apply Hfirst, Nat.ltb_lt, Hz).
  unfold Plugin.canScheduleMulti, overAsked in *.
  pose proof (Hz cpu) as H1. pose proof (Hz mem) as H2.
  pose proof (Hz diskRead) as H3. pose proof (Hz diskWrite) as H4.
  pose proof (Hz netUp) as H5. clear Hz Hfirst.
  destruct y; cbn in H1, H2, H3, H4, H5, Hy |- *;
    try rewrite (H1 eq_refl); try rewrite (H2 eq_refl);
    try rewrite (H3 eq_refl); try rewrite (H4 eq_refl);
    try rewrite (H5 eq_refl); rewrite Hy; reflexivity.
Qed.

Lemma extender_rejects (d : PodRequest) (n : NodeStats) (α : float64) (x : Dim) :
  overAsked d n x = true -> Extender.CanScheduleMulti d n α = false.
Proof.
  unfold overAsked, Extender.CanScheduleMulti. intros Hx.
  destruct x; cbn [demand freeOf] in Hx; rewrite Hx;
    rewrite ?orb_true_r; cbn;
    repeat match goal with
           | |- (if ?c then false else _) = false => destruct c; [reflexivity|]
           end; reflexivity.
Qed.

Lemma loop_rejects_at (d : PodRequest) (n : NodeStats) (α : float64)
      (y : Dim) (line : Preemptive.LogLine) :
  Preemptive.checkOne (entry y d n) α = Some line ->
  (forall z, (index z < index y)%nat -> Preemptive.checkOne (entry z d n) α = None) ->
  Preemptive.canScheduleMulti d n α = (false, [line]).
Proof.
  intros Hy Hfirst. rewrite canScheduleMulti_table, (split_at y), map_app.
  cbn [map]. apply checkResources_first; [|assumption].
  apply List.Forall_forall. intros r Hr. apply in_map_iff in Hr as [z [<- Hz]].
  apply Hfirst, before_index, Hz.
Qed.

Lemma entry_setFree_other (d : PodRequest) (n : NodeStats) (x z : Dim)
      (f : float64) :
  z <> x -> entry z d (setFree x f n) = entry z d n.
Proof. destruct x, z; intros H; try congruence; reflexivity. Qed.

Lemma entry_setFree_same (d : PodRequest) (n : NodeStats) (x : Dim) (f : float64) :
  entry x d (setFree x f n) =
  {| Preemptive.free := f; Preemptive.total := totalOf x n;
     Preemptive.req := demand x d; Preemptive.name := loopName x |}.
Proof. destruct x; reflexivity. Qed.

Lemma accepted_everywhere (d : PodRequest) (n : NodeStats) (α : float64) :
  fst (Preemptive.canScheduleMulti d n α) = true ->
  forall z, Preemptive.checkOne (entry z d n) α = None.
Proof.
  intros H z. rewrite canScheduleMulti_table in H.
  apply checkResources_accepts in H. rewrite List.Forall_forall in H.
  apply H. apply (in_map (fun x => entry x d n)). destruct z; cbn; tauto.
Qed.

Lemma everywhere_accepted (d : PodRequest) (n : NodeStats) (α : float64) :
  (forall z, Preemptive.checkOne (entry z d n) α = None) ->
  Preemptive.canScheduleMulti d n α = (true, []).
Proof.
  intros H. rewrite canScheduleMulti_table. apply checkResources_all_pass.
  apply List.Forall_forall. intros r Hr.
  apply in_map_iff in Hr as [z [<- _]]. apply H.
Qed.

Ltac each_comparison H z :=
  destruct (CPU _ > CPUFree _)%f64 eqn:E1; [discriminate|];
  destruct (Mem _ > MemFree _)%f64 eqn:E2; [discriminate|];
  destruct (DiskRead _ > DiskReadFree _)%f64 eqn:E3; [discriminate|];
  destruct (DiskWrite _ > DiskWriteFree _)%f64 eqn:E4; [discriminate|];
  destruct (NetUp _ > NetUpFree _)%f64 eqn:E5; [discriminate|];
  destruct (NetDown _ > NetDownFree _)%f64 eqn:E6; [discriminate|];
  destruct z; assumption.

Ltac all_comparisons H :=
  pose proof (H cpu) as H1; pose proof (H mem) as H2;
  pose proof (H diskRead) as H3; pose proof (H diskWrite) as H4;
  pose proof (H netUp) as H5; pose proof (H netDown) as H6;
  cbn in H1, H2, H3, H4, H5, H6; rewrite H1, H2, H3, H4, H5, H6; reflexivity.

Lemma extender_accepts_iff (d : PodRequest) (n : NodeStats) (α : float64) :
  Extender.CanScheduleMulti d n α = true <-> forall z, overAsked d n z = false.
Proof.
  unfold Extender.CanScheduleMulti, overAsked. split.
  - intros H z. each_comparison H z.
  - intros H. all_comparisons H.
Qed.

Lemma plugin_accepts_iff (d : PodRequest) (n : NodeStats) :
  fst (Plugin.canScheduleMulti d n) = true <-> forall z, overAsked d n z = false.
Proof.
  unfold Plugin.canScheduleMulti, overAsked. split.
  - intros H z. each_comparison H z.
  - intros H. all_comparisons H.
Qed.

Lemma plugin_accepts_log (d : PodRequest) (n : NodeStats) :
  fst (Plugin.canScheduleMulti d n) = true ->
  Plugin.canScheduleMulti d n = (true, [Plugin.CanBeScheduled d n]).
Proof.
  unfold Plugin.canScheduleMulti.
  repeat match goal with
         | |- context [if ?c then _ else _] => destruct c; [discriminate|]
         end. reflexivity.
Qed.

Lemma overAsked_raise (d : PodRequest) (n : NodeStats) (x z : Dim) (f : float64) :
  (freeOf x n < f)%f64 = true ->
  overAsked d n z = false -> overAsked d (setFree x f n) z = false.
Proof.
  intros Hf Hz. unfold overAsked in *.
  destruct (decide (z = x)) as [->|Hne].
  - replace (freeOf x (setFree x f n)) with f by (destruct x; reflexivity).
    exact (gtb_raise _ _ _ Hz Hf).
  - replace (freeOf z (setFree x f n)) with (freeOf z n)
      by (destruct x, z; try congruence; reflexivity).
    exact Hz.
Qed.

(** The watch-and-bind predicate after a raise of [x]: the capacity checks
    still pass, and the utilization check of [x] decides. *)
Lemma loop_after_raise (d : PodRequest) (n : NodeStats) (α : float64)
      (x : Dim) (f : float64) :
  (freeOf x n < f)%f64 = true ->
  fst (Preemptive.canScheduleMulti d n α) = true ->
  Preemptive.canScheduleMulti d (setFree x f n) α =
  if negb (demand x d == F64.zero)%f64 && (utilAfter d n x f > α)%f64
  then (false, [Preemptive.UtilizationTooHigh (loopName x) (utilAfter d n x f) α])
  else (true, []).
Proof.
  intros Hf H. pose proof (accepted_everywhere d n α H) as Hall.
  assert (Hother : forall z, z <> x ->
            Preemptive.checkOne (entry z d (setFree x f n)) α = None)
    by (intros z Hz; rewrite entry_setFree_other by assumption; apply Hall).
  assert (Hsame : Preemptive.checkOne (entry x d (setFree x f n)) α =
            if negb (demand x d == F64.zero)%f64 && (utilAfter d n x f > α)%f64
            then Some (Preemptive.UtilizationTooHigh
                         (loopName x) (utilAfter d n x f) α)
            else None).
  { specialize (Hall x). rewrite entry_setFree_same.
    unfold Preemptive.checkOne, Preemptive.expectedUtil in *.
    cbn [entry Preemptive.req Preemptive.free Preemptive.name Preemptive.total] in *.
    fold (utilAfter d n x f).
    destruct (demand x d == F64.zero)%f64; [reflexivity|]. cbn [negb andb].
    destruct (freeOf x n < demand x d)%f64 eqn:Ehard; [discriminate|].
    rewrite (ltb_raise _ _ _ Ehard Hf). reflexivity. }
  destruct (negb (demand x d == F64.zero)%f64 && (utilAfter d n x f > α)%f64).
  - apply loop_rejects_at with (y := x); [assumption|].
    intros z Hz. apply Hother. intros ->. lia.
  - apply everywhere_accepted. intros z.
    destruct (decide (z = x)) as [->|Hz]; auto.
Qed.

End Admission.

(** C1.  If some dimension [x] has [d.x > n.xFree], the extender and the
    plug-in turn the node down, and so does the watch-and-bind scheduler when
    [d.x] is not zero (a dimension without demand is skipped).  The reason
    logged is the one of the first dimension, in the fixed order, that fails
    a check: the plug-in names the first dimension asked beyond its free
    capacity, the watch-and-bind scheduler the first dimension that fails
    either its capacity or its utilization check.  That dimension is [x]
    itself when no earlier one fails.  The extender returns the boolean
    only. *)
Theorem admission_turns_down_excess_demand
        (d : PodRequest) (n : NodeStats) (α : float64) (x : Dim) :
  overAsked d n x = true ->
  Extender.CanScheduleMulti d n α = false
  /\ (exists y,
        (index y <= index x)%nat
        /\ overAsked d n y = true
        /\ (forall z, (index z < index y)%nat -> overAsked d n z = false)
        /\ Plugin.canScheduleMulti d n =
           (false, [Plugin.NotEnough (pluginName y) (demand y d) (freeOf y n)]))
  /\ ((demand x d == F64.zero)%f64 = false ->
      exists y line,
        (index y <= index x)%nat
        /\ Preemptive.checkOne (entry y d n) α = Some line
        /\ (forall z, (index z < index y)%nat ->
                      Preemptive.checkOne (entry z d n) α = None)
        /\ Preemptive.canScheduleMulti d n α = (false, [line])
        /\ (y = x ->
            line = Preemptive.NotEnough (loopName x) (freeOf x n) (demand x d))).
Proof.
  intros Hx. split; [exact (extender_rejects d n α x Hx)|]. split.
  - destruct (least_dimension (overAsked d n) x Hx) as [y [Hle [Hy Hfirst]]].
    exists y. repeat split; auto using plugin_rejects_at.
  - intros Hnz. pose proof (checkOne_excess d n α x Hx Hnz) as Hline.
    assert (Hflag : turnedDown d n α x = true)
      by (unfold turnedDown; rewrite Hline; reflexivity).
    destruct (least_dimension (turnedDown d n α) x Hflag) as [y [Hle [Hy Hfirst]]].
    unfold turnedDown in Hy, Hfirst.
    destruct (Preemptive.checkOne (entry y d n) α) as [line|] eqn:Ey; [|discriminate].
    assert (Hnone : forall z, (index z < index y)%nat ->
                              Preemptive.checkOne (entry z d n) α = None).
    { intros z Hz. specialize (Hfirst z Hz).
      destruct (Preemptive.checkOne (entry z d n) α); [discriminate|reflexivity]. }
    exists y, line.
    split; [assumption|]. split; [assumption|]. split; [assumption|].
    split; [apply loop_rejects_at with (y := y); assumption|].
    intros ->. congruence.
Qed.

Lemma admission_turns_down_excess_demand_witness :
  Extender.CanScheduleMulti tightDemand tightNode alpha08 = false.
Proof.
  exact (proj1 (admission_turns_down_excess_demand
                  tightDemand tightNode alpha08 mem eq_refl)).
Defined.

(** Memory is asked beyond its free capacity, and the line logged is about
    the CPU utilization; a node with negative free CPU is accepted by a
    request without CPU demand. *)
Lemma excess_demand_reported_elsewhere :
  overAsked tightDemand tightNode mem = true
  /\ Preemptive.canScheduleMulti tightDemand tightNode alpha08 =
     (false, [Preemptive.UtilizationTooHigh "cpu" F64.one alpha08])
  /\ overAsked noDemand overcommitted cpu = true
  /\ Preemptive.canScheduleMulti noDemand overcommitted alpha08 = (true, []).
Proof. vm_compute. repeat split; reflexivity. Qed.

(** C9.  The extender's [CanScheduleMulti] gives the same answer for any two
    values of alpha, and so does [Filter] for two extenders that differ in
    alpha only, although [NewMultiResourceExtender] configures alpha (0.8
    unless MULTIRESOURCE_ALPHA is set) and [Filter] passes it in. *)
Theorem extender_ignores_alpha :
  (forall (podReq : PodRequest) (stats : NodeStats) (a1 a2 : float64),
      Extender.CanScheduleMulti podReq stats a1 =
      Extender.CanScheduleMulti podReq stats a2)
  /\ (forall (a1 a2 : float64) (ms1 ms2 : Z) (cache : gmap string NodeStats)
             (pod : v1.Pod) (nodes : list string),
         Extender.Filter
           {| Extender.alpha := a1; Extender.maxScore := ms1;
              Extender.nodeStats := cache |} pod nodes =
         Extender.Filter
           {| Extender.alpha := a2; Extender.maxScore := ms2;
              Extender.nodeStats := cache |} pod nodes)
  /\ Extender.alpha (Extender.NewMultiResourceExtender ∅) = alpha08
  /\ Extender.alpha
       (Extender.NewMultiResourceExtender
          (<["MULTIRESOURCE_ALPHA"%string := "0.5"%string]> ∅))
     = half.
Proof.
  split; [reflexivity|]. split; [|split; vm_compute; reflexivity].
  intros a1 a2 ms1 ms2 cache pod nodes. unfold Extender.Filter.
  generalize (@nil string) (∅ : gmap string string).
  induction nodes as [|node nodes IH]; intros filtered failed; [reflexivity|].
  cbn [Extender.filterNodes].
  unfold Extender.getNodeStatsFromCache. cbn [Extender.nodeStats Extender.alpha].
  destruct (cache !! node) as [stats|]; [|apply IH].
  change (Extender.CanScheduleMulti (Extender.ExtractPodRequirements pod) stats a1)
    with (Extender.CanScheduleMulti (Extender.ExtractPodRequirements pod) stats a2).
  destruct (negb _); apply IH.
Qed.

(** ** Rounding of a difference

    The difference of two float64 numbers is the exact difference rounded to
    nearest even.  When the subtrahend lies between zero and the minuend
    the rounded difference does too. *)

Abbreviation fexp64 := (fexp F64.prec F64.emax).
Abbreviation valid64 := (valid_binary F64.prec F64.emax).

Section Shift.

(** [iter_pos f p] applies [f] [p] times. *)
Lemma iter_pos_invariant {A : Type} (f : A -> A) (R : Z -> A -> Prop) :
(forall k x, 0 <= k -> R k x -> R (k + 1) (f x)) ->
forall p k x, 0 <= k -> R k x -> R (k + Zpos p) (SpecFloat.iter_pos f p x).
Proof.
intros Hstep. induction p as [p IH|p IH|]; intros k x Hk Hx; cbn [SpecFloat.iter_pos].
- replace (k + Zpos p~1) with (k + 1 + Zpos p + Zpos p) by lia.
  apply IH; [lia|]. apply IH; [lia|]. apply Hstep; assumption.
- replace (k + Zpos p~0) with (k + Zpos p + Zpos p) by lia.
  apply IH; [lia|]. apply IH; assumption.
- apply Hstep; assumption.
Qed.

Lemma shr_1_m (mrs : shr_record) :
0 <= shr_m mrs -> shr_m (shr_1 mrs) = shr_m mrs / 2.
Proof.
destruct mrs as [m r s]. cbn [shr_m]. intros Hm.
destruct m as [|[p|p|]|p]; cbn [shr_1 shr_m]; [reflexivity| | |reflexivity|lia].
- apply Z.div_unique with (r := 1); lia.
- apply Z.div_unique with (r := 0); lia.
Qed.

Lemma shr_1_exact (mrs : shr_record) :
0 <= shr_m mrs -> shr_r mrs = false -> shr_s mrs = false ->
shr_m mrs mod 2 = 0 ->
shr_r (shr_1 mrs) = false /\ shr_s (shr_1 mrs) = false.
Proof.
destruct mrs as [m r s]. cbn [shr_m shr_r shr_s]. intros Hm -> -> Hmod.
destruct m as [|[p|p|]|p]; cbn [shr_1 shr_r shr_s orb]; try lia; try tauto.
- exfalso. pose proof (Z.div_mod (Zpos p~1) 2 ltac:(lia)). lia.
- discriminate.
Qed.

(** Shifting [m >= 0] right by [p] bits: the mantissa is the quotient, and
  no bit is lost when [2^p] divides [m]. *)
Lemma shr_spec (m : Z) (p : positive) :
0 <= m ->
let mrs := SpecFloat.iter_pos shr_1 p (Build_shr_record m false false) in
shr_m mrs = m / 2 ^ Zpos p
/\ (m mod 2 ^ Zpos p = 0 -> shr_r mrs = false /\ shr_s mrs = false).
Proof.
intros Hm.
pose (R := fun (k : Z) (mrs : shr_record) =>
             shr_m mrs = m / 2 ^ k
             /\ (m mod 2 ^ k = 0 -> shr_r mrs = false /\ shr_s mrs = false)).
assert (H : R (0 + Zpos p) (SpecFloat.iter_pos shr_1 p (Build_shr_record m false false))).
{ apply iter_pos_invariant; [|lia|].
  - intros k x Hk [Hq Hex]. unfold R.
    assert (Hpow : 2 ^ (k + 1) = 2 ^ k * 2) by (rewrite Z.pow_add_r by lia; reflexivity).
    assert (Hk2 : 0 < 2 ^ k) by (apply Z.pow_pos_nonneg; lia).
    assert (Hnn : 0 <= shr_m x) by (rewrite Hq; apply Z.div_pos; lia).
    split.
    + rewrite shr_1_m by assumption. rewrite Hq, Hpow.
      rewrite Z.div_div by lia. reflexivity.
    + intros Hmod. rewrite Hpow in Hmod.
      assert (Hmk : m mod 2 ^ k = 0).
      { rewrite Z.rem_mul_r in Hmod by lia. 
        pose proof (Z.mod_pos_bound m (2 ^ k) Hk2).
        pose proof (Z.mod_pos_bound (m / 2 ^ k) 2 ltac:(lia)). nia. }
      destruct (Hex Hmk) as [Hr Hs].
      apply shr_1_exact; try assumption.
      rewrite Hq. rewrite Z.rem_mul_r in Hmod by lia. lia.
  - unfold R. cbn [shr_m shr_r shr_s]. rewrite Z.pow_0_r, Z.div_1_r. tauto. }
exact H.
Qed.

End Shift.

Section RoundBelow.

Lemma fexp64_eq (x : Z) : fexp64 x = Z.max (x - 53) (-1074).
Proof. reflexivity. Qed.

Lemma digits2_upper (p : positive) :
Zpos p < 2 ^ Zpos (digits2_pos p).
Proof.
induction p as [p IH|p IH|]; cbn [digits2_pos]; [| |cbn; lia].
all: rewrite Pos2Z.inj_succ, Z.pow_succ_r by lia; lia.
Qed.

(** A smaller value has no more digits above the binary point. *)
Lemma digits_le (a K : positive) (ea eK : Z) :
ea <= eK -> Zpos a <= Zpos K * 2 ^ (eK - ea) ->
Zpos (digits2_pos a) + ea <= Zpos (digits2_pos K) + eK.
Proof.
intros He Hv.
pose proof (digits2_lower a) as Ha. pose proof (digits2_upper K) as HK.
assert (Hlt : 2 ^ (Zpos (digits2_pos a) - 1) < 2 ^ (Zpos (digits2_pos K) + (eK - ea))).
{ rewrite Z.pow_add_r by lia.
  assert (0 < 2 ^ (eK - ea)) by (apply Z.pow_pos_nonneg; lia). nia. }
apply Z.pow_lt_mono_r_iff in Hlt; lia.
Qed.

Lemma rne_bounds (mrs : shr_record) :
let M := round_nearest_even (shr_m mrs) (loc_of_shr_record mrs) in
shr_m mrs <= M <= shr_m mrs + 1
/\ (shr_r mrs = false -> shr_s mrs = false -> M = shr_m mrs).
Proof.
destruct mrs as [m [] []]; cbn; repeat split; try lia; try discriminate;
  destruct (Z.even m); lia.
Qed.

(** [shr_fexp] on an exact mantissa [m >= 0]. *)
Lemma shr_fexp_spec (m e : Z) :
0 <= m ->
let n := Z.max 0 (fexp64 (Zdigits2 m + e) - e) in
let mrs := fst (shr_fexp F64.prec F64.emax m e loc_Exact) in
snd (shr_fexp F64.prec F64.emax m e loc_Exact) = e + n
/\ shr_m mrs = m / 2 ^ n
/\ (m mod 2 ^ n = 0 -> shr_r mrs = false /\ shr_s mrs = false).
Proof.
intros Hm. cbn zeta. unfold shr_fexp, shr. cbn [shr_record_of_loc].
destruct (fexp64 (Zdigits2 m + e) - e) as [|p|p] eqn:En; cbn [fst snd].
- rewrite Z.max_l by lia. cbn [shr_m shr_r shr_s].
  rewrite Z.pow_0_r, Z.div_1_r. repeat split; lia.
- rewrite Z.max_r by lia. destruct (shr_spec m p Hm) as [Hq Hex].
  repeat split; try lia; try assumption; apply Hex; assumption.
- rewrite Z.max_l by lia. cbn [shr_m shr_r shr_s].
  rewrite Z.pow_0_r, Z.div_1_r. repeat split; lia.
Qed.


Lemma pow2_split (a b c : Z) :
a <= b <= c -> 2 ^ (c - a) = 2 ^ (c - b) * 2 ^ (b - a).
Proof. intros H. rewrite <- Z.pow_add_r by lia. f_equal. lia. Qed.

Lemma pow2_pos (k : Z) : 0 <= k -> 0 < 2 ^ k.
Proof. intros H. apply Z.pow_pos_nonneg; lia. Qed.

(** One rounding step stays below a representable bound: [m / 2^n],
  rounded, is at most [B] when [m <= B * 2^n]. *)
Lemma step_below (m B n : Z) (mrs : shr_record) :
0 <= m -> 0 <= n -> m <= B * 2 ^ n ->
shr_m mrs = m / 2 ^ n ->
(m mod 2 ^ n = 0 -> shr_r mrs = false /\ shr_s mrs = false) ->
0 <= round_nearest_even (shr_m mrs) (loc_of_shr_record mrs) <= B.
Proof.
intros Hm Hn Hb Hq Hex.
pose proof (pow2_pos n Hn) as Hp.
destruct (rne_bounds mrs) as [HM HMex].
assert (0 <= m / 2 ^ n) by (apply Z.div_pos; lia).
split; [lia|].
destruct (Z.eq_dec m (B * 2 ^ n)) as [->|Hne].
- rewrite Z.mod_mul in Hex by lia. destruct (Hex eq_refl) as [Hr Hs].
  rewrite (HMex Hr Hs), Hq, Z.div_mul by lia. lia.
- assert (m / 2 ^ n < B) by (apply Z.div_lt_upper_bound; lia). lia.
Qed.

(** Rounding an exact value [mz * 2^e] that is at most a canonical
  [K * 2^eK] gives a float that compares at most equal to it. *)
Lemma round_exact_below (mz K : positive) (e eK : Z) :
e <= eK -> Zpos mz <= Zpos K * 2 ^ (eK - e) ->
fexp64 (Zpos (digits2_pos K) + eK) = eK -> eK <= 971 ->
match binary_round_aux F64.prec F64.emax false (Zpos mz) e loc_Exact with
| S754_zero false => True
| S754_finite false m e' => e' < eK \/ (e' = eK /\ Zpos m <= Zpos K)
| _ => False
end.
Proof.
intros He Hv HK Hmax. unfold binary_round_aux.
destruct (shr_fexp_spec (Zpos mz) e ltac:(lia)) as [He1 [Hq1 Hex1]].
destruct (shr_fexp F64.prec F64.emax (Zpos mz) e loc_Exact) as [mrs1 e1].
cbn [fst snd] in He1, Hq1, Hex1. cbn [Zdigits2] in He1, Hq1, Hex1.
set (n1 := Z.max 0 (fexp64 (Zpos (digits2_pos mz) + e) - e)) in *.
assert (Hn1 : 0 <= n1) by (unfold n1; lia).
assert (He1K : e1 <= eK).
{ pose proof (digits_le mz K e eK He Hv) as Hd.
  rewrite fexp64_eq in HK. unfold n1 in He1. rewrite fexp64_eq in He1. lia. }
assert (HvK : Zpos K * 2 ^ (eK - e) = Zpos K * 2 ^ (eK - e1) * 2 ^ n1).
{ rewrite (pow2_split e e1 eK) by lia. replace (e1 - e) with n1 by lia. ring. }
pose proof (step_below (Zpos mz) (Zpos K * 2 ^ (eK - e1)) n1 mrs1
              ltac:(lia) Hn1 ltac:(lia) Hq1 Hex1) as HM1.
set (M1 := round_nearest_even (shr_m mrs1) (loc_of_shr_record mrs1)) in *.
destruct (shr_fexp_spec M1 e1 ltac:(lia)) as [He2 [Hq2 _]].
destruct (shr_fexp F64.prec F64.emax M1 e1 loc_Exact) as [mrs2 e2].
cbn [fst snd] in He2, Hq2.
set (n2 := Z.max 0 (fexp64 (Zdigits2 M1 + e1) - e1)) in *.
assert (Hn2 : 0 <= n2) by (unfold n2; lia).
pose proof (pow2_pos n2 Hn2) as Hp2.
assert (Hm2 : 0 <= shr_m mrs2) by (rewrite Hq2; apply Z.div_pos; lia).
destruct (shr_m mrs2) as [|m2|m2] eqn:Em2; [exact I| |lia].
assert (HM1pos : 0 < M1).
{ destruct (Z.eq_dec M1 0) as [E0|]; [|lia].
  rewrite E0, Z.div_0_l in Hq2 by lia. discriminate. }
assert (He2K : e2 <= eK).
{ destruct M1 as [|M1p|M1p]; try lia. cbn [Zdigits2] in n2.
  pose proof (digits_le M1p K e1 eK He1K ltac:(lia)) as Hd.
  rewrite fexp64_eq in HK. unfold n2 in He2. rewrite fexp64_eq in He2. lia. }
assert (Hm2K : Zpos m2 <= Zpos K * 2 ^ (eK - e2)).
{ rewrite Hq2. apply Z.div_le_upper_bound; [lia|].
  rewrite (pow2_split e1 e2 eK) in HM1 by lia.
  replace (e2 - e1) with n2 in HM1 by lia. lia. }
replace (e2 <=? F64.emax - F64.prec) with true
  by (symmetry; apply Z.leb_le; unfold F64.emax, F64.prec; lia).
destruct (Z.eq_dec e2 eK) as [->|]; [|left; lia].
right. rewrite Z.sub_diag, Z.pow_0_r in Hm2K. lia.
Qed.

End RoundBelow.

Section Subtraction.

Lemma shl_align_spec (mx : positive) (ex ez : Z) :
snd (shl_align mx ex ez) = Z.min ex ez
/\ Zpos (fst (shl_align mx ex ez)) = Zpos mx * 2 ^ (ex - Z.min ex ez).
Proof.
unfold shl_align. destruct (ez - ex) as [|d|d] eqn:Ed; cbn [fst snd].
- rewrite Z.min_l by lia. rewrite Z.sub_diag. cbn. lia.
- rewrite Z.min_l by lia. rewrite Z.sub_diag. cbn. lia.
- rewrite Z.min_r by lia. rewrite iter_xO_value.
  split; [reflexivity|]. do 2 f_equal. lia.
Qed.

Lemma atMost_order (K : positive) (eK : Z) (r : spec_float) :
atMost K eK r ->
(F64.zero <= r)%f64 = true /\ (r <= S754_finite false K eK)%f64 = true.
Proof.
unfold F64.leb, SFleb, F64.zero.
destruct r as [[]| | |[] m e]; cbn [atMost SFcompare]; try tauto.
intros [Hlt|[-> Hm]].
- rewrite (proj2 (Z.compare_lt_iff e eK) Hlt). tauto.
- rewrite Z.compare_refl.
  change (Pos.compare_cont Eq m K) with (Pos.compare m K).
  destruct (Pos.compare_spec m K); try tauto. lia.
Qed.

Lemma normalize_below (D K : positive) (ez eK : Z) :
ez <= eK -> Zpos D <= Zpos K * 2 ^ (eK - ez) ->
fexp64 (Zpos (digits2_pos K) + eK) = eK -> eK <= 971 ->
atMost K eK (binary_round F64.prec F64.emax false D ez).
Proof.
intros He Hv HK Hmax. unfold binary_round.
destruct (shl_align_spec D ez (fexp64 (Zpos (digits2_pos D) + ez))) as [Hs Hm].
destruct (shl_align D ez _) as [mz e0]. cbn [fst snd] in Hs, Hm.
apply round_exact_below; try assumption; [lia|].
rewrite Hm. rewrite (pow2_split e0 ez eK) by lia.
assert (0 < 2 ^ (ez - e0)) by (apply pow2_pos; lia).
rewrite <- Hs. nia.
Qed.

(** The order of two valid positive floats is the order of their values. *)
Lemma valid_order (mu mt : positive) (eu et : Z) :
valid64 (S754_finite false mu eu) = true ->
valid64 (S754_finite false mt et) = true ->
F64.leb (S754_finite false mu eu) (S754_finite false mt et) = true ->
Zpos mu * 2 ^ (eu - Z.min et eu) <= Zpos mt * 2 ^ (et - Z.min et eu).
Proof.
unfold valid_binary, bounded, canonical_mantissa, F64.leb, SFleb.
cbn [SFcompare]. intros Hu Ht Hle.
apply andb_prop in Hu as [Hu _]. apply andb_prop in Ht as [Ht _].
apply Z.eqb_eq in Hu, Ht. rewrite fexp64_eq in Hu, Ht.
change (Pos.compare_cont Eq mu mt) with (Pos.compare mu mt) in Hle.
destruct (Z.compare_spec eu et) as [->|Hlt|Hgt]; [| |discriminate].
- rewrite Z.min_id, Z.sub_diag, Z.pow_0_r.
  destruct (Pos.compare_spec mu mt); try discriminate; lia.
- rewrite Z.min_r by lia. rewrite Z.sub_diag, Z.pow_0_r.
  pose proof (digits2_upper mu) as Hmu. pose proof (digits2_lower mt) as Hmt.
  assert (Hdu : Zpos (digits2_pos mu) <= 53) by lia.
  assert (Hdt : Zpos (digits2_pos mt) = 53) by lia.
  rewrite Hdt in Hmt.
  assert (2 ^ Zpos (digits2_pos mu) <= 2 ^ 53) by (apply Z.pow_le_mono_r; lia).
  assert (2 ^ 1 <= 2 ^ (et - eu)) by (apply Z.pow_le_mono_r; lia).
  change (2 ^ 1) with 2 in *. change (2 ^ (53 - 1)) with 4503599627370496 in *.
  change (2 ^ 53) with 9007199254740992 in *. nia.
Qed.

(** With [0 <= u <= t], the difference [t - u] lies between 0 and [t]. *)
Lemma sub_within (t u : float64) :
usageInRange u t = true ->
(F64.zero <= t - u)%f64 = true /\ (t - u <= t)%f64 = true.
Proof.
unfold usageInRange. intros H.
apply andb_prop in H as [H Hut]. apply andb_prop in H as [H H0].
apply andb_prop in H as [Vu Vt].
destruct u as [su| | |su mu eu]; try discriminate;
  destruct t as [st| | |st mt et]; try discriminate.
- destruct su, st; split; reflexivity.
- destruct st; [destruct su; discriminate|].
  cbn [F64.sub SFsub]. split; [reflexivity|].
  unfold F64.leb, SFleb. cbn [SFcompare]. rewrite Z.compare_refl.
  change (Pos.compare_cont Eq mt mt) with (Pos.compare mt mt).
  rewrite Pos.compare_refl. reflexivity.
- destruct su; [discriminate|]. destruct st; discriminate.
- destruct su; [discriminate|]. destruct st; [discriminate|].
  cbn [F64.is_number] in Vu, Vt.
  pose proof (valid_order mu mt eu et Vu Vt Hut) as Hord.
  unfold F64.sub, SFsub. cbn [cond_Zopp].
  destruct (shl_align_spec mt et (Z.min et eu)) as [_ HT].
  destruct (shl_align_spec mu eu (Z.min et eu)) as [_ HU].
  rewrite (Z.min_r et (Z.min et eu)) in HT by lia.
  rewrite (Z.min_r eu (Z.min et eu)) in HU by lia.
  rewrite HT, HU.
  unfold valid_binary, bounded, canonical_mantissa in Vt.
  apply andb_prop in Vt as [Vc Vb]. apply Z.eqb_eq in Vc. apply Z.leb_le in Vb.
  change (F64.emax - F64.prec) with 971 in Vb.
  assert (0 < Zpos mu * 2 ^ (eu - Z.min et eu))
    by (apply Z.mul_pos_pos; [lia|apply pow2_pos; lia]).
  destruct (Zpos mt * 2 ^ (et - Z.min et eu) - Zpos mu * 2 ^ (eu - Z.min et eu))
    as [|D|D] eqn:ED; [|apply atMost_order|lia].
  + cbn [binary_normalize]. split; reflexivity.
  + cbn [binary_normalize]. apply normalize_below; try assumption; lia.
Qed.

End Subtraction.

(** ** Monotone rounding

    Rounding to nearest even is monotone: of two exact quotients the smaller
    one rounds to the smaller float.  Subtraction and division of float64
    numbers are roundings of exact quotients, and so the utilization that
    [canScheduleMulti] projects, [1 - (free - d.x) / total], falls when the
    free capacity rises. *)

Section Located.

Lemma shr_1_bits (mrs : shr_record) :
  0 <= shr_m mrs ->
  shr_r (shr_1 mrs) = Z.odd (shr_m mrs)
  /\ shr_s (shr_1 mrs) = shr_r mrs || shr_s mrs.
Proof.
  destruct mrs as [m r s]. cbn [shr_m shr_r shr_s]. intros Hm.
  destruct m as [|[p|p|]|p]; cbn [shr_1 shr_r shr_s]; try lia; split; reflexivity.
Qed.

Lemma loc_of_record_of_loc (m : Z) (l : location) :
  loc_of_shr_record (shr_record_of_loc m l) = l
  /\ shr_m (shr_record_of_loc m l) = m.
Proof. destruct l as [|[]]; split; reflexivity. Qed.

Lemma loc_exact_bits (mrs : shr_record) :
  loc_of_shr_record mrs = loc_Exact <-> shr_r mrs || shr_s mrs = false.
Proof. destruct mrs as [m [] []]; cbn; split; congruence. Qed.

Lemma locate_step (N D : Z) (mrs : shr_record) :
  0 <= N -> 0 < D ->
  shr_m mrs = fst (locate N D) -> loc_of_shr_record mrs = snd (locate N D) ->
  shr_m (shr_1 mrs) = fst (locate N (D * 2))
  /\ loc_of_shr_record (shr_1 mrs) = snd (locate N (D * 2)).
Proof.
  intros HN HD Hm Hl. unfold locate in *. cbn [fst snd] in *.
  assert (Hq : 0 <= N / D) by (apply Z.div_pos; lia).
  pose proof (Z.mod_pos_bound N D HD) as Hrem.
  destruct (shr_1_bits mrs ltac:(lia)) as [Hr Hs].
  rewrite shr_1_m by lia. rewrite Hm, Z.div_div by lia. split; [reflexivity|].
  assert (Hmod2 : N mod (D * 2) = (N / D) mod 2 * D + N mod D).
  { rewrite Z.rem_mul_r by lia. lia. }
  pose proof (Z.mod_pos_bound (N / D) 2 ltac:(lia)) as Hb.
  assert (Hodd : Z.odd (N / D) = negb ((N / D) mod 2 =? 0)).
  { rewrite Zmod_odd. destruct (Z.odd (N / D)); reflexivity. }
  destruct (shr_1 mrs) as [m' r' s']. cbn [shr_r shr_s] in Hr, Hs.
  cbn [loc_of_shr_record]. rewrite Hm in Hr. rewrite Hr, Hs, Hodd. clear Hr Hs Hodd.
  assert (Hex : shr_r mrs || shr_s mrs = negb (N mod D =? 0)).
  { destruct (N mod D =? 0) eqn:E.
    - apply loc_exact_bits. exact Hl.
    - destruct (shr_r mrs || shr_s mrs) eqn:E'; [reflexivity|].
      apply loc_exact_bits in E'. congruence. }
  rewrite Hex, Hmod2.
  destruct ((N / D) mod 2 =? 0) eqn:E2; destruct (N mod D =? 0) eqn:E0;
    cbn [negb]; apply Z.eqb_eq in E2 || apply Z.eqb_neq in E2;
    apply Z.eqb_eq in E0 || apply Z.eqb_neq in E0.
  - rewrite E2, E0. reflexivity.
  - rewrite E2. cbn [Z.mul Z.add].
    replace (0 * D + N mod D =? 0) with false by (symmetry; apply Z.eqb_neq; lia).
    replace (2 * (0 * D + N mod D) ?= D * 2) with Lt
      by (symmetry; apply Z.compare_lt_iff; lia). reflexivity.
  - assert ((N / D) mod 2 = 1) as -> by lia. rewrite E0.
    replace (1 * D + 0 =? 0) with false by (symmetry; apply Z.eqb_neq; lia).
    replace (2 * (1 * D + 0) ?= D * 2) with Eq
      by (symmetry; apply Z.compare_eq_iff; lia). reflexivity.
  - assert ((N / D) mod 2 = 1) as -> by lia.
    replace (1 * D + N mod D =? 0) with false by (symmetry; apply Z.eqb_neq; lia).
    replace (2 * (1 * D + N mod D) ?= D * 2) with Gt
      by (symmetry; apply Z.compare_gt_iff; lia). reflexivity.
Qed.

(** Shifting a located quotient right by [p] bits locates the quotient by
    [D * 2^p]. *)
Lemma shr_locate (N D : Z) (p : positive) :
  0 <= N -> 0 < D ->
  let mrs := SpecFloat.iter_pos shr_1 p
               (shr_record_of_loc (fst (locate N D)) (snd (locate N D))) in
  shr_m mrs = fst (locate N (D * 2 ^ Zpos p))
  /\ loc_of_shr_record mrs = snd (locate N (D * 2 ^ Zpos p)).
Proof.
  intros HN HD.
  pose (R := fun (k : Z) (mrs : shr_record) =>
               shr_m mrs = fst (locate N (D * 2 ^ k))
               /\ loc_of_shr_record mrs = snd (locate N (D * 2 ^ k))).
  assert (H : R (0 + Zpos p)
                (SpecFloat.iter_pos shr_1 p
                   (shr_record_of_loc (fst (locate N D)) (snd (locate N D))))).
  { apply iter_pos_invariant; [|lia|].
    - intros k x Hk [Hm Hl]. unfold R.
      rewrite Z.pow_add_r, Z.pow_1_r, Z.mul_assoc by lia.
      apply locate_step; try assumption.
      apply Z.mul_pos_pos; [lia|apply Z.pow_pos_nonneg; lia].
    - unfold R. rewrite Z.pow_0_r, Z.mul_1_r.
      destruct (loc_of_record_of_loc (fst (locate N D)) (snd (locate N D))).
      split; assumption. }
  exact H.
Qed.

Lemma rne_locate (N D : Z) :
  0 < D ->
  round_nearest_even (fst (locate N D)) (snd (locate N D)) = rn N D.
Proof.
  intros HD. unfold locate, rn. cbn [fst snd].
  destruct (N mod D =? 0) eqn:E; cbn [round_nearest_even].
  - apply Z.eqb_eq in E. rewrite E.
    replace (2 * 0 ?= D) with Lt by (symmetry; apply Z.compare_lt_iff; lia).
    reflexivity.
  - destruct (2 * (N mod D) ?= D); reflexivity.
Qed.

(** The rounded quotient is within one half of the exact one; at a tie it is
    even. *)
Lemma rn_near (N D : Z) :
  0 < D ->
  2 * D * rn N D - D <= 2 * N <= 2 * D * rn N D + D
  /\ N / D <= rn N D <= N / D + 1
  /\ (N mod D = 0 -> rn N D = N / D)
  /\ ((2 * N = 2 * D * rn N D - D \/ 2 * N = 2 * D * rn N D + D) ->
      Z.even (rn N D) = true).
Proof.
  intros HD. unfold rn.
  pose proof (Z.mod_pos_bound N D HD) as Hrem.
  pose proof (Z.div_mod N D ltac:(lia)) as Hdm.
  set (q := N / D) in *. set (r := N mod D) in *.
  destruct (Z.compare_spec (2 * r) D) as [C|C|C].
  - destruct (Z.even q) eqn:Ev.
    + split; [nia|]. split; [nia|]. split; [intros; nia|]. intros; exact Ev.
    + split; [nia|]. split; [nia|]. split; [intros; nia|].
      intros _. rewrite Z.even_add, Ev. reflexivity.
  - split; [nia|]. split; [nia|]. split; [intros; nia|]. intros [H|H]; nia.
  - split; [nia|]. split; [nia|]. split; [intros; nia|]. intros [H|H]; nia.
Qed.

(** Rounding to nearest is monotone on quotients. *)
Lemma rn_mono (N D N' D' : Z) :
  0 < D -> 0 < D' -> N * D' <= N' * D -> rn N D <= rn N' D'.
Proof.
  intros HD HD' Hle.
  destruct (rn_near N D HD) as (Hn & _ & _ & He).
  destruct (rn_near N' D' HD') as (Hn' & _ & _ & He').
  destruct (Z_le_gt_dec (rn N D) (rn N' D')) as [|Hgt]; [assumption|exfalso].
  set (a := rn N D) in *. set (b := rn N' D') in *.
  assert (H1 : 2 * N * D' >= (2 * b + 1) * D * D') by nia.
  assert (H2 : 2 * N' * D <= (2 * b + 1) * D * D') by nia.
  assert (H3 : 2 * N * D' = (2 * b + 1) * D * D') by nia.
  assert (H4 : 2 * N' * D = (2 * b + 1) * D * D') by nia.
  assert (H5 : 2 * N = (2 * b + 1) * D) by nia.
  assert (H6 : 2 * N' = (2 * b + 1) * D') by nia.
  assert (H7 : a = b + 1) by nia.
  assert (Ea : Z.even a = true) by (apply He; left; nia).
  assert (Eb : Z.even b = true) by (apply He'; right; nia).
  rewrite H7, Z.even_add, Eb in Ea. discriminate.
Qed.

Lemma rn_upper (N D B : Z) : 0 < D -> N <= B * D -> rn N D <= B.
Proof.
  intros HD H. destruct (rn_near N D HD) as (_ & Hq & Hex & _).
  destruct (Z.eq_dec N (B * D)) as [->|Hne].
  - rewrite Hex by (apply Z.mod_mul; lia). rewrite Z.div_mul by lia. lia.
  - assert (N / D < B) by (apply Z.div_lt_upper_bound; lia). lia.
Qed.

Lemma rn_lower (N D B : Z) : 0 < D -> B * D <= N -> B <= rn N D.
Proof.
  intros HD H. destruct (rn_near N D HD) as (_ & Hq & _).
  assert (B <= N / D) by (apply Z.div_le_lower_bound; lia). lia.
Qed.

(** Binary digits of a non-negative integer. *)
Lemma Zdigits2_bounds (M : Z) :
  0 <= M ->
  0 <= Zdigits2 M /\ M < 2 ^ Zdigits2 M /\ (0 < M -> 2 ^ (Zdigits2 M - 1) <= M).
Proof.
  intros HM. destruct M as [|p|p]; cbn [Zdigits2]; [cbn; lia| |lia].
  pose proof (digits2_upper p). pose proof (digits2_lower p). lia.
Qed.

Lemma Zdigits2_unique (M k : Z) :
  2 ^ (k - 1) <= M < 2 ^ k -> 0 < M -> Zdigits2 M = k.
Proof.
  intros H HM. destruct (Zdigits2_bounds M ltac:(lia)) as (H0 & Hu & Hl).
  specialize (Hl HM).
  assert (0 < k).
  { destruct (Z_lt_le_dec 0 k); [assumption|].
    destruct (Z.eq_dec k 0) as [->|]; [cbn in H; lia|].
    rewrite (Z.pow_neg_r 2 k) in H by lia. lia. }
  assert (Zdigits2 M - 1 < k) by (apply (Z.pow_lt_mono_r_iff 2); lia).
  assert (k - 1 < Zdigits2 M) by (apply (Z.pow_lt_mono_r_iff 2); lia).
  lia.
Qed.

Lemma Zdigits2_mono (M M' : Z) : 0 <= M <= M' -> Zdigits2 M <= Zdigits2 M'.
Proof.
  intros H. destruct (Z.eq_dec M 0) as [->|].
  - destruct (Zdigits2_bounds M'); cbn; lia.
  - destruct (Zdigits2_bounds M ltac:(lia)) as (H0 & Hu & Hl).
    destruct (Zdigits2_bounds M' ltac:(lia)) as (H0' & Hu' & Hl').
    specialize (Hl ltac:(lia)).
    assert (Zdigits2 M - 1 < Zdigits2 M') by (apply (Z.pow_lt_mono_r_iff 2); lia).
    lia.
Qed.

(** The first shift of a rounding, on a located quotient. *)
Lemma shr_fexp_located (N D e : Z) :
  0 <= N -> 0 < D -> e <= fexp64 (Zdigits2 (N / D) + e) ->
  let E := fexp64 (Zdigits2 (N / D) + e) in
  let mrs_e := shr_fexp F64.prec F64.emax (fst (locate N D)) e (snd (locate N D)) in
  snd mrs_e = E
  /\ round_nearest_even (shr_m (fst mrs_e)) (loc_of_shr_record (fst mrs_e))
     = rn N (D * 2 ^ (E - e)).
Proof.
  intros HN HD He E. unfold shr_fexp, shr.
  change (fst (locate N D)) with (N / D). fold E.
  destruct (E - e) as [|p|p] eqn:En; [| |lia]; cbn [fst snd].
  - destruct (loc_of_record_of_loc (N / D) (snd (locate N D))) as [Hl Hm].
    rewrite Hl, Hm. split; [lia|].
    rewrite Z.pow_0_r, Z.mul_1_r. apply rne_locate. assumption.
  - destruct (shr_locate N D p HN HD) as [Hm Hl]. cbn zeta in Hm, Hl.
    change (fst (locate N D)) with (N / D) in Hm, Hl.
    rewrite Hm, Hl. split; [lia|].
    apply rne_locate. apply Z.mul_pos_pos; [lia|apply Z.pow_pos_nonneg; lia].
Qed.

(** The first rounding step on a located quotient. *)
Lemma round_located (N D e : Z) :
  0 <= N -> 0 < D -> e <= fexp64 (Zdigits2 (N / D) + e) ->
  let E := fexp64 (Zdigits2 (N / D) + e) in
  binary_round_aux F64.prec F64.emax false
    (fst (locate N D)) e (snd (locate N D))
  = finish (rn N (D * 2 ^ (E - e))) E.
Proof.
  intros HN HD He E. unfold binary_round_aux, finish.
  destruct (shr_fexp_located N D e HN HD He) as [HE HM]. fold E in HE, HM.
  destruct (shr_fexp F64.prec F64.emax (fst (locate N D)) e (snd (locate N D)))
    as [mrs1 e1].
  cbn [fst snd] in HE, HM. rewrite HM, HE.
  destruct (shr_fexp F64.prec F64.emax (rn N (D * 2 ^ (E - e))) E loc_Exact).
  reflexivity.
Qed.

Lemma finish_spec (M E : Z) :
  0 <= M ->
  let n := Z.max 0 (fexp64 (Zdigits2 M + E) - E) in
  finish M E =
  match M / 2 ^ n with
  | 0 => S754_zero false
  | Zpos m => if E + n <=? 971 then S754_finite false m (E + n)
              else S754_infinity false
  | Zneg _ => S754_nan
  end.
Proof.
  intros HM n. unfold finish.
  destruct (shr_fexp_spec M E HM) as (He & Hm & _). fold n in He, Hm.
  rewrite He, Hm. reflexivity.
Qed.

(** With the exponent at least the smallest one, a positive mantissa is
    not shifted away. *)
Lemma finish_shift (M E : Z) :
  0 < M -> -1074 <= E ->
  let n := Z.max 0 (fexp64 (Zdigits2 M + E) - E) in
  0 < M / 2 ^ n.
Proof.
  intros HM HE n.
  destruct (Zdigits2_bounds M ltac:(lia)) as (H0 & Hu & Hl). specialize (Hl HM).
  assert (Hd : 1 <= Zdigits2 M).
  { destruct (Z_lt_le_dec 0 (Zdigits2 M)); [lia|].
    assert (Zdigits2 M = 0) as E0 by lia. rewrite E0 in Hu. cbn in Hu. lia. }
  assert (Hn : 0 <= n <= Zdigits2 M - 1) by (unfold n; rewrite fexp64_eq; lia).
  assert (2 ^ n <= 2 ^ (Zdigits2 M - 1)) by (apply Z.pow_le_mono_r; lia).
  apply Z.div_str_pos. split; [apply pow2_pos|]; lia.
Qed.

Lemma finish_nonneg (M E : Z) :
  0 <= M ->
  match finish M E with
  | S754_zero false | S754_infinity false | S754_finite false _ _ => True
  | _ => False
  end.
Proof.
  intros HM. rewrite finish_spec by assumption.
  set (n := Z.max 0 _).
  assert (0 <= M / 2 ^ n) by (apply Z.div_pos; [lia|apply pow2_pos; unfold n; lia]).
  destruct (M / 2 ^ n); [exact I| |lia].
  destruct (_ <=? _); exact I.
Qed.

(** The second rounding step is monotone in the mantissa. *)
Lemma finish_mono (M M' E : Z) :
  0 <= M <= M' -> -1074 <= E ->
  F64.leb (finish M E) (finish M' E) = true.
Proof.
  intros HM HE.
  pose proof (finish_nonneg M' E ltac:(lia)) as Hnn'.
  rewrite (finish_spec M) by lia. rewrite (finish_spec M') in * by lia.
  pose proof (Zdigits2_mono M M' HM) as Hd.
  set (n := Z.max 0 (fexp64 (Zdigits2 M + E) - E)).
  set (n' := Z.max 0 (fexp64 (Zdigits2 M' + E) - E)) in *.
  assert (Hn : 0 <= n <= n') by (unfold n, n'; rewrite !fexp64_eq; lia).
  pose proof (pow2_pos n ltac:(lia)) as Hp.
  assert (Hq : 0 <= M / 2 ^ n) by (apply Z.div_pos; lia).
  destruct (M / 2 ^ n) as [|m|m] eqn:Em; [|clear Hnn'|lia].
  - destruct (M' / 2 ^ n') as [|m'|m']; [reflexivity| |contradiction].
    destruct (_ <=? _); reflexivity.
  - assert (HMpos : 0 < M).
    { destruct (Z.eq_dec M 0) as [E0|]; [|lia].
      rewrite E0, Z.div_0_l in Em by lia. discriminate. }
    pose proof (finish_shift M' E ltac:(lia) HE) as Hq'. cbn zeta in Hq'.
    fold n' in Hq'.
    destruct (M' / 2 ^ n') as [|m'|m'] eqn:Em'; [lia| |lia].
    destruct (Z.eq_dec n n') as [Enn|Hne].
    + rewrite <- Enn in *.
      assert (Zpos m <= Zpos m').
      { rewrite <- Em, <- Em'. apply Z.div_le_mono; lia. }
      destruct (E + n <=? 971); [|reflexivity].
      unfold F64.leb, SFleb. cbn [SFcompare]. rewrite Z.compare_refl.
      change (Pos.compare_cont Eq m m') with (Pos.compare m m').
      destruct (Pos.compare_spec m m'); try reflexivity. lia.
    + destruct (E + n' <=? 971) eqn:L'.
      * apply Z.leb_le in L'.
        replace (E + n <=? 971) with true by (symmetry; apply Z.leb_le; lia).
        unfold F64.leb, SFleb. cbn [SFcompare].
        replace (E + n ?= E + n') with Lt
          by (symmetry; apply Z.compare_lt_iff; lia). reflexivity.
      * destruct (E + n <=? 971); reflexivity.
Qed.

(** A mantissa that already is the one of an encoding is kept. *)
Lemma finish_exact (K : positive) (eK E : Z) :
  fexp64 (Zpos (digits2_pos K) + eK) = eK -> E <= eK -> eK <= 971 ->
  finish (Zpos K * 2 ^ (eK - E)) E = S754_finite false K eK.
Proof.
  intros HK HE Hmax.
  pose proof (pow2_pos (eK - E) ltac:(lia)) as Hp.
  rewrite finish_spec by lia.
  assert (Hd : Zdigits2 (Zpos K * 2 ^ (eK - E)) = Zpos (digits2_pos K) + (eK - E)).
  { apply Zdigits2_unique; [|lia].
    pose proof (digits2_lower K). pose proof (digits2_upper K).
    replace (Zpos (digits2_pos K) + (eK - E) - 1)
      with (Zpos (digits2_pos K) - 1 + (eK - E)) by lia.
    rewrite !Z.pow_add_r by lia. nia. }
  rewrite Hd. replace (Zpos (digits2_pos K) + (eK - E) + E)
    with (Zpos (digits2_pos K) + eK) by lia.
  rewrite HK. rewrite Z.max_r by lia.
  rewrite Z.div_mul by lia.
  replace (E + (eK - E)) with eK by lia.
  replace (eK <=? 971) with true by (symmetry; apply Z.leb_le; lia).
  reflexivity.
Qed.

Lemma finish_overflow (M E : Z) :
  0 < M -> 971 < E -> finish M E = S754_infinity false.
Proof.
  intros HM HE. rewrite finish_spec by lia.
  pose proof (finish_shift M E HM ltac:(lia)) as Hq. cbn zeta in Hq.
  set (n := Z.max 0 _) in *.
  destruct (M / 2 ^ n); try lia.
  replace (E + n <=? 971) with false by (symmetry; apply Z.leb_gt; lia).
  reflexivity.
Qed.

(** A rounded mantissa of at most 53 digits, normal or at the smallest
    exponent, ends as an encoding. *)
Lemma finish_valid (M E : Z) :
  0 <= M <= 2 ^ 53 -> -1074 <= E -> (E = -1074 \/ 2 ^ 52 <= M) ->
  nonNegative (finish M E).
Proof.
  intros HM HE Hcase. rewrite finish_spec by lia.
  destruct (Z.eq_dec M (2 ^ 53)) as [->|Hne].
  - change (Zdigits2 (2 ^ 53)) with 54. rewrite fexp64_eq.
    replace (Z.max 0 (Z.max (54 + E - 53) (-1074) - E)) with 1 by lia.
    change (2 ^ 53 / 2 ^ 1) with (Zpos 4503599627370496).
    destruct (E + 1 <=? 971) eqn:L; [|exact I].
    cbn [nonNegative]. unfold valid_binary, bounded, canonical_mantissa.
    change (Zpos (digits2_pos 4503599627370496)) with 53.
    rewrite fexp64_eq. apply andb_true_intro. split; [apply Z.eqb_eq; lia|].
    exact L.
  - destruct (Zdigits2_bounds M ltac:(lia)) as (H0 & Hu & Hl).
    assert (Hd : Zdigits2 M <= 53).
    { destruct (Z.eq_dec M 0) as [->|]; [cbn; lia|].
      specialize (Hl ltac:(lia)).
      assert (Zdigits2 M - 1 < 53) by (apply (Z.pow_lt_mono_r_iff 2); lia). lia. }
    rewrite fexp64_eq. rewrite Z.max_l by lia.
    rewrite Z.pow_0_r, Z.div_1_r, Z.add_0_r.
    destruct M as [|m|m]; [exact I| |lia].
    destruct (E <=? 971) eqn:L; [|exact I].
    cbn [nonNegative]. unfold valid_binary, bounded, canonical_mantissa.
    cbn [Zdigits2] in Hd, Hl. rewrite fexp64_eq.
    apply andb_true_intro. split; [apply Z.eqb_eq|exact L].
    destruct Hcase as [->|H52]; [lia|].
    assert (52 < Zpos (digits2_pos m)).
    { apply (Z.pow_lt_mono_r_iff 2); try lia. pose proof (digits2_upper m). lia. }
    lia.
Qed.

Lemma quotient_bounds (N D : Z) :
  0 <= N -> 0 < D ->
  0 <= N / D /\ N / D * D <= N < (N / D + 1) * D.
Proof.
  intros HN HD. pose proof (Z.div_mod N D ltac:(lia)).
  pose proof (Z.mod_pos_bound N D HD).
  split; [apply Z.div_pos; lia|nia].
Qed.

(** A quotient without integer part sits at the smallest exponent. *)
Lemma located_exponent (q e : Z) :
  0 <= q -> e <= fexp64 (Zdigits2 q + e) ->
  -1074 <= fexp64 (Zdigits2 q + e)
  /\ (fexp64 (Zdigits2 q + e) = -1074
      \/ (0 < q /\ fexp64 (Zdigits2 q + e) = Zdigits2 q + e - 53)).
Proof.
  intros Hq He. rewrite fexp64_eq in *. split; [lia|].
  destruct (Z.eq_dec q 0) as [->|]; [cbn [Zdigits2] in *; lia|lia].
Qed.

Lemma round_located_valid (N D e : Z) :
  0 <= N -> 0 < D -> e <= fexp64 (Zdigits2 (N / D) + e) ->
  nonNegative (binary_round_aux F64.prec F64.emax false
                 (fst (locate N D)) e (snd (locate N D))).
Proof.
  intros HN HD He. rewrite round_located by assumption.
  destruct (quotient_bounds N D HN HD) as (Hq0 & Hql & Hqu).
  destruct (located_exponent (N / D) e Hq0 He) as [HE Hcase].
  destruct (Zdigits2_bounds (N / D) Hq0) as (Hd0 & Hdu & Hdl).
  set (q := N / D) in *. set (E := fexp64 (Zdigits2 q + e)) in *.
  pose proof (pow2_pos (E - e) ltac:(lia)) as Hp.
  assert (HDp : 0 < D * 2 ^ (E - e)) by (apply Z.mul_pos_pos; lia).
  assert (Hup : Zdigits2 q <= 53 + (E - e)) by (unfold E; rewrite fexp64_eq; lia).
  assert (Hpow : 2 ^ Zdigits2 q <= 2 ^ 53 * 2 ^ (E - e)).
  { rewrite <- Z.pow_add_r by lia. apply Z.pow_le_mono_r; lia. }
  apply finish_valid; [split| |].
  - apply rn_lower; lia.
  - apply rn_upper; [assumption|]. nia.
  - assumption.
  - destruct Hcase as [?|[Hqpos HEn]]; [left; assumption|right].
    apply rn_lower; [assumption|]. specialize (Hdl Hqpos).
    assert (Hsp : 2 ^ (Zdigits2 q - 1) = 2 ^ 52 * 2 ^ (E - e)).
    { rewrite <- Z.pow_add_r by lia. f_equal. lia. }
    nia.
Qed.

(** Rounding is monotone: of two located quotients, scaled by their
    exponents, the smaller rounds to the smaller float. *)
Lemma round_located_mono (N D e N' D' e' b : Z) :
  0 <= N -> 0 < D -> 0 <= N' -> 0 < D' ->
  e <= fexp64 (Zdigits2 (N / D) + e) ->
  e' <= fexp64 (Zdigits2 (N' / D') + e') ->
  b <= e -> b <= e' ->
  N * 2 ^ (e - b) * D' <= N' * 2 ^ (e' - b) * D ->
  F64.leb
    (binary_round_aux F64.prec F64.emax false
       (fst (locate N D)) e (snd (locate N D)))
    (binary_round_aux F64.prec F64.emax false
       (fst (locate N' D')) e' (snd (locate N' D'))) = true.
Proof.
  intros HN HD HN' HD' He He' Hb Hb' Hle.
  rewrite !round_located by assumption.
  destruct (quotient_bounds N D HN HD) as (Hq0 & Hql & Hqu).
  destruct (quotient_bounds N' D' HN' HD') as (Hq0' & Hql' & Hqu').
  destruct (located_exponent (N / D) e Hq0 He) as [HE Hcase].
  destruct (located_exponent (N' / D') e' Hq0' He') as [HE' Hcase'].
  destruct (Zdigits2_bounds (N / D) Hq0) as (Hd0 & Hdu & Hdl).
  destruct (Zdigits2_bounds (N' / D') Hq0') as (Hd0' & Hdu' & Hdl').
  set (q := N / D) in *. set (q' := N' / D') in *.
  set (E := fexp64 (Zdigits2 q + e)) in *.
  set (E' := fexp64 (Zdigits2 q' + e')) in *.
  pose proof (pow2_pos (e - b) ltac:(lia)) as HP.
  pose proof (pow2_pos (e' - b) ltac:(lia)) as HP'.
  pose proof (pow2_pos (E - e) ltac:(lia)) as HQ.
  pose proof (pow2_pos (E' - e') ltac:(lia)) as HQ'.
  assert (HDQ : 0 < D * 2 ^ (E - e)) by (apply Z.mul_pos_pos; lia).
  assert (HDQ' : 0 < D' * 2 ^ (E' - e')) by (apply Z.mul_pos_pos; lia).
  assert (Hmag : 0 < q -> Zdigits2 q + e <= Zdigits2 q' + e').
  { intros Hqpos. specialize (Hdl Hqpos).
    assert (H1 : q * 2 ^ (e - b) < (q' + 1) * 2 ^ (e' - b)).
    { assert (A1 : q * D * (2 ^ (e - b) * D') <= N * (2 ^ (e - b) * D'))
        by (apply Z.mul_le_mono_nonneg_r; [apply Z.mul_nonneg_nonneg|]; lia).
      assert (A2 : N' * (2 ^ (e' - b) * D) < (q' + 1) * D' * (2 ^ (e' - b) * D))
        by (apply Z.mul_lt_mono_pos_r; [apply Z.mul_pos_pos|]; lia).
      apply Z.mul_lt_mono_pos_r with (p := D * D'); [apply Z.mul_pos_pos; lia|].
      lia. }
    assert (Hd1 : 1 <= Zdigits2 q).
    { destruct (Z.eq_dec (Zdigits2 q) 0) as [E0|]; [|lia].
      rewrite E0 in Hdu. cbn in Hdu. lia. }
    assert (H2 : 2 ^ (Zdigits2 q - 1 + (e - b)) < 2 ^ (Zdigits2 q' + (e' - b))).
    { rewrite !Z.pow_add_r by lia.
      assert (B1 : 2 ^ (Zdigits2 q - 1) * 2 ^ (e - b) <= q * 2 ^ (e - b))
        by (apply Z.mul_le_mono_nonneg_r; lia).
      assert (B2 : (q' + 1) * 2 ^ (e' - b) <= 2 ^ Zdigits2 q' * 2 ^ (e' - b))
        by (apply Z.mul_le_mono_nonneg_r; lia).
      lia. }
    apply Z.pow_lt_mono_r_iff in H2; lia. }
  assert (HEE : E <= E').
  { destruct Hcase as [->|[Hqpos ->]]; [lia|].
    specialize (Hmag Hqpos). unfold E'. rewrite fexp64_eq. lia. }
  destruct (Z.eq_dec E E') as [Eq|Hne].
  - rewrite <- Eq in *. apply finish_mono; [split|assumption].
    + apply rn_lower; lia.
    + apply rn_mono; try assumption.
      set (T := 2 ^ (E - b)).
      assert (HT : 0 < T) by (apply pow2_pos; lia).
      assert (HT1 : 2 ^ (e - b) * 2 ^ (E - e) = T)
        by (unfold T; rewrite <- Z.pow_add_r by lia; f_equal; lia).
      assert (HT2 : 2 ^ (e' - b) * 2 ^ (E - e') = T)
        by (unfold T; rewrite <- Z.pow_add_r by lia; f_equal; lia).
      apply Z.mul_le_mono_pos_r with (p := T); [assumption|].
      replace (N * (D' * 2 ^ (E - e')) * T)
        with (N * 2 ^ (e - b) * D' * (2 ^ (E - e) * 2 ^ (E - e')))
        by (rewrite <- HT1; ring).
      replace (N' * (D * 2 ^ (E - e)) * T)
        with (N' * 2 ^ (e' - b) * D * (2 ^ (E - e) * 2 ^ (E - e')))
        by (rewrite <- HT2; ring).
      apply Z.mul_le_mono_nonneg_r; [nia|assumption].
  - assert (Hq'pos : 0 < q' /\ E' = Zdigits2 q' + e' - 53)
      by (destruct Hcase' as [?|?]; [lia|assumption]).
    destruct Hq'pos as [Hq'pos HE'n]. specialize (Hdl' Hq'pos).
    assert (Hlt : Zdigits2 q + e < Zdigits2 q' + e')
      by (unfold E in HEE, Hne; rewrite fexp64_eq in HEE, Hne; lia).
    assert (HM' : 2 ^ 52 <= rn N' (D' * 2 ^ (E' - e'))).
    { apply rn_lower; [assumption|].
      assert (Hsp : 2 ^ (Zdigits2 q' - 1) = 2 ^ 52 * 2 ^ (E' - e')).
      { rewrite <- Z.pow_add_r by lia. f_equal. lia. }
      nia. }
    pose proof (finish_nonneg (rn N (D * 2 ^ (E - e))) E
                  ltac:(apply rn_lower; lia)) as Hnn.
    destruct (Z_lt_le_dec 971 E') as [Hov|Hmax].
    + rewrite (finish_overflow _ E') by lia.
      destruct (finish _ E) as [[]|[]| |[] m1 e1]; try contradiction; reflexivity.
    + apply leb_trans with (b := S754_finite false 4503599627370496 E').
      * rewrite <- (finish_exact 4503599627370496 E' E); try lia;
          [|rewrite fexp64_eq; change (Zpos (digits2_pos 4503599627370496)) with 53; lia].
        apply finish_mono; [split|assumption].
        -- apply rn_lower; lia.
        -- apply rn_upper; [assumption|].
           assert (Hpw : 2 ^ Zdigits2 q <= 2 ^ 52 * 2 ^ (E' - E) * 2 ^ (E - e)).
           { rewrite <- !Z.pow_add_r by lia. apply Z.pow_le_mono_r; lia. }
           change (Zpos 4503599627370496) with (2 ^ 52). nia.
      * rewrite <- (finish_exact 4503599627370496 E' E'); try lia;
          [|rewrite fexp64_eq; change (Zpos (digits2_pos 4503599627370496)) with 53; lia].
        rewrite Z.sub_diag, Z.pow_0_r, Z.mul_1_r.
        apply finish_mono; [|assumption].
        change (Zpos 4503599627370496) with (2 ^ 52). lia.
Qed.

End Located.

Section Operations.

Lemma nonNegative_shape (r : float64) :
  nonNegative r ->
  match r with
  | S754_zero false | S754_infinity false | S754_finite false _ _ => True
  | _ => False
  end.
Proof. destruct r as [[]|[]| |[] m e]; cbn; tauto. Qed.

Lemma leb_opp (a b : float64) :
  nonNegative a -> nonNegative b ->
  F64.leb (SFopp a) (SFopp b) = F64.leb b a.
Proof.
  intros Ha Hb. apply nonNegative_shape in Ha, Hb.
  unfold F64.leb, SFleb.
  destruct a as [[]|[]| |[] ma ea], b as [[]|[]| |[] mb eb];
    try contradiction; cbn [SFopp negb SFcompare]; try reflexivity.
  rewrite (Z.compare_antisym ea eb).
  change (Pos.compare_cont Eq ma mb) with (Pos.compare ma mb).
  change (Pos.compare_cont Eq mb ma) with (Pos.compare mb ma).
  rewrite (Pos.compare_antisym ma mb).
  destruct (ea ?= eb); cbn [CompOpp]; reflexivity.
Qed.

Lemma leb_opp_nonneg (a b : float64) :
  nonNegative a -> nonNegative b -> F64.leb (SFopp a) b = true.
Proof.
  intros Ha Hb. apply nonNegative_shape in Ha, Hb.
  destruct a as [[]|[]| |[] ma ea], b as [[]|[]| |[] mb eb];
    try contradiction; reflexivity.
Qed.

Lemma leb_zero_nonneg (b : float64) :
  nonNegative b -> F64.leb (S754_zero false) b = true.
Proof.
  intros Hb. apply nonNegative_shape in Hb.
  destruct b as [[]|[]| |[] mb eb]; try contradiction; reflexivity.
Qed.

(** Rounding a negative integer mirrors the rounding of its opposite. *)
Lemma binary_round_opp (m : positive) (e : Z) :
  binary_round F64.prec F64.emax true m e
  = SFopp (binary_round F64.prec F64.emax false m e).
Proof.
  unfold binary_round. destruct (shl_align m e _) as [mz ez].
  unfold binary_round_aux.
  destruct (shr_fexp _ _ (Zpos mz) ez loc_Exact) as [mrs1 e1].
  destruct (shr_fexp _ _ _ e1 loc_Exact) as [mrs2 e2].
  destruct (shr_m mrs2); [reflexivity| |reflexivity].
  destruct (e2 <=? _); reflexivity.
Qed.

(** The rounding of an exact positive integer, as a located quotient. *)
Lemma binary_round_located (D : positive) (ez : Z) :
  let e0 := Z.min ez (fexp64 (Zpos (digits2_pos D) + ez)) in
  let N := Zpos D * 2 ^ (ez - e0) in
  binary_round F64.prec F64.emax false D ez
  = binary_round_aux F64.prec F64.emax false
      (fst (locate N 1)) e0 (snd (locate N 1))
  /\ e0 <= fexp64 (Zdigits2 (N / 1) + e0).
Proof.
  intros e0 N. unfold binary_round.
  destruct (shl_align_spec D ez (fexp64 (Zpos (digits2_pos D) + ez))) as [Hs Hm].
  destruct (shl_align D ez _) as [mz e1]. cbn [fst snd] in Hs, Hm.
  fold e0 in Hs, Hm. fold N in Hm. subst e1.
  unfold locate. rewrite Z.mod_1_r, Z.div_1_r. cbn [fst snd Z.eqb].
  rewrite Hm. split; [reflexivity|].
  assert (Hd : Zdigits2 N = Zpos (digits2_pos D) + (ez - e0)).
  { pose proof (pow2_pos (ez - e0) ltac:(lia)).
    apply Zdigits2_unique; [|unfold N; lia].
    pose proof (digits2_lower D). pose proof (digits2_upper D).
    replace (Zpos (digits2_pos D) + (ez - e0) - 1)
      with (Zpos (digits2_pos D) - 1 + (ez - e0)) by lia.
    unfold N. rewrite !Z.pow_add_r by lia. nia. }
  rewrite Hd. replace (Zpos (digits2_pos D) + (ez - e0) + e0)
    with (Zpos (digits2_pos D) + ez) by lia.
  lia.
Qed.

Lemma binary_round_valid (D : positive) (ez : Z) :
  nonNegative (binary_round F64.prec F64.emax false D ez).
Proof.
  destruct (binary_round_located D ez) as [-> He].
  apply round_located_valid; lia.
Qed.

(** The order of two scaled integers does not depend on the scale. *)
Lemma scale_order (A A' e e' b c : Z) :
  b <= e -> b <= e' -> c <= e -> c <= e' ->
  A * 2 ^ (e - b) <= A' * 2 ^ (e' - b) ->
  A * 2 ^ (e - c) <= A' * 2 ^ (e' - c).
Proof.
  intros Hb Hb' Hc Hc' H.
  set (l := Z.min b c).
  assert (Hl : A * 2 ^ (e - l) <= A' * 2 ^ (e' - l)).
  { rewrite (pow2_split l b e), (pow2_split l b e') by lia.
    pose proof (pow2_pos (b - l) ltac:(lia)). nia. }
  rewrite (pow2_split l c e), (pow2_split l c e') in Hl by lia.
  pose proof (pow2_pos (c - l) ltac:(lia)). nia.
Qed.

Lemma binary_round_mono (D D' : positive) (ez ez' b : Z) :
  b <= ez -> b <= ez' ->
  Zpos D * 2 ^ (ez - b) <= Zpos D' * 2 ^ (ez' - b) ->
  F64.leb (binary_round F64.prec F64.emax false D ez)
          (binary_round F64.prec F64.emax false D' ez') = true.
Proof.
  intros Hb Hb' Hle.
  destruct (binary_round_located D ez) as [-> He].
  destruct (binary_round_located D' ez') as [-> He'].
  set (e0 := Z.min ez (fexp64 (Zpos (digits2_pos D) + ez))) in *.
  set (e0' := Z.min ez' (fexp64 (Zpos (digits2_pos D') + ez'))) in *.
  set (c := Z.min b (Z.min e0 e0')).
  pose proof (pow2_pos (ez - e0) ltac:(lia)).
  pose proof (pow2_pos (ez' - e0') ltac:(lia)).
  apply round_located_mono with (b := c); try lia; try assumption.
  rewrite !Z.mul_1_r, <- !Z.mul_assoc, <- !Z.pow_add_r by lia.
  replace (ez - e0 + (e0 - c)) with (ez - c) by lia.
  replace (ez' - e0' + (e0' - c)) with (ez' - c) by lia.
  apply scale_order with (b := b); lia.
Qed.

(** Normalization is monotone on scaled integers of any sign. *)
Lemma normalize_order (D D' ez ez' b : Z) :
  b <= ez -> b <= ez' ->
  D * 2 ^ (ez - b) <= D' * 2 ^ (ez' - b) ->
  F64.leb (binary_normalize F64.prec F64.emax D ez false)
          (binary_normalize F64.prec F64.emax D' ez' false) = true.
Proof.
  intros Hb Hb' Hle.
  pose proof (pow2_pos (ez - b) ltac:(lia)) as HP.
  pose proof (pow2_pos (ez' - b) ltac:(lia)) as HP'.
  destruct D as [|p|p], D' as [|p'|p']; cbn [binary_normalize]; try nia.
  - reflexivity.
  - apply leb_zero_nonneg, binary_round_valid.
  - apply binary_round_mono with (b := b); assumption.
  - rewrite binary_round_opp.
    apply (leb_opp_nonneg _ (S754_zero false)); [apply binary_round_valid|exact I].
  - rewrite binary_round_opp. apply leb_opp_nonneg; apply binary_round_valid.
  - rewrite !binary_round_opp, leb_opp by apply binary_round_valid.
    apply binary_round_mono with (b := b); try assumption. nia.
Qed.

Lemma normalize_nonneg (D ez : Z) :
  0 <= D -> nonNegative (binary_normalize F64.prec F64.emax D ez false).
Proof.
  intros HD. destruct D as [|p|p]; [exact I|apply binary_round_valid|lia].
Qed.

(** The order of two positive numbers in their encoding, on any scale. *)
Lemma valid_order_at (mu mt : positive) (eu et b : Z) :
  valid64 (S754_finite false mu eu) = true ->
  valid64 (S754_finite false mt et) = true ->
  F64.leb (S754_finite false mu eu) (S754_finite false mt et) = true ->
  b <= eu -> b <= et ->
  Zpos mu * 2 ^ (eu - b) <= Zpos mt * 2 ^ (et - b).
Proof.
  intros Vu Vt Hle Hb Hb'.
  pose proof (valid_order mu mt eu et Vu Vt Hle) as H.
  apply scale_order with (b := Z.min et eu); lia.
Qed.

Lemma sub_aligned (ma mr : positive) (ea er : Z) :
  F64.sub (S754_finite false ma ea) (S754_finite false mr er)
  = binary_normalize F64.prec F64.emax
      (Zpos ma * 2 ^ (ea - Z.min ea er) - Zpos mr * 2 ^ (er - Z.min ea er))
      (Z.min ea er) false.
Proof.
  unfold F64.sub, SFsub. cbn [cond_Zopp].
  destruct (shl_align_spec ma ea (Z.min ea er)) as [_ HA].
  destruct (shl_align_spec mr er (Z.min ea er)) as [_ HR].
  rewrite (Z.min_r ea (Z.min ea er)) in HA by lia.
  rewrite (Z.min_r er (Z.min ea er)) in HR by lia.
  rewrite HA, HR. reflexivity.
Qed.

(** Subtraction is monotone in the minuend. *)
Lemma sub_mono_left (ma ma' mr : positive) (ea ea' er : Z) :
  valid64 (S754_finite false ma ea) = true ->
  valid64 (S754_finite false ma' ea') = true ->
  F64.leb (S754_finite false ma ea) (S754_finite false ma' ea') = true ->
  F64.leb (F64.sub (S754_finite false ma ea) (S754_finite false mr er))
          (F64.sub (S754_finite false ma' ea') (S754_finite false mr er)) = true.
Proof.
  intros Va Va' Hle. rewrite !sub_aligned.
  set (b := Z.min (Z.min ea er) (Z.min ea' er)).
  apply normalize_order with (b := b); try (unfold b; lia).
  rewrite !Z.mul_sub_distr_r, <- !Z.mul_assoc, <- !Z.pow_add_r by (unfold b; lia).
  replace (ea - Z.min ea er + (Z.min ea er - b)) with (ea - b) by lia.
  replace (er - Z.min ea er + (Z.min ea er - b)) with (er - b) by lia.
  replace (ea' - Z.min ea' er + (Z.min ea' er - b)) with (ea' - b) by lia.
  replace (er - Z.min ea' er + (Z.min ea' er - b)) with (er - b) by lia.
  pose proof (valid_order_at ma ma' ea ea' b Va Va' Hle
                ltac:(unfold b; lia) ltac:(unfold b; lia)).
  lia.
Qed.

(** Subtraction is antitone in the subtrahend. *)
Lemma sub_mono_right (mc my my' : positive) (ec ey ey' : Z) :
  valid64 (S754_finite false my ey) = true ->
  valid64 (S754_finite false my' ey') = true ->
  F64.leb (S754_finite false my ey) (S754_finite false my' ey') = true ->
  F64.leb (F64.sub (S754_finite false mc ec) (S754_finite false my' ey'))
          (F64.sub (S754_finite false mc ec) (S754_finite false my ey)) = true.
Proof.
  intros Vy Vy' Hle. rewrite !sub_aligned.
  set (b := Z.min (Z.min ec ey) (Z.min ec ey')).
  apply normalize_order with (b := b); try (unfold b; lia).
  rewrite !Z.mul_sub_distr_r, <- !Z.mul_assoc, <- !Z.pow_add_r by (unfold b; lia).
  replace (ec - Z.min ec ey + (Z.min ec ey - b)) with (ec - b) by lia.
  replace (ey - Z.min ec ey + (Z.min ec ey - b)) with (ey - b) by lia.
  replace (ec - Z.min ec ey' + (Z.min ec ey' - b)) with (ec - b) by lia.
  replace (ey' - Z.min ec ey' + (Z.min ec ey' - b)) with (ey' - b) by lia.
  pose proof (valid_order_at my my' ey ey' b Vy Vy' Hle
                ltac:(unfold b; lia) ltac:(unfold b; lia)).
  lia.
Qed.

Lemma new_location_locate (N D : Z) :
  0 < D -> new_location D (N mod D) = snd (locate N D).
Proof.
  intros HD. unfold new_location, new_location_even, new_location_odd, locate.
  cbn [snd]. pose proof (Z.mod_pos_bound N D HD) as Hr.
  destruct (Z.even D) eqn:Ev; [reflexivity|].
  destruct (N mod D =? 0); [reflexivity|]. f_equal.
  assert (Hodd : Z.odd D = true) by (rewrite <- Z.negb_even, Ev; reflexivity).
  apply Z.odd_spec in Hodd as [k Hk].
  destruct (Z.compare_spec (2 * (N mod D) + 1) D);
    destruct (Z.compare_spec (2 * (N mod D)) D); try reflexivity; lia.
Qed.

(** The quotient of two positive numbers, as a located quotient. *)
Lemma div_located (mx mt : positive) (ex et : Z) :
  let e' := Z.min (fexp64 (Zpos (digits2_pos mx) + ex - (Zpos (digits2_pos mt) + et)))
                  (ex - et) in
  let N := Zpos mx * 2 ^ (ex - et - e') in
  F64.div (S754_finite false mx ex) (S754_finite false mt et)
  = binary_round_aux F64.prec F64.emax false
      (fst (locate N (Zpos mt))) e' (snd (locate N (Zpos mt)))
  /\ e' <= fexp64 (Zdigits2 (N / Zpos mt) + e').
Proof.
  intros e' N. split.
  - unfold F64.div, SFdiv, SFdiv_core_binary. cbn [xorb Zdigits2]. fold e'.
    assert (Hm : match ex - et - e' with
                 | 0 => Zpos mx
                 | Zpos _ => Z.shiftl (Zpos mx) (ex - et - e')
                 | Zneg _ => 0
                 end = N).
    { unfold N. destruct (ex - et - e') as [|s|s] eqn:Es.
      - cbn. lia.
      - rewrite Z.shiftl_mul_pow2 by lia. reflexivity.
      - unfold e' in Es. lia. }
    rewrite Hm.
    destruct (Z.div_eucl N (Zpos mt)) as [q r] eqn:Hde.
    assert (Hq : q = N / Zpos mt) by (unfold Z.div; rewrite Hde; reflexivity).
    assert (Hr : r = N mod Zpos mt) by (unfold Z.modulo; rewrite Hde; reflexivity).
    rewrite Hr, new_location_locate, Hq by lia. reflexivity.
  - set (s := ex - et - e').
    assert (Hs : 0 <= s) by (unfold s, e'; lia).
    pose proof (pow2_pos s Hs) as Hps.
    assert (HN : 0 <= N) by (unfold N; fold s; lia).
    destruct (quotient_bounds N (Zpos mt) HN ltac:(lia)) as (Hq0 & Hql & Hqu).
    destruct (Zdigits2_bounds (N / Zpos mt) Hq0) as (Hd0 & Hdu & Hdl).
    set (q := N / Zpos mt) in *.
    pose proof (digits2_lower mx) as Hxl. pose proof (digits2_upper mt) as Htu.
    set (dx := Zpos (digits2_pos mx)) in *. set (dt := Zpos (digits2_pos mt)) in *.
    assert (Hdx : 1 <= dx) by (unfold dx; lia).
    assert (Hdt : 1 <= dt) by (unfold dt; lia).
    (* the quotient has at least dx + s - dt digits *)
    assert (Hmag : dx + s - dt <= Zdigits2 q).
    { destruct (Z_le_gt_dec (dx + s - dt) (Zdigits2 q)) as [|Hgt]; [assumption|exfalso].
      assert (H1 : 2 ^ (dx - 1) * 2 ^ s <= N)
        by (unfold N; fold s; apply Z.mul_le_mono_nonneg_r; lia).
      assert (H2 : (q + 1) * Zpos mt <= 2 ^ Zdigits2 q * 2 ^ dt).
      { pose proof (pow2_pos (Zdigits2 q) Hd0). pose proof (pow2_pos dt ltac:(lia)).
        apply Z.mul_le_mono_nonneg; lia. }
      rewrite <- Z.pow_add_r in H1, H2 by lia.
      assert (H3 : 2 ^ (Zdigits2 q + dt) <= 2 ^ (dx - 1 + s))
        by (apply Z.pow_le_mono_r; lia).
      lia. }
    assert (He' : e' = Z.min (Z.max (dx + ex - (dt + et) - 53) (-1074)) (ex - et))
      by reflexivity.
    assert (Hsd : s = ex - et - e') by reflexivity.
    rewrite fexp64_eq.
    destruct (Z.eq_dec q 0) as [E0|Hq].
    + rewrite E0 in Hmag. cbn [Zdigits2] in Hmag. lia.
    + lia.
Qed.

(** Division by a positive number is monotone on non-negative numbers. *)
Lemma div_mono_finite (mx mx' mt : positive) (ex ex' et : Z) :
  valid64 (S754_finite false mx ex) = true ->
  valid64 (S754_finite false mx' ex') = true ->
  F64.leb (S754_finite false mx ex) (S754_finite false mx' ex') = true ->
  F64.leb (F64.div (S754_finite false mx ex) (S754_finite false mt et))
          (F64.div (S754_finite false mx' ex') (S754_finite false mt et)) = true.
Proof.
  intros Vx Vx' Hle.
  destruct (div_located mx mt ex et) as [-> He].
  destruct (div_located mx' mt ex' et) as [-> He'].
  set (e1 := Z.min _ (ex - et)) in *. set (e2 := Z.min _ (ex' - et)) in *.
  set (b := Z.min e1 e2).
  pose proof (pow2_pos (ex - et - e1) ltac:(unfold e1; lia)).
  pose proof (pow2_pos (ex' - et - e2) ltac:(unfold e2; lia)).
  apply round_located_mono with (b := b); try lia; try assumption.
  apply Z.mul_le_mono_nonneg_r; [lia|].
  rewrite <- !Z.mul_assoc, <- !Z.pow_add_r by (unfold e1, e2, b; lia).
  replace (ex - et - e1 + (e1 - b)) with (ex - (et + b)) by lia.
  replace (ex' - et - e2 + (e2 - b)) with (ex' - (et + b)) by lia.
  apply valid_order_at; try assumption; unfold b, e1, e2; lia.
Qed.

Lemma div_nonneg_finite (mx mt : positive) (ex et : Z) :
  nonNegative (F64.div (S754_finite false mx ex) (S754_finite false mt et)).
Proof.
  destruct (div_located mx mt ex et) as [-> He].
  pose proof (pow2_pos (ex - et - Z.min (fexp64 (Zpos (digits2_pos mx) + ex
                - (Zpos (digits2_pos mt) + et))) (ex - et)) ltac:(lia)).
  apply round_located_valid; lia.
Qed.

Lemma div_mono (x x' : float64) (mt : positive) (et : Z) :
  nonNegative x -> nonNegative x' -> F64.leb x x' = true ->
  let t := S754_finite false mt et in
  F64.leb (F64.div x t) (F64.div x' t) = true
  /\ nonNegative (F64.div x t) /\ nonNegative (F64.div x' t).
Proof.
  intros Hx Hx' Hle t.
  assert (Hnn : forall y, nonNegative y -> nonNegative (F64.div y t)).
  { intros y Hy. destruct y as [[]|[]| |[] my ey]; try contradiction;
      [exact I|exact I|apply div_nonneg_finite]. }
  split; [|split; apply Hnn; assumption].
  pose proof (Hnn x Hx) as Hd. pose proof (Hnn x' Hx') as Hd'.
  destruct x as [[]|[]| |[] mx ex]; try contradiction;
    destruct x' as [[]|[]| |[] mx' ex']; try contradiction;
    try discriminate; try reflexivity.
  - apply leb_zero_nonneg. assumption.
  - change (F64.div (S754_infinity false) t) with (S754_infinity false).
    apply nonNegative_shape in Hd.
    destruct (F64.div _ t) as [[]|[]| |[] m e]; try contradiction; reflexivity.
  - apply div_mono_finite; assumption.
Qed.

Lemma normalize_not_nan (D e : Z) :
  F64.leb (S754_infinity true) (binary_normalize F64.prec F64.emax D e false) = true.
Proof.
  destruct D as [|p|p]; cbn [binary_normalize]; [reflexivity| |].
  - pose proof (binary_round_valid p e) as H. apply nonNegative_shape in H.
    destruct (binary_round _ _ false p e) as [[]|[]| |[] m' e']; try contradiction;
      reflexivity.
  - rewrite binary_round_opp.
    pose proof (binary_round_valid p e) as H. apply nonNegative_shape in H.
    destruct (binary_round _ _ false p e) as [[]|[]| |[] m' e']; try contradiction;
      reflexivity.
Qed.

(** [1 - y] is antitone in [y >= 0]. *)
Lemma one_sub_mono (y y' : float64) :
  nonNegative y -> nonNegative y' -> F64.leb y y' = true ->
  F64.leb (F64.sub F64.one y') (F64.sub F64.one y) = true.
Proof.
  intros Hy Hy' Hle.
  change F64.one with (S754_finite false 4503599627370496 (-52)).
  destruct y as [[]|[]| |[] my ey]; try contradiction;
    destruct y' as [[]|[]| |[] my' ey']; try contradiction;
    try discriminate; try reflexivity.
  - rewrite sub_aligned.
    change (F64.sub (S754_finite false 4503599627370496 (-52)) (S754_zero false))
      with (binary_normalize F64.prec F64.emax 4503599627370496 (-52) false).
    apply normalize_order with (b := Z.min (-52) ey'); try lia.
    pose proof (pow2_pos (ey' - Z.min (-52) ey') ltac:(lia)).
    rewrite Z.sub_diag, Z.pow_0_r, Z.mul_1_r. nia.
  - rewrite sub_aligned.
    change (F64.sub _ (S754_infinity false)) with (S754_infinity true).
    apply normalize_not_nan.
  - apply sub_mono_right; assumption.
Qed.

(** The utilization that [canScheduleMulti] projects falls when the free
    capacity rises, on numbers with a demand above zero within the free
    capacity and a positive total. *)
Lemma utilization_antitone (r a a' t : float64) :
  F64.is_number r = true -> F64.is_number a = true ->
  F64.is_number a' = true -> F64.is_number t = true ->
  F64.leb F64.zero r = true -> F64.eqb r F64.zero = false ->
  F64.ltb a r = false -> F64.ltb a a' = true -> F64.ltb F64.zero t = true ->
  F64.leb (F64.sub F64.one (F64.div (F64.sub a' r) t))
          (F64.sub F64.one (F64.div (F64.sub a r) t)) = true.
Proof.
  intros Vr Va Va' Vt H0r Hr Har Haa Ht.
  destruct r as [[]|[]| |[] mr er]; try discriminate.
  destruct a as [[]|[]| |[] ma ea]; try discriminate.
  destruct a' as [[]|[]| |[] ma' ea']; try discriminate.
  destruct t as [[]|[]| |[] mt et]; try discriminate.
  cbn [F64.is_number] in Vr, Va, Va', Vt.
  assert (Hra : F64.leb (S754_finite false mr er) (S754_finite false ma ea) = true).
  { revert Har. unfold F64.ltb, F64.leb, SFltb, SFleb. cbn [SFcompare].
    change (Pos.compare_cont Eq ma mr) with (Pos.compare ma mr).
    change (Pos.compare_cont Eq mr ma) with (Pos.compare mr ma).
    rewrite (Z.compare_antisym ea er), (Pos.compare_antisym ma mr).
    destruct (ea ?= er); cbn [CompOpp]; try congruence.
    destruct (ma ?= mr)%positive; cbn [CompOpp]; congruence. }
  assert (Haa' : F64.leb (S754_finite false ma ea) (S754_finite false ma' ea') = true).
  { revert Haa. unfold F64.ltb, F64.leb, SFltb, SFleb.
    destruct (SFcompare _ _) as [[]|]; congruence. }
  assert (HX : forall mb eb, valid64 (S754_finite false mb eb) = true ->
             F64.leb (S754_finite false mr er) (S754_finite false mb eb) = true ->
             nonNegative (F64.sub (S754_finite false mb eb) (S754_finite false mr er))).
  { intros mb eb Vb Hle. rewrite sub_aligned. apply normalize_nonneg.
    pose proof (valid_order_at mr mb er eb (Z.min eb er) Vr Vb Hle
                  ltac:(lia) ltac:(lia)). lia. }
  destruct (div_mono
              (F64.sub (S754_finite false ma ea) (S754_finite false mr er))
              (F64.sub (S754_finite false ma' ea') (S754_finite false mr er))
              mt et) as (HY & HnY & HnY').
  - apply HX; assumption.
  - apply HX; [assumption|]. apply leb_trans with (b := S754_finite false ma ea); assumption.
  - apply sub_mono_left; assumption.
  - apply one_sub_mono; assumption.
Qed.

(** Under an accepted demand above zero, a capacity that is at least the
    free capacity is positive. *)
Lemma capacity_positive (r a t : float64) :
  F64.is_number r = true -> F64.is_number a = true -> F64.is_number t = true ->
  F64.leb F64.zero r = true -> F64.eqb r F64.zero = false ->
  F64.ltb a r = false -> F64.leb a t = true ->
  F64.ltb F64.zero t = true.
Proof.
  intros Vr Va Vt H0r Hr Har Hat.
  destruct r as [[]|[]| |[] mr er]; try discriminate;
    destruct a as [[]|[]| |[] ma ea]; try discriminate;
    destruct t as [[]|[]| |[] mt et]; try discriminate; reflexivity.
Qed.

End Operations.




(** ** Dominant-share scoring without demand *)

Section ZeroDemand.

Lemma zeroDemand_each (d : PodRequest) :
  zeroDemand d = true -> forall x, (demand x d == F64.zero)%f64 = true.
Proof.
  unfold zeroDemand. rewrite forallb_forall. intros H x. apply H.
  destruct x; cbn; tauto.
Qed.

Ltac skip_all d H :=
  pose proof (zeroDemand_each d H) as Hz;
  pose proof (Hz cpu) as H1; pose proof (Hz mem) as H2;
  pose proof (Hz diskRead) as H3; pose proof (Hz diskWrite) as H4;
  pose proof (Hz netUp) as H5; pose proof (Hz netDown) as H6;
  cbn in H1, H2, H3, H4, H5, H6.

Lemma loop_share_zero (d : PodRequest) (n : NodeStats) :
  zeroDemand d = true ->
  Preemptive.dominantShareOf F64.zero (Preemptive.scoreResources d n) = F64.zero.
Proof.
  intros H. skip_all d H.
  unfold Preemptive.scoreResources. cbn [Preemptive.dominantShareOf].
  rewrite H1, H2, H3, H4, H5, H6. reflexivity.
Qed.

Lemma extender_share_zero (d : PodRequest) (n : NodeStats) :
  zeroDemand d = true ->
  Extender.dominantShareOf F64.zero
    [ (CPUFree n, CPU d); (MemFree n, Mem d); (DiskReadFree n, DiskRead d);
      (DiskWriteFree n, DiskWrite d); (NetUpFree n, NetUp d);
      (NetDownFree n, NetDown d) ] = F64.zero.
Proof.
  intros H. skip_all d H. cbn [Extender.dominantShareOf].
  rewrite H1, H2, H3, H4, H5, H6. reflexivity.
Qed.

End ZeroDemand.

(** C4.  In the watch-and-bind scheduler, [scoreMultiResource] gives a
    request whose demand is zero in every dimension the midpoint,
    [maxScore / 2] with Go's integer division, for every node state and
    every [maxScore].  The extender's [ScoreMultiResource] has no midpoint
    case: it gives such a request [maxScore], for every node state and
    every [maxScore] from 0 to 2^53. *)
Theorem loop_score_midpoint (d : PodRequest) (n : NodeStats) (maxScore : Z) :
  zeroDemand d = true ->
  Preemptive.scoreMultiResource d n maxScore = maxScore ÷ 2
  /\ (0 <= maxScore <= 2 ^ 53 ->
      Extender.ScoreMultiResource d n maxScore = maxScore).
Proof.
  intros H. split.
  - unfold Preemptive.scoreMultiResource.
    rewrite (loop_share_zero d n H). reflexivity.
  - intros Hm. unfold Extender.ScoreMultiResource.
    rewrite (extender_share_zero d n H). exact (full_score_roundtrip maxScore Hm).
Qed.

Lemma loop_score_midpoint_witness :
  Preemptive.scoreMultiResource noDemand roomyNode 100 = 50
  /\ Extender.ScoreMultiResource noDemand roomyNode 100 = 100.
Proof.
  destruct (loop_score_midpoint noDemand roomyNode 100 eq_refl) as [Hloop Hext].
  split; [exact Hloop|]. apply Hext. split; [lia|]. vm_compute. discriminate.
Defined.

(** The extender scores the same request 100 out of 100. *)
Lemma extender_scores_no_midpoint :
  zeroDemand noDemand = true
  /\ Extender.ScoreMultiResource noDemand roomyNode 100 = 100
  /\ 100 <> 100 ÷ 2.
Proof. vm_compute. repeat split; congruence. Qed.




(** ** Preemption *)

Section Preemption.

Lemma filter_none {A : Type} (f : A -> bool) (l : list A) :
  Forall (fun x => f x = false) l -> List.filter f l = [].
Proof.
  induction 1 as [|x l Hx _ IH]; cbn; [reflexivity|]. rewrite Hx. exact IH.
Qed.

End Preemption.



(** ** Node statistics *)

Section NodeStatistics.

Lemma sampleOr_outage (prom : Metrics) (query nodeName : string)
      (onError : float64) :
  prom query = None -> Preemptive.sampleOr prom query nodeName onError = onError.
Proof. intros H. unfold Preemptive.sampleOr. rewrite H. reflexivity. Qed.

Lemma ask_outage (prom : Metrics) (query nodeName : string) :
  prom query = None -> Plugin.ask prom query nodeName = Plugin.QueryError.
Proof. intros H. unfold Plugin.ask. rewrite H. reflexivity. Qed.

End NodeStatistics.

(** What the [getNodeStats] of the watch-and-bind scheduler records: the
    CPU total is fixed at 6 cores, every free value is the total minus the
    usage sampled for the node (CPU and memory fall back to 2 cores and
    4GiB when no usage is sampled), so that [0 <= free <= total] holds in
    every dimension whose sampled usage lies between zero and the total,
    and in every dimension during an outage of the metrics source (where
    the plug-in records zeros). *)
Lemma getNodeStats_free_values (prom : Metrics) (nodeName : string) :
  let s := Preemptive.getNodeStats prom nodeName in
  CPUTotal s = F64.of_int 6
  /\ (forall x,
         freeOf x s =
         match usageSample prom nodeName x with
         | Some usage => (totalOf x s - usage)%f64
         | None => fallbackFree x
         end)
  /\ (forall x,
         match usageSample prom nodeName x with
         | Some usage => usageInRange usage (totalOf x s) = true
         | None => True
         end ->
         inCapacity x s = true)
  /\ ((forall query, prom query = None) ->
      s = outageDefaults
      /\ withinCapacity s = true
      /\ forall p, Plugin.promClient p = Some prom ->
                   Plugin.getNodeStats p nodeName = Some zeroStats
                   /\ withinCapacity zeroStats = true).
Proof.
  cbn zeta.
  assert (Hcpu : CPUTotal (Preemptive.getNodeStats prom nodeName) = F64.of_int 6).
  { unfold Preemptive.getNodeStats, Preemptive.cpuStats. cbn [CPUTotal].
    destruct (prom Preemptive.cpuQuery) as [m|]; [|reflexivity].
    destruct (Preemptive.pickSample nodeName m); reflexivity. }
  assert (Hfree : forall x,
             freeOf x (Preemptive.getNodeStats prom nodeName) =
             match usageSample prom nodeName x with
             | Some usage => (totalOf x (Preemptive.getNodeStats prom nodeName) - usage)%f64
             | None => fallbackFree x
             end).
  { intros x. unfold Preemptive.getNodeStats, usageSample.
    destruct x; cbn [freeOf totalOf CPUTotal CPUFree MemTotal MemFree DiskReadTotal
                     DiskReadFree DiskWriteTotal DiskWriteFree NetUpTotal NetUpFree
                     NetDownTotal NetDownFree]; try reflexivity.
    - unfold Preemptive.cpuStats.
      destruct (prom Preemptive.cpuQuery) as [m|]; [|reflexivity].
      destruct (Preemptive.pickSample nodeName m); reflexivity.
    - unfold Preemptive.memStats.
      destruct (prom Preemptive.memQuery) as [m|]; [|reflexivity].
      destruct (Preemptive.pickSample nodeName m); reflexivity. }
  split; [exact Hcpu|]. split; [exact Hfree|]. split.
  - intros x Hx. unfold inCapacity. rewrite Hfree.
    destruct (usageSample prom nodeName x) as [usage|] eqn:Eu.
    + destruct (sub_within _ _ Hx) as [H0 H1]. rewrite H0, H1. reflexivity.
    + destruct x; try discriminate.
      * cbn [totalOf]. rewrite Hcpu. reflexivity.
      * unfold usageSample in Eu.
        unfold Preemptive.getNodeStats, Preemptive.memStats. cbn [totalOf MemTotal].
        destruct (prom Preemptive.memQuery) as [m|]; [|reflexivity].
        rewrite Eu. reflexivity.
  - intros H. unfold Preemptive.getNodeStats. split; [|split].
    + unfold Preemptive.cpuStats, Preemptive.memStats.
      rewrite !H. rewrite !sampleOr_outage by apply H. reflexivity.
    + unfold Preemptive.cpuStats, Preemptive.memStats.
      rewrite !H. rewrite !sampleOr_outage by apply H. vm_compute. reflexivity.
    + intros p Hp. unfold Plugin.getNodeStats, Plugin.throughput. rewrite Hp.
      rewrite !ask_outage by apply H. vm_compute. split; reflexivity.
Qed.

(** C3.  The [getNodeStats] of the watch-and-bind scheduler does not clamp
    a negative free value to zero: when seven busy cores are sampled for a
    node, whose CPU total it fixes at six, it records a free CPU of -1, and
    the recorded state breaks [0 <= free <= total]. *)
Theorem negative_free_is_recorded :
  CPUFree (Preemptive.getNodeStats sevenBusyCores "node1") = F64.of_int (-1)
  /\ (CPUFree (Preemptive.getNodeStats sevenBusyCores "node1") < F64.zero)%f64 = true
  /\ withinCapacity (Preemptive.getNodeStats sevenBusyCores "node1") = false.
Proof. vm_compute. repeat split; reflexivity. Qed.

(** ** Annotation parsing *)

Section UnitSuffix.
Import Bytes Strconv.

Ltac letters H := destruct H as [->|[->|[->|[->|[->| ->]]]]].

Lemma last_cons_inv {A : Type} (a c : A) (l : list A) :
  last (a :: l) = Some c -> (l = [] /\ a = c) \/ (l <> [] /\ last l = Some c).
Proof.
  destruct l as [|b l]; cbn; intros H.
  - left. split; congruence.
  - right. split; [discriminate|exact H].
Qed.

(** The scanners stop in front of a unit letter. *)
Lemma scanMantissa_last (c : ascii) (s : list ascii) :
  unitLetter c -> last s = Some c ->
  forall hex sawdot m, last (snd (scanMantissa hex sawdot m s)) = Some c.
Proof.
  intros Hc. induction s as [|a s IH]; intros Hl hex sawdot m; [discriminate|].
  cbn [scanMantissa].
  destruct (last_cons_inv _ _ _ Hl) as [[-> ->]|[Hne Hl']].
  - letters Hc; destruct hex, sawdot; reflexivity.
  - destruct (Ascii.eqb a "_"); [apply IH; assumption|].
    destruct (Ascii.eqb a "."); [destruct sawdot; [exact Hl|apply IH; assumption]|].
    destruct (digitVal hex a); [apply IH; assumption|exact Hl].
Qed.

Lemma scanExponent_last (c : ascii) (s : list ascii) :
  unitLetter c -> last s = Some c ->
  forall e us, last (snd (scanExponent e us s)) = Some c.
Proof.
  intros Hc. induction s as [|a s IH]; intros Hl e us; [discriminate|].
  cbn [scanExponent].
  destruct (last_cons_inv _ _ _ Hl) as [[-> ->]|[Hne Hl']].
  - letters Hc; reflexivity.
  - destruct (Ascii.eqb a "_"); [apply IH; assumption|].
    destruct (isDigit a); [apply IH; assumption|exact Hl].
Qed.

Lemma strip_sign_last (c a : ascii) (s : list ascii) :
  unitLetter c -> last (a :: s) = Some c ->
  last (if isSign a then s else a :: s) = Some c.
Proof.
  intros Hc Hl. destruct (isSign a) eqn:Ea; [|exact Hl].
  destruct (last_cons_inv _ _ _ Hl) as [[-> ->]|[_ Hl']]; [|exact Hl'].
  letters Hc; discriminate.
Qed.

Lemma readFloat_last (c : ascii) (s : list ascii) :
  unitLetter c -> last s = Some c ->
  forall n rest, readFloat s = Some (n, rest) -> last rest = Some c.
Proof.
  intros Hc Hl n rest. unfold readFloat.
  destruct s as [|a s']; [discriminate|].
  pose proof (strip_sign_last c a s' Hc Hl) as H1.
  set (s1 := if isSign a then s' else a :: s') in *.
  assert (H2 : forall hs, hs = match s1 with
                 | c0 :: c1 :: c2 :: s'' =>
                     if Ascii.eqb c0 "0" && Ascii.eqb (lower c1) "x"
                     then (true, c2 :: s'') else (false, s1)
                 | _ => (false, s1)
                 end -> last (snd hs) = Some c).
  { intros hs ->. destruct s1 as [|c0 [|c1 [|c2 s'']]]; try exact H1.
    destruct (Ascii.eqb c0 "0" && Ascii.eqb (lower c1) "x"); exact H1. }
  specialize (H2 _ eq_refl).
  destruct (match s1 with
            | c0 :: c1 :: c2 :: s'' =>
                if Ascii.eqb c0 "0" && Ascii.eqb (lower c1) "x"
                then (true, c2 :: s'') else (false, s1)
            | _ => (false, s1)
            end) as [hex s2]. cbn [snd] in H2.
  pose proof (scanMantissa_last c s2 Hc H2 hex false
                {| m_digits := 0; m_frac := 0; m_sawdigits := false;
                   m_underscores := false |}) as H3.
  destruct (scanMantissa hex false _ s2) as [m s3]. cbn [snd] in H3.
  destruct (negb (m_sawdigits m)); [discriminate|].
  destruct s3 as [|b s4]; [discriminate|].
  destruct (Ascii.eqb (lower b) (if hex then "p"%char else "e"%char)) eqn:Eb.
  - destruct (last_cons_inv _ _ _ H3) as [[-> ->]|[Hne H4]].
    { letters Hc; destruct hex; discriminate. }
    destruct s4 as [|c' s5]; [discriminate|].
    pose proof (strip_sign_last c c' s5 Hc H4) as H5.
    destruct (if isSign c' then s5 else c' :: s5) as [|dg s6] eqn:E6; [discriminate|].
    destruct (isDigit dg); [|discriminate].
    pose proof (scanExponent_last c (dg :: s6) Hc H5 0 (m_underscores m)) as H6.
    destruct (scanExponent 0 (m_underscores m) (dg :: s6)) as [[e us] rest'].
    cbn [snd] in H6.
    match goal with |- (if ?b then None else _) = _ -> _ => destruct b end;
      [discriminate|]. intros [= _ <-]. exact H6.
  - destruct hex; [discriminate|].
    match goal with |- (if ?b then None else _) = _ -> _ => destruct b end;
      [discriminate|]. intros [= _ <-]. exact H3.
Qed.

Lemma special_unit (c : ascii) (s : list ascii) :
  unitLetter c -> special (s ++ [c]) = None.
Proof.
  intros Hc. unfold special, eqb.
  assert (Hlast : last (ToLower (s ++ [c])) = Some (lowerByte c))
    by (unfold ToLower; rewrite map_app; apply last_snoc).
  repeat match goal with
         | |- context [bool_decide (?l = ?t)] =>
             rewrite (bool_decide_eq_false_2 (l = t))
               by (intros E; rewrite E in Hlast; letters Hc; discriminate)
         end.
  reflexivity.
Qed.

(** No string that ends in a unit letter is a number. *)
Lemma ParseFloat_unit (c : ascii) (s : list ascii) :
  unitLetter c -> ParseFloat (s ++ [c]) = None.
Proof.
  intros Hc. unfold ParseFloat. rewrite (special_unit c s Hc).
  destruct (readFloat (s ++ [c])) as [[n rest]|] eqn:E; [|reflexivity].
  apply (readFloat_last c _ Hc) in E; [|apply last_snoc].
  destruct rest; [discriminate|reflexivity].
Qed.

Lemma of_string_app (a b : string) :
  of_string (a ++ b) = of_string a ++ of_string b.
Proof.
  unfold of_string. induction a as [|x a IH]; [reflexivity|].
  change (String x a +:+ b) with (String x (a +:+ b)).
  cbn [list_ascii_of_string app]. f_equal. exact IH.
Qed.

Lemma parse_annotated (pod : v1.Pod) (key value : string) (dflt : float64) :
  parseResourceAnnotation (annotate pod key value) key dflt =
  let value := of_string value in
  match ParseFloat value with
  | Some parsedValue => parsedValue
  | None =>
      if (1 <? length value)%nat then
        let unit := ToUpper (skipn (length value - 1) value) in
        match ParseFloat (firstn (length value - 1) value) with
        | Some parsedNum =>
            if eqb unit "K" then (parsedNum * F64.of_int 1024)%f64
            else if eqb unit "M" then
              (parsedNum * F64.of_int 1024 * F64.of_int 1024)%f64
            else if eqb unit "G" then
              (parsedNum * F64.of_int 1024 * F64.of_int 1024 * F64.of_int 1024)%f64
            else dflt
        | None => dflt
        end
      else dflt
  end.
Proof.
  unfold parseResourceAnnotation, annotate. cbn [v1.Annotations].
  rewrite lookup_insert_eq. reflexivity.
Qed.

(** A value made of [numPart] and a unit letter. *)
Lemma parse_with_unit (pod : v1.Pod) (key numPart : string) (c : ascii)
      (dflt : float64) :
  unitLetter c ->
  parseResourceAnnotation (annotate pod key (numPart ++ String c EmptyString))
                          key dflt =
  match of_string numPart with
  | [] => dflt
  | _ :: _ =>
      match ParseFloat numPart with
      | Some parsedNum => scale c parsedNum
      | None => dflt
      end
  end.
Proof.
  intros Hc. rewrite parse_annotated. cbn zeta. rewrite of_string_app.
  change (of_string (String c EmptyString)) with [c].
  rewrite (ParseFloat_unit c _ Hc), length_app. cbn [length].
  replace (length (of_string numPart) + 1 - 1)%nat
    with (length (of_string numPart)) by lia.
  rewrite (skipn_app (length (of_string numPart))), skipn_all, Nat.sub_diag.
  rewrite firstn_app, firstn_all, Nat.sub_diag.
  cbn [skipn firstn app ToUpper map]. rewrite app_nil_r.
  destruct (of_string numPart) as [|a l] eqn:E; [reflexivity|].
  replace (1 <? length (a :: l) + 1)%nat with true
    by (symmetry; apply Nat.ltb_lt; cbn [length]; lia).
  destruct (ParseFloat (a :: l)); [|reflexivity].
  unfold scale. letters Hc; reflexivity.
Qed.

End UnitSuffix.

(** C7.  [parseResourceAnnotation] maps the annotation value "50M" to
    50 * 1024^2, "2G" to 2 * 1024^3, "100" to 100.0 and "garbage" to the
    default it is given.  The unit letter is read in either case: a value
    with a lower-case k, m or g is parsed as the same value with K, M or G,
    and a number followed by the letter is that number times 1024, 1024^2 or
    1024^3. *)
Theorem annotation_parsing (pod : v1.Pod) (key : string) (dflt : float64) :
  parseResourceAnnotation (annotate pod key "50M") key dflt
  = F64.of_int (50 * 1024 * 1024)
  /\ parseResourceAnnotation (annotate pod key "2G") key dflt
     = F64.of_int (2 * 1024 * 1024 * 1024)
  /\ parseResourceAnnotation (annotate pod key "100") key dflt = F64.of_int 100
  /\ parseResourceAnnotation (annotate pod key "garbage") key dflt = dflt
  /\ (forall numPart : string,
         parseResourceAnnotation (annotate pod key (numPart ++ "k")) key dflt
         = parseResourceAnnotation (annotate pod key (numPart ++ "K")) key dflt
         /\ parseResourceAnnotation (annotate pod key (numPart ++ "m")) key dflt
            = parseResourceAnnotation (annotate pod key (numPart ++ "M")) key dflt
         /\ parseResourceAnnotation (annotate pod key (numPart ++ "g")) key dflt
            = parseResourceAnnotation (annotate pod key (numPart ++ "G")) key dflt)
  /\ (forall (numPart : string) (parsedNum : float64),
         Strconv.ParseFloat numPart = Some parsedNum ->
         parseResourceAnnotation (annotate pod key (numPart ++ "k")) key dflt
         = (parsedNum * F64.of_int 1024)%f64
         /\ parseResourceAnnotation (annotate pod key (numPart ++ "m")) key dflt
            = (parsedNum * F64.of_int 1024 * F64.of_int 1024)%f64
         /\ parseResourceAnnotation (annotate pod key (numPart ++ "g")) key dflt
            = (parsedNum * F64.of_int 1024 * F64.of_int 1024 * F64.of_int 1024)%f64).
Proof.
  assert (Hk : unitLetter "k") by (unfold unitLetter; tauto).
  assert (HK : unitLetter "K") by (unfold unitLetter; tauto).
  assert (Hm : unitLetter "m") by (unfold unitLetter; tauto).
  assert (HM : unitLetter "M") by (unfold unitLetter; tauto).
  assert (Hg : unitLetter "g") by (unfold unitLetter; tauto).
  assert (HG : unitLetter "G") by (unfold unitLetter; tauto).
  do 4 (split; [rewrite parse_annotated; vm_compute; reflexivity|]).
  split.
  - intros numPart.
    rewrite (parse_with_unit pod key numPart "k" dflt Hk),
            (parse_with_unit pod key numPart "K" dflt HK),
            (parse_with_unit pod key numPart "m" dflt Hm),
            (parse_with_unit pod key numPart "M" dflt HM),
            (parse_with_unit pod key numPart "g" dflt Hg),
            (parse_with_unit pod key numPart "G" dflt HG).
    repeat split; reflexivity.
  - intros numPart parsedNum Hnum.
    rewrite (parse_with_unit pod key numPart "k" dflt Hk),
            (parse_with_unit pod key numPart "m" dflt Hm),
            (parse_with_unit pod key numPart "g" dflt Hg).
    rewrite Hnum.
    destruct (Bytes.of_string numPart) eqn:E; [discriminate|].
    repeat split; reflexivity.
Qed.

Lemma annotation_parsing_witness :
  parseResourceAnnotation (annotate (lowPod "web") "scheduler.extender/net-up" "1.5k")
                          "scheduler.extender/net-up" F64.zero
  = (F64.of_decimal false 15 (-1) * F64.of_int 1024)%f64.
Proof.
  refine (proj1 (proj2 (proj2 (proj2 (proj2 (proj2
            (annotation_parsing (lowPod "web") "scheduler.extender/net-up" F64.zero)))))
            "1.5"%string (F64.of_decimal false 15 (-1)) _)).
  vm_compute. reflexivity.
Defined.

(** C8.  With [maxScore = 100], [NormalizeScore] turns the scores
    [20, 60, 100] into [0, 50, 100] and leaves [50, 50, 50] as they are. *)
Theorem normalize_examples
        (client : option Metrics) (α : float64) (cache : gmap string NodeStats)
        (a b c : string) :
  let p := {| Plugin.promClient := client; Plugin.alpha := α;
              Plugin.maxScore := 100; Plugin.nodeStats := cache |} in
  Plugin.NormalizeScore p
    [ {| Plugin.Name := a; Plugin.Score := 20 |};
      {| Plugin.Name := b; Plugin.Score := 60 |};
      {| Plugin.Name := c; Plugin.Score := 100 |} ]
  = [ {| Plugin.Name := a; Plugin.Score := 0 |};
      {| Plugin.Name := b; Plugin.Score := 50 |};
      {| Plugin.Name := c; Plugin.Score := 100 |} ]
  /\ Plugin.NormalizeScore p
       [ {| Plugin.Name := a; Plugin.Score := 50 |};
         {| Plugin.Name := b; Plugin.Score := 50 |};
         {| Plugin.Name := c; Plugin.Score := 50 |} ]
     = [ {| Plugin.Name := a; Plugin.Score := 50 |};
         {| Plugin.Name := b; Plugin.Score := 50 |};
         {| Plugin.Name := c; Plugin.Score := 50 |} ].
Proof. split; reflexivity. Qed.

(** C10.  The plug-in's [extractPodRequirements] gives every pod the
    priority 1: the result does not depend on the priority that the pod
    declares. *)
Theorem plugin_priority_is_one :
  (forall pod : v1.Pod, Priority (Plugin.extractPodRequirements pod) = 1)
  /\ (forall (pod : v1.Pod) (declared : option Z),
         Plugin.extractPodRequirements (withPriority pod declared) =
         Plugin.extractPodRequirements pod).
Proof.
  split.
  - intros pod. unfold Plugin.extractPodRequirements.
    destruct (Plugin.sumContainers _). reflexivity.
  - intros pod declared. reflexivity.
Qed.

(** * Further properties *)

Import Accounting Verdict ScoreRange Workload.


(** ** The three admission checks compared *)

Section Thresholds.

Lemma leb_ltb_trans (a b c : float64) :
  F64.leb a b = true -> F64.ltb b c = true -> F64.ltb a c = true.
Proof.
  unfold F64.ltb, SFltb, F64.leb, SFleb.
  destruct a as [[]|[]| |[] ma ea], b as [[]|[]| |[] mb eb],
           c as [[]|[]| |[] mc ec];
    cbn [SFcompare]; intros Hab Hbc;
    try discriminate; try reflexivity;
    repeat match goal with
         | H : context [Pos.compare_cont Eq ?x ?y] |- _ =>
             change (Pos.compare_cont Eq x y) with (Pos.compare x y) in H
         | |- context [Pos.compare_cont Eq ?x ?y] =>
             change (Pos.compare_cont Eq x y) with (Pos.compare x y)
         | H : context [Z.compare ?x ?y] |- _ => destruct (Z.compare_spec x y)
         | H : context [Pos.compare ?x ?y] |- _ => destruct (Pos.compare_spec x y)
         | |- context [Z.compare ?x ?y] => destruct (Z.compare_spec x y)
         | |- context [Pos.compare ?x ?y] => destruct (Pos.compare_spec x y)
         end; cbn in *; try discriminate; try reflexivity; lia.
Qed.

(** A zero of either sign compares like [+0]. *)
Lemma ltb_zero_demand (f r : float64) :
  F64.eqb r F64.zero = true -> F64.ltb f r = F64.ltb f F64.zero.
Proof.
  destruct r as [[]|[]| |[] m e]; try discriminate; intros _;
    destruct f as [[]|[]| |[] mf ef]; reflexivity.
Qed.

End Thresholds.

(** X1.  The plug-in and the extender decide alike: their capacity checks
    accept the same demands on the same node states, whatever alpha. *)
Theorem plugin_and_extender_agree (d : PodRequest) (n : NodeStats) (α : float64) :
  fst (Plugin.canScheduleMulti d n) = Extender.CanScheduleMulti d n α.
Proof.
  destruct (Extender.CanScheduleMulti d n α) eqn:E.
  - apply (proj2 (plugin_accepts_iff d n)), (proj1 (extender_accepts_iff d n α)), E.
  - destruct (fst (Plugin.canScheduleMulti d n)) eqn:P; [|reflexivity].
    pose proof (proj2 (extender_accepts_iff d n α)
                  (proj1 (plugin_accepts_iff d n) P)). congruence.
Qed.

(** X2.  On a node without negative free capacity, what the watch-and-bind
    predicate accepts the extender and the plug-in accept too, the plug-in
    logging its line of acceptance. *)
Theorem loop_is_stricter (d : PodRequest) (n : NodeStats) (α : float64) :
  (forall z, (freeOf z n < F64.zero)%f64 = false) ->
  fst (Preemptive.canScheduleMulti d n α) = true ->
  Extender.CanScheduleMulti d n α = true
  /\ Plugin.canScheduleMulti d n = (true, [Plugin.CanBeScheduled d n]).
Proof.
  intros Hfree H.
  assert (Hall : forall z, overAsked d n z = false).
  { intros z. pose proof (accepted_everywhere d n α H z) as Hz.
    unfold Preemptive.checkOne in Hz.
    cbn [entry Preemptive.req Preemptive.free Preemptive.name Preemptive.total] in Hz.
    unfold overAsked, F64.gtb. fold (F64.ltb (freeOf z n) (demand z d)).
    destruct (demand z d == F64.zero)%f64 eqn:Ez.
    - rewrite (ltb_zero_demand _ _ Ez). apply Hfree.
    - destruct (freeOf z n < demand z d)%f64; [discriminate|reflexivity]. }
  split.
  - apply (proj2 (extender_accepts_iff d n α)). exact Hall.
  - apply plugin_accepts_log, (proj2 (plugin_accepts_iff d n)). exact Hall.
Qed.

Lemma loop_is_stricter_witness :
  Extender.CanScheduleMulti oneCore roomyNode alpha08 = true
  /\ Plugin.canScheduleMulti oneCore roomyNode
     = (true, [Plugin.CanBeScheduled oneCore roomyNode]).
Proof.
  apply (loop_is_stricter oneCore roomyNode alpha08).
  - intros z. destruct z; reflexivity.
  - reflexivity.
Defined.

(** X3.  Raising the utilization ceiling never turns an accepted demand
    down: what [canScheduleMulti] accepts under alpha it accepts under every
    alpha' >= alpha. *)
Theorem raising_alpha (d : PodRequest) (n : NodeStats) (α α' : float64) :
  (α <= α')%f64 = true ->
  fst (Preemptive.canScheduleMulti d n α) = true ->
  Preemptive.canScheduleMulti d n α' = (true, []).
Proof.
  intros Hle H. apply everywhere_accepted. intros z.
  pose proof (accepted_everywhere d n α H z) as Hz.
  unfold Preemptive.checkOne in *.
  destruct (Preemptive.req (entry z d n) == F64.zero)%f64; [reflexivity|].
  destruct (Preemptive.free (entry z d n) < Preemptive.req (entry z d n))%f64;
    [discriminate|].
  destruct (Preemptive.expectedUtil (entry z d n) > α)%f64 eqn:Eu; [discriminate|].
  destruct (Preemptive.expectedUtil (entry z d n) > α')%f64 eqn:Eu'; [|reflexivity].
  unfold F64.gtb in Eu, Eu'.
  pose proof (leb_ltb_trans _ _ _ Hle Eu') as Hc. unfold F64.ltb in Hc. congruence.
Qed.

Lemma raising_alpha_witness :
  Preemptive.canScheduleMulti oneCore roomyNode F64.one = (true, []).
Proof.
  apply (raising_alpha oneCore roomyNode alpha08 F64.one); reflexivity.
Defined.

(** X4.  A demand of zero in every dimension is accepted by
    [canScheduleMulti] on every node state and under every alpha: the loop
    skips every dimension. *)
Theorem no_demand_is_accepted (d : PodRequest) (n : NodeStats) (α : float64) :
  zeroDemand d = true -> Preemptive.canScheduleMulti d n α = (true, []).
Proof.
  intros H. apply everywhere_accepted. intros z.
  unfold Preemptive.checkOne. cbn [entry Preemptive.req].
  rewrite (zeroDemand_each d H z). reflexivity.
Qed.

Lemma no_demand_is_accepted_witness :
  Preemptive.canScheduleMulti noDemand overcommitted F64.zero = (true, []).
Proof. apply no_demand_is_accepted. reflexivity. Defined.

(** ** NormalizeScore *)

Section Normalization.

Import Plugin.

Lemma wrap64_small (z : Z) : - 2 ^ 63 <= z < 2 ^ 63 -> wrap64 z = z.
Proof.
  intros H. unfold wrap64. rewrite Z.mod_small; lia.
Qed.

Lemma highest_fold (scores : list NodeScore) (init : Z) :
  let h := fold_left (fun highest ns => if highest <? Score ns then Score ns else highest)
                     scores init in
  init <= h
  /\ Forall (fun ns => Score ns <= h) scores
  /\ (h = init \/ Exists (fun ns => Score ns = h) scores).
Proof.
  revert init. induction scores as [|ns scores IH]; intros init; cbn [fold_left].
  - split; [lia|]. split; [constructor|left; reflexivity].
  - specialize (IH (if init <? Score ns then Score ns else init)).
    cbn zeta in IH. destruct IH as (Hge & Hall & Hin).
    destruct (Z.ltb_spec init (Score ns)) as [Hlt|Hle].
    + split; [lia|]. split; [constructor; [lia|exact Hall]|].
      right. destruct Hin as [->|Hin]; [left; reflexivity|right; exact Hin].
    + split; [lia|]. split; [constructor; [lia|exact Hall]|].
      destruct Hin as [->|Hin]; [left; reflexivity|right; right; exact Hin].
Qed.

Lemma lowest_fold (scores : list NodeScore) (init : Z) :
  let l := fold_left (fun lowest ns => if Score ns <? lowest then Score ns else lowest)
                     scores init in
  l <= init
  /\ Forall (fun ns => l <= Score ns) scores
  /\ (l = init \/ Exists (fun ns => Score ns = l) scores).
Proof.
  revert init. induction scores as [|ns scores IH]; intros init; cbn [fold_left].
  - split; [lia|]. split; [constructor|left; reflexivity].
  - specialize (IH (if Score ns <? init then Score ns else init)).
    cbn zeta in IH. destruct IH as (Hge & Hall & Hin).
    destruct (Z.ltb_spec (Score ns) init) as [Hlt|Hle].
    + split; [lia|]. split; [constructor; [lia|exact Hall]|].
      right. destruct Hin as [->|Hin]; [left; reflexivity|right; exact Hin].
    + split; [lia|]. split; [constructor; [lia|exact Hall]|].
      destruct Hin as [->|Hin]; [left; reflexivity|right; right; exact Hin].
Qed.

(** The bounds that the two folds of [NormalizeScore] find for scores
    between 0 and [maxScore]. *)
Lemma extremes_in_range (M : Z) (scores : list NodeScore) :
  0 <= M -> Forall (fun ns => 0 <= Score ns <= M) scores ->
  let H := highestOf scores in
  let L := lowestOf M scores in
  0 <= L <= M /\ 0 <= H <= M
  /\ Forall (fun ns => L <= Score ns <= H) scores
  /\ (scores <> [] -> L <= H).
Proof.
  intros HM Hin H L.
  destruct (highest_fold scores 0) as (Hh0 & Hhall & Hhex).
  destruct (lowest_fold scores M) as (Hl0 & Hlall & Hlex).
  fold (highestOf scores) in Hh0, Hhall, Hhex. fold (lowestOf M scores) in Hl0, Hlall, Hlex.
  fold H in Hh0, Hhall, Hhex. fold L in Hl0, Hlall, Hlex.
  rewrite List.Forall_forall in Hin, Hhall, Hlall.
  assert (HH : 0 <= H <= M).
  { split; [lia|]. destruct Hhex as [->|Hex]; [lia|].
    apply List.Exists_exists in Hex as (ns & Hns & <-). apply Hin, Hns. }
  assert (HL : 0 <= L <= M).
  { split; [|lia]. destruct Hlex as [->|Hex]; [lia|].
    apply List.Exists_exists in Hex as (ns & Hns & <-). apply Hin, Hns. }
  split; [exact HL|]. split; [exact HH|]. split.
  - apply List.Forall_forall. intros ns Hns.
    specialize (Hhall ns Hns). specialize (Hlall ns Hns). cbn in *. lia.
  - intros Hne. destruct scores as [|ns ?]; [congruence|].
    specialize (Hhall ns (or_introl eq_refl)).
    specialize (Hlall ns (or_introl eq_refl)). cbn in *. lia.
Qed.

(** The score that the second loop stores, without wrap-around. *)
Lemma normalized_value (M L H s : Z) :
  0 <= L <= s -> s <= H -> H <= M -> M <= 2 ^ 31 -> L < H ->
  wrap64 (wrap64 (wrap64 (s - L) * M) ÷ wrap64 (H - L)) = (s - L) * M / (H - L)
  /\ 0 <= (s - L) * M / (H - L) <= M.
Proof.
  intros HL Hs HH HM Hlt.
  assert (Hp : 2 ^ 31 * 2 ^ 31 < 2 ^ 63) by (cbn; lia).
  assert (Hprod : 0 <= (s - L) * M <= (H - L) * M) by nia.
  assert (Hb : (H - L) * M <= 2 ^ 31 * 2 ^ 31) by nia.
  assert (Hq : 0 <= (s - L) * M / (H - L) <= M).
  { split; [apply Z.div_pos; lia|].
    apply Z.div_le_upper_bound; [lia|]. nia. }
  rewrite (wrap64_small (s - L)) by lia.
  rewrite (wrap64_small ((s - L) * M)) by lia.
  rewrite (wrap64_small (H - L)) by lia.
  rewrite Z.quot_div_nonneg by lia.
  rewrite wrap64_small by lia. split; [reflexivity|exact Hq].
Qed.

Lemma NormalizeScore_map (p : Plugin) (scores : list NodeScore) :
  let H := highestOf scores in
  let L := lowestOf (maxScore p) scores in
  NormalizeScore p scores =
  if H =? L then scores
  else map (fun ns =>
              {| Name := Name ns;
                 Score := wrap64 (wrap64 (wrap64 (Score ns - L) * maxScore p)
                                  ÷ wrap64 (H - L)) |}) scores.
Proof.
  cbn zeta. unfold NormalizeScore.
  destruct (highestOf scores =? lowestOf (maxScore p) scores); reflexivity.
Qed.

(** In range and with two different scores, the second loop runs. *)
Lemma normalize_runs (p : Plugin) (scores : list NodeScore) :
  0 <= maxScore p <= 2 ^ 31 ->
  Forall (fun ns => 0 <= Score ns <= maxScore p) scores ->
  highestOf scores <> lowestOf (maxScore p) scores -> scores <> [] ->
  let H := highestOf scores in
  let L := lowestOf (maxScore p) scores in
  L < H /\ 0 <= L /\ H <= maxScore p
  /\ Forall (fun ns => L <= Score ns <= H) scores
  /\ NormalizeScore p scores =
     map (fun ns => {| Name := Name ns;
                       Score := (Score ns - L) * maxScore p / (H - L) |}) scores.
Proof.
  intros HM Hin Hne Hnil H L.
  destruct (extremes_in_range (maxScore p) scores ltac:(lia) Hin)
    as (HL & HH & Hall & Hle).
  fold H L in HL, HH, Hall, Hle, Hne.
  assert (Hlt : L < H) by (specialize (Hle Hnil); lia).
  split; [exact Hlt|]. split; [lia|]. split; [lia|]. split; [exact Hall|].
  rewrite NormalizeScore_map. fold H L.
  replace (H =? L) with false by (symmetry; apply Z.eqb_neq; lia).
  apply map_ext_in. intros ns Hns. f_equal.
  rewrite List.Forall_forall in Hall. specialize (Hall ns Hns).
  apply normalized_value; lia.
Qed.

Lemma two_scores_differ (p : Plugin) (scores : list NodeScore) (a b : NodeScore) :
  0 <= maxScore p ->
  Forall (fun ns => 0 <= Score ns <= maxScore p) scores ->
  In a scores -> In b scores -> Score a <> Score b ->
  highestOf scores <> lowestOf (maxScore p) scores.
Proof.
  intros HM Hin Ha Hb Hab.
  destruct (extremes_in_range (maxScore p) scores HM Hin) as (_ & _ & Hall & _).
  rewrite List.Forall_forall in Hall.
  pose proof (Hall a Ha). pose proof (Hall b Hb). cbn in *. lia.
Qed.

Lemma NormalizeScore_nil (p : Plugin) : NormalizeScore p [] = [].
Proof. unfold NormalizeScore. destruct (_ =? _); reflexivity. Qed.

Lemma normalized_in_range (p : Plugin) (scores : list NodeScore) :
  0 <= maxScore p <= 2 ^ 31 ->
  Forall (fun ns => 0 <= Score ns <= maxScore p) scores ->
  Forall (fun ns => 0 <= Score ns <= maxScore p) (NormalizeScore p scores).
Proof.
  intros HM Hin.
  destruct scores as [|n0 rest] eqn:Es; [rewrite NormalizeScore_nil; constructor|].
  rewrite <- Es in *. assert (Hnil : scores <> []) by (rewrite Es; discriminate).
  clear Es.
  destruct (Z.eq_dec (highestOf scores) (lowestOf (maxScore p) scores)) as [Heq|Hne].
  - rewrite NormalizeScore_map.
    replace (_ =? _) with true by (symmetry; apply Z.eqb_eq; exact Heq).
    exact Hin.
  - destruct (normalize_runs p scores HM Hin Hne Hnil) as (Hlt & HL & HH & Hall & ->).
    apply Forall_map. rewrite List.Forall_forall in Hall |- *.
    intros ns Hns. specialize (Hall ns Hns). cbn [Score].
    split; [apply Z.div_pos; nia|].
    apply Z.div_le_upper_bound; [lia|]. nia.
Qed.

End Normalization.

(** X5.  [NormalizeScore] keeps the nodes and their order, and scores that
    lie between 0 and [maxScore] stay there. *)
Theorem normalized_scores_in_range (p : Plugin.Plugin) (scores : list Plugin.NodeScore) :
  0 <= Plugin.maxScore p <= 2 ^ 31 ->
  Forall (fun ns => 0 <= Plugin.Score ns <= Plugin.maxScore p) scores ->
  map Plugin.Name (Plugin.NormalizeScore p scores) = map Plugin.Name scores
  /\ Forall (fun ns => 0 <= Plugin.Score ns <= Plugin.maxScore p)
            (Plugin.NormalizeScore p scores).
Proof.
  intros HM Hin. split; [|apply normalized_in_range; assumption].
  unfold Plugin.NormalizeScore. destruct (_ =? _); [reflexivity|].
  rewrite map_map. reflexivity.
Qed.

Lemma normalized_scores_in_range_witness :
  Forall (fun ns => 0 <= Plugin.Score ns <= 100)
         (Plugin.NormalizeScore
            {| Plugin.promClient := None; Plugin.alpha := half;
               Plugin.maxScore := 100; Plugin.nodeStats := ∅ |}
            [ {| Plugin.Name := "a"; Plugin.Score := 20 |};
              {| Plugin.Name := "b"; Plugin.Score := 60 |} ]).
Proof.
  apply (normalized_scores_in_range
           {| Plugin.promClient := None; Plugin.alpha := half;
              Plugin.maxScore := 100; Plugin.nodeStats := ∅ |}).
  - cbn. lia.
  - repeat constructor; cbn; lia.
Defined.

(** X6.  [NormalizeScore] keeps the ranking of scores between 0 and
    [maxScore]: a node that scored at most as much as another still does
    afterwards. *)
Theorem normalize_keeps_ranking (p : Plugin.Plugin) (scores : list Plugin.NodeScore)
        (i j : nat) (a b a' b' : Plugin.NodeScore) :
  0 <= Plugin.maxScore p <= 2 ^ 31 ->
  Forall (fun ns => 0 <= Plugin.Score ns <= Plugin.maxScore p) scores ->
  nth_error scores i = Some a -> nth_error scores j = Some b ->
  nth_error (Plugin.NormalizeScore p scores) i = Some a' ->
  nth_error (Plugin.NormalizeScore p scores) j = Some b' ->
  Plugin.Score a <= Plugin.Score b ->
  Plugin.Score a' <= Plugin.Score b'.
Proof.
  intros HM Hin Ha Hb Ha' Hb' Hab.
  destruct (Z.eq_dec (Plugin.highestOf scores)
                     (Plugin.lowestOf (Plugin.maxScore p) scores)) as [Heq|Hne].
  - rewrite NormalizeScore_map in Ha', Hb'.
    replace (_ =? _) with true in Ha', Hb' by (symmetry; apply Z.eqb_eq; exact Heq).
    congruence.
  - assert (Hnil : scores <> []) by (intros ->; destruct i; discriminate).
    destruct (normalize_runs p scores HM Hin Hne Hnil) as (Hlt & HL & HH & Hall & Hout).
    rewrite Hout in Ha', Hb'.
    rewrite nth_error_map, Ha in Ha'. rewrite nth_error_map, Hb in Hb'.
    cbn in Ha', Hb'. injection Ha' as <-. injection Hb' as <-. cbn [Plugin.Score].
    rewrite List.Forall_forall in Hall.
    pose proof (Hall a (nth_error_In _ _ Ha)).
    apply Z.div_le_mono; [lia|]. nia.
Qed.

Lemma normalize_keeps_ranking_witness :
  Plugin.Score {| Plugin.Name := "a"; Plugin.Score := 0 |}
  <= Plugin.Score {| Plugin.Name := "b"; Plugin.Score := 100 |}.
Proof.
  apply (normalize_keeps_ranking
           {| Plugin.promClient := None; Plugin.alpha := half;
              Plugin.maxScore := 100; Plugin.nodeStats := ∅ |}
           [ {| Plugin.Name := "a"; Plugin.Score := 20 |};
             {| Plugin.Name := "b"; Plugin.Score := 60 |} ] 0 1
           {| Plugin.Name := "a"; Plugin.Score := 20 |}
           {| Plugin.Name := "b"; Plugin.Score := 60 |}
           {| Plugin.Name := "a"; Plugin.Score := 0 |}
           {| Plugin.Name := "b"; Plugin.Score := 100 |});
    try reflexivity; cbn; try lia.
  repeat constructor; cbn; lia.
Defined.

(** X7.  When two of the scores differ, all of them between 0 and
    [maxScore], [NormalizeScore] gives 0 to every node with the lowest score
    and [maxScore] to every node with the highest. *)
Theorem normalize_spreads (p : Plugin.Plugin) (scores : list Plugin.NodeScore)
        (u v : Plugin.NodeScore) (i : nat) (a a' : Plugin.NodeScore) :
  0 <= Plugin.maxScore p <= 2 ^ 31 ->
  Forall (fun ns => 0 <= Plugin.Score ns <= Plugin.maxScore p) scores ->
  In u scores -> In v scores -> Plugin.Score u <> Plugin.Score v ->
  nth_error scores i = Some a ->
  nth_error (Plugin.NormalizeScore p scores) i = Some a' ->
  (Forall (fun b => Plugin.Score a <= Plugin.Score b) scores -> Plugin.Score a' = 0)
  /\ (Forall (fun b => Plugin.Score b <= Plugin.Score a) scores ->
      Plugin.Score a' = Plugin.maxScore p).
Proof.
  intros HM Hin Hu Hv Huv Ha Ha'.
  pose proof (two_scores_differ p scores u v ltac:(lia) Hin Hu Hv Huv) as Hne.
  assert (Hnil : scores <> []) by (intros ->; destruct Hu).
  destruct (normalize_runs p scores HM Hin Hne Hnil) as (Hlt & HL & HH & Hall & Hout).
  rewrite Hout, nth_error_map, Ha in Ha'. cbn in Ha'. injection Ha' as <-.
  cbn [Plugin.Score].
  destruct (highest_fold scores 0) as (_ & _ & Hhex).
  destruct (lowest_fold scores (Plugin.maxScore p)) as (_ & _ & Hlex).
  fold (Plugin.highestOf scores) in Hhex.
  fold (Plugin.lowestOf (Plugin.maxScore p) scores) in Hlex.
  rewrite List.Forall_forall in Hall, Hin.
  pose proof (Hall a (nth_error_In _ _ Ha)) as Hra.
  pose proof (Hin a (nth_error_In _ _ Ha)) as Hia.
  split; intros Hext; rewrite List.Forall_forall in Hext.
  - assert (Plugin.Score a = Plugin.lowestOf (Plugin.maxScore p) scores) as ->.
    { destruct Hlex as [Hl|Hex].
      - pose proof (Hin u Hu). pose proof (Hall u Hu). pose proof (Hall v Hv).
        pose proof (Hin v Hv). cbn in *. lia.
      - apply List.Exists_exists in Hex as (ns & Hns & Hs).
        specialize (Hext ns Hns). lia. }
    rewrite Z.sub_diag, Z.mul_0_l. apply Z.div_0_l. lia.
  - assert (Plugin.Score a = Plugin.highestOf scores) as ->.
    { destruct Hhex as [Hl|Hex].
      - pose proof (Hin u Hu). pose proof (Hall u Hu). pose proof (Hall v Hv).
        pose proof (Hin v Hv). cbn in *. lia.
      - apply List.Exists_exists in Hex as (ns & Hns & Hs).
        specialize (Hext ns Hns). lia. }
    rewrite Z.mul_comm. apply Z.div_mul. lia.
Qed.

Lemma normalize_spreads_witness :
  Plugin.Score {| Plugin.Name := "a"; Plugin.Score := 0 |} = 0.
Proof.
  apply (proj1 (normalize_spreads
                  {| Plugin.promClient := None; Plugin.alpha := half;
                     Plugin.maxScore := 100; Plugin.nodeStats := ∅ |}
                  [ {| Plugin.Name := "a"; Plugin.Score := 20 |};
                    {| Plugin.Name := "b"; Plugin.Score := 60 |} ]
                  {| Plugin.Name := "a"; Plugin.Score := 20 |}
                  {| Plugin.Name := "b"; Plugin.Score := 60 |} 0
                  {| Plugin.Name := "a"; Plugin.Score := 20 |}
                  {| Plugin.Name := "a"; Plugin.Score := 0 |}
                  ltac:(cbn; lia)
                  ltac:(repeat constructor; cbn; lia)
                  ltac:(left; reflexivity) ltac:(right; left; reflexivity)
                  ltac:(cbn; lia) eq_refl eq_refl)).
  repeat constructor; cbn; lia.
Defined.

(** X8.  [NormalizeScore] is idempotent on scores between 0 and
    [maxScore]: a second call changes nothing. *)
Theorem normalize_twice (p : Plugin.Plugin) (scores : list Plugin.NodeScore) :
  0 <= Plugin.maxScore p <= 2 ^ 31 ->
  Forall (fun ns => 0 <= Plugin.Score ns <= Plugin.maxScore p) scores ->
  Plugin.NormalizeScore p (Plugin.NormalizeScore p scores) =
  Plugin.NormalizeScore p scores.
Proof.
  intros HM Hin.
  destruct (Z.eq_dec (Plugin.highestOf scores)
                     (Plugin.lowestOf (Plugin.maxScore p) scores)) as [Heq|Hne].
  - assert (Hsame : Plugin.NormalizeScore p scores = scores).
    { rewrite NormalizeScore_map.
      replace (_ =? _) with true by (symmetry; apply Z.eqb_eq; exact Heq).
      reflexivity. }
    rewrite !Hsame. reflexivity.
  - destruct scores as [|n0 rest] eqn:Es; [rewrite !NormalizeScore_nil; reflexivity|].
    rewrite <- Es in *. assert (Hnonempty : scores <> []) by (rewrite Es; discriminate).
    clear Es.
    destruct (normalize_runs p scores HM Hin Hne Hnonempty)
      as (Hlt & HL & HH & Hall & Hout).
    pose proof (normalized_in_range p scores HM Hin) as Hrange.
    set (out := Plugin.NormalizeScore p scores) in *.
    set (M := Plugin.maxScore p) in *.
    set (L := Plugin.lowestOf M scores) in *.
    set (H := Plugin.highestOf scores) in *.
    destruct (highest_fold scores 0) as (_ & Hhall & Hhex).
    destruct (lowest_fold scores M) as (_ & Hlall & Hlex).
    fold (Plugin.highestOf scores) in Hhall, Hhex. fold H in Hhall, Hhex.
    fold (Plugin.lowestOf M scores) in Hlall, Hlex. fold L in Hlall, Hlex.
    rewrite List.Forall_forall in Hall, Hin.
    assert (HexH : exists ns, In ns scores /\ Plugin.Score ns = H).
    { destruct Hhex as [H0|Hex]; [|apply List.Exists_exists in Hex; exact Hex].
      destruct scores as [|ns ?]; [congruence|]. exists ns.
      split; [left; reflexivity|].
      pose proof (Hall ns (or_introl eq_refl)).
      pose proof (Hin ns (or_introl eq_refl)). cbn in *. lia. }
    assert (HexL : exists ns, In ns scores /\ Plugin.Score ns = L).
    { destruct Hlex as [H0|Hex]; [|apply List.Exists_exists in Hex; exact Hex].
      destruct scores as [|ns ?]; [congruence|]. exists ns.
      split; [left; reflexivity|].
      pose proof (Hall ns (or_introl eq_refl)).
      pose proof (Hin ns (or_introl eq_refl)). cbn in *. lia. }
    destruct HexH as (nh & Hnh & Hsh). destruct HexL as (nl & Hnl & Hsl).
    assert (HinM : In {| Plugin.Name := Plugin.Name nh; Plugin.Score := M |} out).
    { rewrite Hout. apply in_map_iff. exists nh. split; [|exact Hnh].
      f_equal. rewrite Hsh, Z.mul_comm. apply Z.div_mul. lia. }
    assert (Hin0 : In {| Plugin.Name := Plugin.Name nl; Plugin.Score := 0 |} out).
    { rewrite Hout. apply in_map_iff. exists nl. split; [|exact Hnl].
      f_equal. rewrite Hsl, Z.sub_diag, Z.mul_0_l. apply Z.div_0_l. lia. }
    assert (Hne2 : Plugin.highestOf out <> Plugin.lowestOf M out).
    { apply (two_scores_differ p out _ _ ltac:(lia) Hrange HinM Hin0). cbn. lia. }
    assert (Hnil2 : out <> []) by (intros E; rewrite E in HinM; destruct HinM).
    destruct (normalize_runs p out HM Hrange Hne2 Hnil2)
      as (Hlt2 & HL2 & HH2 & Hall2 & Hout2).
    fold M in Hlt2, HL2, HH2, Hall2, Hout2.
    rewrite List.Forall_forall in Hall2.
    pose proof (Hall2 _ HinM) as HM2. pose proof (Hall2 _ Hin0) as H02. cbn in HM2, H02.
    assert (Plugin.highestOf out = M) as EH by lia.
    assert (Plugin.lowestOf M out = 0) as EL by lia.
    rewrite Hout2, EH, EL.
    rewrite <- (map_id out) at 2. apply map_ext_in. intros [nm sc] Hns.
    cbn [Plugin.Name Plugin.Score]. f_equal.
    rewrite Z.sub_0_r, Z.sub_0_r. apply Z.div_mul. lia.
Qed.

Lemma normalize_twice_witness :
  let p := {| Plugin.promClient := None; Plugin.alpha := half;
              Plugin.maxScore := 100; Plugin.nodeStats := ∅ |} in
  let scores := [ {| Plugin.Name := "a"; Plugin.Score := 20 |};
                  {| Plugin.Name := "b"; Plugin.Score := 60 |} ] in
  Plugin.NormalizeScore p (Plugin.NormalizeScore p scores) =
  Plugin.NormalizeScore p scores.
Proof.
  intros p scores. apply normalize_twice.
  - cbn. lia.
  - repeat constructor; cbn; lia.
Defined.

(** ** Preemption *)

Section Preemption2.

Import Preemptive.

Lemma insert_perm (x : RunningPod) (l : list RunningPod) :
  Permutation (insertByPriority x l) (x :: l).
Proof.
  induction l as [|y ys IH]; cbn [insertByPriority]; [reflexivity|].
  destruct (Priority x <? Priority y); [reflexivity|].
  rewrite IH. apply perm_swap.
Qed.

Lemma insert_sorted (x : RunningPod) (l : list RunningPod) :
  StronglySorted byPriority l -> StronglySorted byPriority (insertByPriority x l).
Proof.
  induction 1 as [|y ys Hs IH Hy]; cbn [insertByPriority].
  - repeat constructor.
  - destruct (Z.ltb_spec (Priority x) (Priority y)) as [Hlt|Hge].
    + constructor; [constructor; assumption|].
      constructor; [unfold byPriority; lia|].
      eapply Forall_impl; [exact Hy|]. unfold byPriority. intros; lia.
    + constructor; [exact IH|].
      rewrite List.Forall_forall in Hy |- *. intros z Hz.
      apply (Permutation_in _ (insert_perm x ys)) in Hz.
      destruct Hz as [<-|Hz]; [exact Hge|apply Hy, Hz].
Qed.

Lemma sort_from (l acc : list RunningPod) :
  StronglySorted byPriority acc ->
  let r := fold_left (fun sorted x => insertByPriority x sorted) l acc in
  Permutation r (acc ++ l) /\ StronglySorted byPriority r.
Proof.
  revert acc. induction l as [|x l IH]; intros acc Hacc; cbn [fold_left].
  - rewrite app_nil_r. split; [reflexivity|exact Hacc].
  - destruct (IH (insertByPriority x acc) (insert_sorted x acc Hacc)) as [Hp Hs].
    split; [|exact Hs]. cbn zeta in Hp. rewrite Hp, insert_perm.
    apply Permutation_middle.
Qed.

Lemma freed_snoc (amount : RunningPod -> float64) (vs : list RunningPod)
      (c : RunningPod) :
  freed amount (vs ++ [c]) = (freed amount vs + amount c)%f64.
Proof. unfold freed. rewrite fold_left_app. reflexivity. Qed.

(** The eviction loop stops at the first call that fails. *)
Lemma evictAll_spec (client : Client) (l : list RunningPod) :
  (evictAll client l = (true, l)
   /\ Forall (fun v => evictPod client v = false) l)
  \/ (exists ev v rest,
         l = ev ++ v :: rest /\ evictAll client l = (false, ev)
         /\ evictPod client v = true
         /\ Forall (fun v => evictPod client v = false) ev).
Proof.
  induction l as [|v l IH]; cbn [evictAll].
  - left. split; [reflexivity|constructor].
  - destruct (evictPod client v) eqn:Ev.
    + right. exists [], v, l. repeat split; try assumption. constructor.
    + destruct IH as [[-> Hall]|(ev & w & rest & -> & -> & Hw & Hall)].
      * left. split; [reflexivity|]. constructor; assumption.
      * right. exists (v :: ev), w, rest. repeat split; try assumption.
        constructor; assumption.
Qed.

(** The accumulation loop: it takes candidates in order until the victims
    cover the demand, and evicts them then. *)
Lemma accumulate_spec (client : Client) (pod : PodRequest) (stats : NodeStats)
      (cands vs : list RunningPod) :
  let r := accumulate client pod stats
             (freed CPURequest vs) (freed MemRequest vs) vs cands in
  (r = (false, [])
   /\ forall k, (1 <= k <= length cands)%nat ->
                covers pod stats (vs ++ firstn k cands) = false)
  \/ (exists k, (1 <= k <= length cands)%nat
                /\ covers pod stats (vs ++ firstn k cands) = true
                /\ (forall j, (1 <= j < k)%nat ->
                              covers pod stats (vs ++ firstn j cands) = false)
                /\ r = evictAll client (vs ++ firstn k cands)).
Proof.
  revert vs. induction cands as [|c cands IH]; intros vs; cbn [accumulate].
  - left. split; [reflexivity|]. intros k Hk. cbn in Hk. lia.
  - rewrite <- !freed_snoc. fold (covers pod stats (vs ++ [c])).
    destruct (covers pod stats (vs ++ [c])) eqn:Hc.
    + right. exists 1%nat. cbn [length firstn].
      split; [lia|]. split; [exact Hc|]. split; [intros j Hj; lia|reflexivity].
    + specialize (IH (vs ++ [c])). cbn zeta in IH.
      destruct IH as [[-> Hall]|(k & Hk & Hck & Hbefore & ->)].
      * left. split; [reflexivity|]. intros k Hk. destruct k as [|k]; [lia|].
        cbn [firstn]. destruct k as [|k].
        -- cbn [firstn]. exact Hc.
        -- specialize (Hall (S k) ltac:(cbn in Hk; lia)).
           rewrite <- app_assoc in Hall. exact Hall.
      * right. exists (S k). cbn [length firstn].
        rewrite <- app_assoc in Hck. cbn [app] in Hck.
        split; [lia|]. split; [exact Hck|]. split.
        -- intros j Hj. destruct j as [|j]; [lia|]. cbn [firstn].
           destruct j as [|j]; [exact Hc|].
           specialize (Hbefore (S j) ltac:(lia)).
           rewrite <- app_assoc in Hbefore. exact Hbefore.
        -- rewrite <- app_assoc. reflexivity.
Qed.

(** [attemptPreemptionMulti] in terms of the sorted candidates. *)
Lemma attempt_spec (client : Client) (pod : PodRequest) (nodeName : string)
      (stats : NodeStats) :
  let sorted := sortByPriority (candidatesOf client pod nodeName) in
  (attemptPreemptionMulti client pod nodeName stats = (false, [])
   /\ forall k, (1 <= k <= length sorted)%nat ->
                covers pod stats (firstn k sorted) = false)
  \/ (exists k, (1 <= k <= length sorted)%nat
                /\ covers pod stats (firstn k sorted) = true
                /\ (forall j, (1 <= j < k)%nat ->
                              covers pod stats (firstn j sorted) = false)
                /\ attemptPreemptionMulti client pod nodeName stats
                   = evictAll client (firstn k sorted))
  \/ (listFails client = true
      /\ attemptPreemptionMulti client pod nodeName stats = (false, [])).
Proof.
  cbn zeta. unfold attemptPreemptionMulti, candidatesOf, getRunningPods.
  destruct (listFails client) eqn:Hl.
  - right. right. split; reflexivity.
  - destruct (List.filter _ (map toRunningPod _)) as [|c cands'].
    + left. split; [reflexivity|]. intros k Hk. cbn in Hk. lia.
    + pose proof (accumulate_spec client pod stats
                    (sortByPriority (c :: cands')) []) as Hs.
      cbn zeta in Hs. cbn [app] in Hs.
      change (freed CPURequest []) with F64.zero in Hs.
      change (freed MemRequest []) with F64.zero in Hs.
      destruct Hs as [Hs|Hs]; [left|right; left]; exact Hs.
Qed.

Lemma candidate_origin (client : Client) (pod : PodRequest) (nodeName : string)
      (v : RunningPod) :
  In v (candidatesOf client pod nodeName) ->
  Priority v < Types.Priority pod
  /\ exists p, In p (pods client) /\ toRunningPod p = v
               /\ v1.NodeName (v1.Spec p) = nodeName
               /\ v1.Phase p = v1.PodRunning.
Proof.
  unfold candidatesOf, getRunningPods. destruct (listFails client); [intros []|].
  intros Hv. apply filter_In in Hv as [Hv Hp]. apply Z.ltb_lt in Hp.
  split; [exact Hp|].
  apply in_map_iff in Hv as (p & Hpv & Hin).
  apply filter_In in Hin as [Hin Hphase]. apply filter_In in Hin as [Hin Hnode].
  exists p. split; [exact Hin|]. split; [exact Hpv|].
  split; [apply String.eqb_eq; exact Hnode|].
  destruct (v1.Phase p); try discriminate; reflexivity.
Qed.

(** The pods evicted are the first ones of the sorted candidates. *)
Lemma evicted_prefix (client : Client) (pod : PodRequest) (nodeName : string)
      (stats : NodeStats) (ok : bool) (evicted : list RunningPod) :
  attemptPreemptionMulti client pod nodeName stats = (ok, evicted) ->
  exists rest, sortByPriority (candidatesOf client pod nodeName) = evicted ++ rest
               /\ Forall (fun v => evictPod client v = false) evicted.
Proof.
  intros Hr.
  destruct (attempt_spec client pod nodeName stats)
    as [[Hf _]|[(k & Hk & Hc & Hb & He)|[_ Hf]]].
  - rewrite Hf in Hr. injection Hr as <- <-. eexists. split; [reflexivity|constructor].
  - rewrite He in Hr.
    set (sorted := sortByPriority (candidatesOf client pod nodeName)) in *.
    destruct (evictAll_spec client (firstn k sorted))
      as [[Ha Hall]|(ev & w & rest & Hsplit & Ha & Hw & Hall)].
    + rewrite Ha in Hr. injection Hr as <- <-.
      exists (skipn k sorted). split; [symmetry; apply firstn_skipn|exact Hall].
    + rewrite Ha in Hr. injection Hr as <- <-.
      exists (w :: rest ++ skipn k sorted). split; [|exact Hall].
      rewrite <- (firstn_skipn k sorted) at 1. rewrite Hsplit, <- app_assoc.
      reflexivity.
  - rewrite Hf in Hr. injection Hr as <- <-. eexists. split; [reflexivity|constructor].
Qed.

Lemma evicted_origin (client : Client) (pod : PodRequest) (nodeName : string)
      (stats : NodeStats) (ok : bool) (evicted : list RunningPod) :
  attemptPreemptionMulti client pod nodeName stats = (ok, evicted) ->
  Forall (fun v =>
            Priority v < Types.Priority pod
            /\ exists p, In p (pods client) /\ toRunningPod p = v
                         /\ v1.NodeName (v1.Spec p) = nodeName
                         /\ v1.Phase p = v1.PodRunning) evicted.
Proof.
  intros Hr. destruct (evicted_prefix _ _ _ _ _ _ Hr) as (rest & Hsplit & _).
  apply List.Forall_forall. intros v Hv.
  apply (candidate_origin client pod nodeName).
  destruct (sort_from (candidatesOf client pod nodeName) [] ltac:(constructor))
    as [Hp _].
  apply (Permutation_in _ Hp).
  fold (sortByPriority (candidatesOf client pod nodeName)).
  rewrite Hsplit. apply in_or_app. left. exact Hv.
Qed.

Lemma accumulate_ext (client : Client) (pod pod' : PodRequest)
      (stats stats' : NodeStats) (cands : list RunningPod) :
  CPU pod = CPU pod' -> Mem pod = Mem pod' ->
  CPUFree stats = CPUFree stats' -> MemFree stats = MemFree stats' ->
  forall fc fm vs,
    accumulate client pod stats fc fm vs cands =
    accumulate client pod' stats' fc fm vs cands.
Proof.
  intros Hc Hm Hcf Hmf. induction cands as [|c cands IH]; intros fc fm vs;
    cbn [accumulate]; [reflexivity|].
  rewrite Hc, Hm, Hcf, Hmf, IH. reflexivity.
Qed.

End Preemption2.

(** X9.  The candidates for preemption are taken in ascending priority:
    sorting keeps every candidate, once each, and puts no pod before one of
    lower priority. *)
Theorem candidates_sorted_by_priority (l : list Preemptive.RunningPod) :
  Permutation (Preemptive.sortByPriority l) l
  /\ StronglySorted byPriority (Preemptive.sortByPriority l).
Proof.
  destruct (sort_from l [] ltac:(constructor)) as [Hp Hs]. split; assumption.
Qed.

(** X10.  [attemptPreemptionMulti] evicts only pods of the cluster that
    run on the node in phase Running and whose priority is below the one of
    the demand. *)
Theorem victims_are_lower_priority_pods
        (client : Preemptive.Client) (pod : PodRequest) (nodeName : string)
        (stats : NodeStats) :
  Forall (fun v =>
            Preemptive.Priority v < Types.Priority pod
            /\ exists p, In p (Preemptive.pods client)
                         /\ Preemptive.toRunningPod p = v
                         /\ v1.NodeName (v1.Spec p) = nodeName
                         /\ v1.Phase p = v1.PodRunning)
         (snd (Preemptive.attemptPreemptionMulti client pod nodeName stats)).
Proof.
  destruct (Preemptive.attemptPreemptionMulti client pod nodeName stats)
    as [ok evicted] eqn:Hr. cbn [snd].
  exact (evicted_origin client pod nodeName stats ok evicted Hr).
Qed.

(** X11.  The pods of lowest priority go first: the pods evicted, followed
    by the candidates that were spared, are the candidates in ascending
    priority. *)
Theorem lowest_priority_first
        (client : Preemptive.Client) (pod : PodRequest) (nodeName : string)
        (stats : NodeStats) :
  exists spared,
    Permutation
      (snd (Preemptive.attemptPreemptionMulti client pod nodeName stats) ++ spared)
      (candidatesOf client pod nodeName)
    /\ StronglySorted byPriority
         (snd (Preemptive.attemptPreemptionMulti client pod nodeName stats)
          ++ spared).
Proof.
  destruct (Preemptive.attemptPreemptionMulti client pod nodeName stats)
    as [ok evicted] eqn:Hr. cbn [snd].
  destruct (evicted_prefix _ _ _ _ _ _ Hr) as (rest & Hsplit & _).
  exists rest. rewrite <- Hsplit.
  destruct (sort_from (candidatesOf client pod nodeName) [] ltac:(constructor))
    as [Hp Hs]. split; assumption.
Qed.

(** X12.  When [attemptPreemptionMulti] returns true it has evicted at
    least one pod, every eviction call went through, the CPU and memory that
    the victims requested cover the demand together with what was free, and
    no shorter run of victims would have. *)
Theorem preemption_success
        (client : Preemptive.Client) (pod : PodRequest) (nodeName : string)
        (stats : NodeStats) (evicted : list Preemptive.RunningPod) :
  Preemptive.attemptPreemptionMulti client pod nodeName stats = (true, evicted) ->
  evicted <> []
  /\ Forall (fun v => Preemptive.evictPod client v = false) evicted
  /\ covers pod stats evicted = true
  /\ (forall j, (1 <= j < length evicted)%nat ->
                covers pod stats (firstn j evicted) = false).
Proof.
  intros Hr.
  destruct (attempt_spec client pod nodeName stats)
    as [[Hf _]|[(k & Hk & Hc & Hb & He)|[_ Hf]]]; try congruence.
  set (sorted := Preemptive.sortByPriority (candidatesOf client pod nodeName)) in *.
  rewrite He in Hr.
  destruct (evictAll_spec client (firstn k sorted))
    as [[Ha Hall]|(ev & w & rest & Hsplit & Ha & Hw & Hall)]; [|congruence].
  rewrite Ha in Hr. injection Hr as <-.
  assert (Hlen : length (firstn k sorted) = k) by (apply firstn_length_le; lia).
  split; [intros E; rewrite E in Hlen; cbn in Hlen; lia|].
  split; [exact Hall|]. split; [exact Hc|].
  intros j Hj. rewrite Hlen in Hj. rewrite firstn_firstn.
  replace (Nat.min j k) with j by lia. apply Hb. lia.
Qed.

Lemma preemption_success_witness :
  covers testDemand testNode [lowRunning "low-pod-1"; lowRunning "low-pod-2"] = true.
Proof.
  apply (preemption_success testClient testDemand "node1" testNode
           [lowRunning "low-pod-1"; lowRunning "low-pod-2"]).
  vm_compute. reflexivity.
Defined.

(** X13.  While no eviction call fails, an attempt that returns false has
    evicted nothing. *)
Theorem failed_attempt_evicts_nothing
        (client : Preemptive.Client) (pod : PodRequest) (nodeName : string)
        (stats : NodeStats) (evicted : list Preemptive.RunningPod) :
  (forall namespace name, Preemptive.evictFails client namespace name = false) ->
  Preemptive.attemptPreemptionMulti client pod nodeName stats = (false, evicted) ->
  evicted = [].
Proof.
  intros Hnofail Hr.
  destruct (attempt_spec client pod nodeName stats)
    as [[Hf _]|[(k & Hk & Hc & Hb & He)|[_ Hf]]]; try congruence.
  rewrite He in Hr.
  destruct (evictAll_spec client
              (firstn k (Preemptive.sortByPriority (candidatesOf client pod nodeName))))
    as [[Ha Hall]|(ev & w & rest & Hsplit & Ha & Hw & Hall)]; [congruence|].
  unfold Preemptive.evictPod in Hw. rewrite Hnofail in Hw. discriminate.
Qed.

Lemma failed_attempt_evicts_nothing_witness :
  @nil Preemptive.RunningPod = [].
Proof.
  apply (failed_attempt_evicts_nothing
           testClient (demandOf (F64.of_int 1) (F64.of_int (1 * F64.GiB)) 1)
           "node1" testNode []).
  - intros namespace name. reflexivity.
  - vm_compute. reflexivity.
Defined.

(** X14.  [attemptPreemptionMulti] looks at the CPU, the memory and the
    priority of the demand and at the free CPU and memory of the node, and
    at nothing else: disk and network demand, capacities and the threshold
    alpha play no part in the choice of victims. *)
Theorem preemption_ignores_io
        (client : Preemptive.Client) (pod pod' : PodRequest) (nodeName : string)
        (stats stats' : NodeStats) :
  CPU pod = CPU pod' -> Mem pod = Mem pod' ->
  Types.Priority pod = Types.Priority pod' ->
  CPUFree stats = CPUFree stats' -> MemFree stats = MemFree stats' ->
  Preemptive.attemptPreemptionMulti client pod nodeName stats =
  Preemptive.attemptPreemptionMulti client pod' nodeName stats'.
Proof.
  intros Hc Hm Hp Hcf Hmf. unfold Preemptive.attemptPreemptionMulti.
  rewrite Hp. destruct (Preemptive.getRunningPods client nodeName); [|reflexivity].
  destruct (List.filter _ l); [reflexivity|].
  apply accumulate_ext; assumption.
Qed.

Lemma preemption_ignores_io_witness :
  Preemptive.attemptPreemptionMulti testClient testDemand "node1" testNode =
  Preemptive.attemptPreemptionMulti testClient testDemand "node1"
    (setFree netUp (F64.of_int 7) testNode).
Proof.
  apply preemption_ignores_io; reflexivity.
Defined.

(** ** Filter and Prioritize of the extender *)

Section Filtering.
Import Extender.

Lemma filterNodes_step (e : MultiResourceExtender) (pod : v1.Pod)
      (n : string) (nodes passed : list string) (failed : gmap string string) :
  filterNodes e pod (n :: nodes) passed failed =
  match verdict e pod n with
  | None => filterNodes e pod nodes (passed ++ [n]) failed
  | Some reason => filterNodes e pod nodes passed (<[n := reason]> failed)
  end.
Proof.
  cbn [filterNodes]. unfold verdict.
  destruct (getNodeStatsFromCache e n); [|reflexivity].
  destruct (CanScheduleMulti _ _ _); reflexivity.
Qed.

Lemma decide_cons (node n : string) (nodes : list string) :
  n <> node ->
  bool_decide (node ∈ n :: nodes) = bool_decide (node ∈ nodes).
Proof.
  intros Hne. apply bool_decide_ext. rewrite elem_of_cons.
  split; [intros [?|?]; [congruence|assumption]|tauto].
Qed.

Lemma filterNodes_spec (e : MultiResourceExtender) (pod : v1.Pod)
      (nodes : list string) :
  forall (passed : list string) (failed : gmap string string),
    let r := filterNodes e pod nodes passed failed in
    Nodes r = passed ++ List.filter (passes e pod) nodes
    /\ forall node,
        FailedNodes r !! node =
        match verdict e pod node with
        | Some reason => if bool_decide (node ∈ nodes) then Some reason
                         else failed !! node
        | None => failed !! node
        end.
Proof.
  induction nodes as [|n nodes IH]; intros passed failed.
  - cbn. rewrite app_nil_r. split; [reflexivity|]. intros node.
    destruct (verdict e pod node); [|reflexivity].
    rewrite bool_decide_eq_false_2 by apply not_elem_of_nil. reflexivity.
  - cbn zeta. rewrite filterNodes_step. cbn [List.filter]. unfold passes at 1.
    destruct (verdict e pod n) as [reason|] eqn:Hn.
    + destruct (IH passed (<[n := reason]> failed)) as [HN HF].
      cbn zeta in HN, HF. split; [exact HN|]. intros node. rewrite HF.
      destruct (decide (n = node)) as [->|Hne].
      * rewrite Hn, lookup_insert_eq.
        rewrite (bool_decide_eq_true_2 (node ∈ node :: nodes))
          by (apply elem_of_cons; tauto).
        destruct (bool_decide _); reflexivity.
      * rewrite lookup_insert_ne by exact Hne.
        rewrite decide_cons by exact Hne. reflexivity.
    + destruct (IH (passed ++ [n]) failed) as [HN HF]. cbn zeta in HN, HF.
      split; [rewrite HN, <- app_assoc; reflexivity|].
      intros node. rewrite HF.
      destruct (verdict e pod node) as [reason|] eqn:Hv; [|reflexivity].
      rewrite decide_cons by congruence. reflexivity.
Qed.

End Filtering.

(** X15.  [Filter] keeps, in their order, exactly the nodes whose cached
    state passes [CanScheduleMulti]; every other node of the request is
    recorded once in [FailedNodes] with its reason, and no node is in both. *)
Theorem filter_partitions_nodes
        (e : Extender.MultiResourceExtender) (pod : v1.Pod) (nodes : list string) :
  Extender.Nodes (Extender.Filter e pod nodes) = List.filter (passes e pod) nodes
  /\ forall node,
      Extender.FailedNodes (Extender.Filter e pod nodes) !! node =
      if bool_decide (node ∈ nodes) then verdict e pod node else None.
Proof.
  destruct (filterNodes_spec e pod nodes [] ∅) as [HN HF]. cbn zeta in HN, HF.
  split; [exact HN|]. intros node. unfold Extender.Filter. rewrite HF.
  rewrite lookup_empty.
  destruct (verdict e pod node); destruct (bool_decide _); reflexivity.
Qed.

(** X16.  An extender that has just been created has no node state yet:
    [Filter] turns every node down for lack of statistics and [Prioritize]
    scores every node 0, whatever the environment and the pod. *)
Theorem fresh_extender_knows_no_node
        (env : gmap string string) (pod : v1.Pod) (nodes : list string) :
  let e := Extender.NewMultiResourceExtender env in
  Extender.Nodes (Extender.Filter e pod nodes) = []
  /\ (forall node, node ∈ nodes ->
        Extender.FailedNodes (Extender.Filter e pod nodes) !! node =
        Some ("error retrieving stats: node stats not available for " ++ node)%string)
  /\ Extender.Prioritize e pod nodes = map (fun node => (node, 0)) nodes.
Proof.
  intros e.
  assert (Hv : forall node, verdict e pod node =
             Some ("error retrieving stats: node stats not available for "
                   ++ node)%string).
  { intros node. unfold verdict, Extender.getNodeStatsFromCache, e,
      Extender.NewMultiResourceExtender. cbn [Extender.nodeStats].
    rewrite lookup_empty. reflexivity. }
  destruct (filterNodes_spec e pod nodes [] ∅) as [HN HF]. cbn zeta in HN, HF.
  fold (Extender.Filter e pod nodes) in HN, HF.
  split; [|split].
  - rewrite HN. cbn [app]. clear HN HF.
    induction nodes as [|n nodes IH]; [reflexivity|].
    cbn [List.filter]. unfold passes at 1. rewrite Hv. exact IH.
  - intros node Hin. rewrite HF, Hv, bool_decide_eq_true_2 by exact Hin.
    reflexivity.
  - unfold Extender.Prioritize. apply map_ext. intros node.
    unfold Extender.getNodeStatsFromCache, e, Extender.NewMultiResourceExtender.
    cbn [Extender.nodeStats]. rewrite lookup_empty. reflexivity.
Qed.

(** ** Placement *)

Section PlacementFacts.
Import Preemptive Placement.

Lemma extracted_sums (pod : v1.Pod) :
  Placement.extractPodRequirements pod =
  {| CPU := sumRequests v1.ResourceCPU cpuCores (v1.Containers (v1.Spec pod));
     Mem := sumRequests v1.ResourceMemory memBytes (v1.Containers (v1.Spec pod));
     DiskRead := F64.zero; DiskWrite := F64.zero;
     NetUp := F64.zero; NetDown := F64.zero;
     Types.Priority := default 0 (v1.Priority (v1.Spec pod)) |}.
Proof.
  unfold Placement.extractPodRequirements, sumRequests.
  match goal with |- context [fold_left ?f _ (F64.zero, F64.zero)] => set (step := f) end.
  assert (H : forall cs c0 m0,
             fold_left step cs (c0, m0) =
             (fold_left
                (fun acc c =>
                   match v1.Requests c with
                   | Some rl => match rl !! v1.ResourceCPU with
                                | Some q => (acc + cpuCores q)%f64
                                | None => acc
                                end
                   | None => acc
                   end) cs c0,
              fold_left
                (fun acc c =>
                   match v1.Requests c with
                   | Some rl => match rl !! v1.ResourceMemory with
                                | Some q => (acc + memBytes q)%f64
                                | None => acc
                                end
                   | None => acc
                   end) cs m0)).
  { induction cs as [|c cs IH]; intros c0 m0; [reflexivity|].
    cbn [fold_left]. rewrite <- IH. f_equal. unfold step.
    destruct (v1.Requests c) as [rl|]; [|reflexivity].
    destruct (rl !! v1.ResourceCPU), (rl !! v1.ResourceMemory); reflexivity. }
  rewrite H. destruct (v1.Priority (v1.Spec pod)); reflexivity.
Qed.

Lemma findLoop_evicted_grows (client : Client) (fetch : nat -> Metrics)
      (podReq : PodRequest) (alpha : float64) (enablePreemption : bool)
      (nodes : list Node) :
  forall k evicted,
    exists more,
      snd (findLoop client fetch podReq alpha enablePreemption nodes k evicted)
      = evicted ++ more
      /\ Forall (fun v => Priority v < Types.Priority podReq) more
      /\ (enablePreemption = false -> more = []).
Proof.
  induction nodes as [|node rest IH]; intros k evicted; cbn [findLoop].
  - exists []. rewrite app_nil_r. repeat split; constructor.
  - destruct (negb (isNodeReady node) || Unschedulable node); [apply IH|].
    destruct (fst (canScheduleMulti podReq _ alpha)).
    { exists []. rewrite app_nil_r. repeat split; constructor. }
    destruct enablePreemption; [|apply IH].
    destruct (attemptPreemptionMulti client podReq (NodeName node) _)
      as [ok victims] eqn:Hatt.
    assert (Hv : Forall (fun v => Priority v < Types.Priority podReq) victims).
    { pose proof (evicted_origin client podReq (NodeName node) _ _ _ Hatt) as H.
      eapply Forall_impl; [exact H|]. intros v Hv. apply Hv. }
    assert (Hstep : forall k',
              exists more,
                snd (findLoop client fetch podReq alpha true rest k'
                       (evicted ++ victims)) = evicted ++ more
                /\ Forall (fun v => Priority v < Types.Priority podReq) more
                /\ (true = false -> more = [])).
    { intros k'. destruct (IH k' (evicted ++ victims)) as (more & Hm & Hf & _).
      exists (victims ++ more). rewrite Hm, app_assoc.
      split; [reflexivity|]. split; [|discriminate].
      apply Forall_app. split; assumption. }
    destruct ok; [|apply Hstep].
    destruct (fst (canScheduleMulti podReq _ alpha)); [|apply Hstep].
    exists victims. cbn [snd]. split; [reflexivity|]. split; [exact Hv|discriminate].
Qed.

Lemma findLoop_result (client : Client) (fetch : nat -> Metrics)
      (podReq : PodRequest) (alpha : float64) (enablePreemption : bool)
      (nodes : list Node) :
  forall k evicted,
    let name := fst (findLoop client fetch podReq alpha enablePreemption
                       nodes k evicted) in
    name = EmptyString
    \/ exists node k',
        In node nodes /\ NodeName node = name /\ eligible node = true
        /\ fst (canScheduleMulti podReq (getNodeStats (fetch k') name) alpha) = true.
Proof.
  induction nodes as [|node rest IH]; intros k evicted; cbn [findLoop].
  - left. reflexivity.
  - assert (Hrest : forall k' ev,
              let name := fst (findLoop client fetch podReq alpha enablePreemption
                                 rest k' ev) in
              name = EmptyString
              \/ exists n k'',
                  In n (node :: rest) /\ NodeName n = name /\ eligible n = true
                  /\ fst (canScheduleMulti podReq (getNodeStats (fetch k'') name)
                            alpha) = true).
    { intros k' ev. destruct (IH k' ev) as [H|(n & k'' & Hin & Hn & He & Hc)].
      - left. exact H.
      - right. exists n, k''. repeat split; try assumption. right. exact Hin. }
    destruct (negb (isNodeReady node) || Unschedulable node) eqn:Hskip;
      [apply Hrest|].
    assert (Hel : eligible node = true).
    { unfold eligible. apply orb_false_elim in Hskip as [Hr Hu].
      apply negb_false_iff in Hr. rewrite Hr, Hu. reflexivity. }
    destruct (fst (canScheduleMulti podReq (getNodeStats (fetch k) (NodeName node))
                     alpha)) eqn:Hc.
    { right. exists node, k. cbn [fst]. repeat split; try assumption.
      left. reflexivity. }
    destruct enablePreemption; [|apply Hrest].
    destruct (attemptPreemptionMulti client podReq (NodeName node) _)
      as [ok victims].
    destruct ok; [|apply Hrest].
    destruct (fst (canScheduleMulti podReq
                     (getNodeStats (fetch (S k)) (NodeName node)) alpha)) eqn:Hc2;
      [|apply Hrest].
    right. exists node, (S k). cbn [fst]. repeat split; try assumption.
    left. reflexivity.
Qed.

(** Without preemption and with a metrics source that answers alike every
    time, the loop is a search. *)
Lemma findLoop_first_fit (client : Client) (prom : Metrics)
      (podReq : PodRequest) (alpha : float64) (nodes : list Node) :
  forall k evicted,
    findLoop client (fun _ => prom) podReq alpha false nodes k evicted =
    (match List.find
             (fun node =>
                eligible node
                && fst (canScheduleMulti podReq
                          (getNodeStats prom (NodeName node)) alpha)) nodes with
     | Some node => NodeName node
     | None => EmptyString
     end, evicted).
Proof.
  induction nodes as [|node rest IH]; intros k evicted; cbn [findLoop List.find];
    [reflexivity|].
  unfold eligible at 1.
  destruct (isNodeReady node); cbn [negb orb andb]; [|apply IH].
  destruct (Unschedulable node); cbn [negb orb andb]; [apply IH|].
  destruct (fst (canScheduleMulti podReq _ alpha)); [reflexivity|apply IH].
Qed.

End PlacementFacts.

(** X17.  The demand that the watch-and-bind scheduler extracts from a pod
    has no disk or network part, so admission and score of a pending pod
    depend on the CPU and memory of the node only. *)
Theorem pending_pods_ask_cpu_and_memory
        (pod : v1.Pod) (stats stats' : NodeStats) (α : float64) (maxScore : Z) :
  CPUFree stats = CPUFree stats' -> CPUTotal stats = CPUTotal stats' ->
  MemFree stats = MemFree stats' -> MemTotal stats = MemTotal stats' ->
  Preemptive.canScheduleMulti (Placement.extractPodRequirements pod) stats α =
  Preemptive.canScheduleMulti (Placement.extractPodRequirements pod) stats' α
  /\ Preemptive.scoreMultiResource (Placement.extractPodRequirements pod) stats maxScore =
     Preemptive.scoreMultiResource (Placement.extractPodRequirements pod) stats' maxScore.
Proof.
  intros Hcf Hct Hmf Hmt. unfold Placement.extractPodRequirements.
  destruct (fold_left _ _ _) as [cpuReq memReq].
  unfold Preemptive.canScheduleMulti, Preemptive.resources,
    Preemptive.scoreMultiResource, Preemptive.scoreResources.
  cbn [CPU Mem DiskRead DiskWrite NetUp NetDown].
  rewrite Hcf, Hct, Hmf, Hmt.
  cbn [Preemptive.checkResources Preemptive.checkOne Preemptive.req
       Preemptive.free Preemptive.total Preemptive.name
       Preemptive.dominantShareOf].
  split; [|reflexivity].
  destruct (cpuReq == F64.zero)%f64; destruct (memReq == F64.zero)%f64;
    repeat match goal with
           | |- context [if ?c then _ else _] => destruct c
           end; reflexivity.
Qed.

Lemma pending_pods_ask_cpu_and_memory_witness :
  Preemptive.canScheduleMulti
    (Placement.extractPodRequirements (lowPod "p")) roomyNode alpha08 =
  Preemptive.canScheduleMulti
    (Placement.extractPodRequirements (lowPod "p"))
    (setFree netUp F64.zero roomyNode) alpha08.
Proof.
  apply (pending_pods_ask_cpu_and_memory
           (lowPod "p") roomyNode (setFree netUp F64.zero roomyNode) alpha08 100);
    reflexivity.
Defined.

(** X18.  A pod is credited on preemption with what it asked when it was
    placed: [extractPodRequirements] and [getRunningPods] compute the same
    CPU, memory and priority for every pod. *)
Theorem demand_matches_running_pod (pod : v1.Pod) :
  CPU (Placement.extractPodRequirements pod)
  = Preemptive.CPURequest (Preemptive.toRunningPod pod)
  /\ Mem (Placement.extractPodRequirements pod)
     = Preemptive.MemRequest (Preemptive.toRunningPod pod)
  /\ Types.Priority (Placement.extractPodRequirements pod)
     = Preemptive.Priority (Preemptive.toRunningPod pod).
Proof.
  rewrite extracted_sums. repeat split.
Qed.

(** X19.  [findNodeForPod] returns the empty name or the name of a node of
    the list that is Ready and schedulable and whose state, as fetched, is
    accepted by [canScheduleMulti]; every pod it evicts on the way has a
    priority below the one of the demand. *)
Theorem found_node_is_eligible
        (client : Preemptive.Client) (nodes : list Placement.Node)
        (fetch : nat -> Metrics) (podReq : PodRequest) (α : float64)
        (enablePreemption : bool) (name : string)
        (evicted : list Preemptive.RunningPod) :
  Placement.findNodeForPod client (Some nodes) fetch podReq α enablePreemption
  = Some (name, evicted) ->
  (name = EmptyString
   \/ exists node k,
       In node nodes /\ Placement.NodeName node = name
       /\ Placement.isNodeReady node = true
       /\ Placement.Unschedulable node = false
       /\ fst (Preemptive.canScheduleMulti
                 podReq (Preemptive.getNodeStats (fetch k) name) α) = true)
  /\ Forall (fun v => Preemptive.Priority v < Types.Priority podReq) evicted.
Proof.
  unfold Placement.findNodeForPod. intros H. injection H as H.
  pose proof (findLoop_result client fetch podReq α enablePreemption nodes 0 []) as Hr.
  destruct (findLoop_evicted_grows client fetch podReq α enablePreemption nodes 0 [])
    as (more & Hm & Hf & _).
  rewrite H in Hr, Hm. cbn [fst snd app] in Hr, Hm. subst more.
  split; [|exact Hf].
  destruct Hr as [Hr|(node & k & Hin & Hn & He & Hc)]; [left; exact Hr|right].
  exists node, k. unfold Placement.eligible in He.
  apply andb_prop in He as [Hready Hu]. apply negb_true_iff in Hu.
  repeat split; assumption.
Qed.

Lemma found_node_is_eligible_witness :
  let node1 := {| Placement.NodeName := "node1"; Placement.Unschedulable := false;
                  Placement.Conditions :=
                    [{| Placement.Type_ := "Ready"; Placement.Status := "True" |}] |} in
  ("node1"%string = EmptyString
   \/ exists node (k : nat),
       In node [node1] /\ Placement.NodeName node = "node1"%string
       /\ Placement.isNodeReady node = true
       /\ Placement.Unschedulable node = false
       /\ fst (Preemptive.canScheduleMulti
                 noDemand (Preemptive.getNodeStats (outage) "node1") alpha08) = true)
  /\ Forall (fun v => Preemptive.Priority v < Types.Priority noDemand) [].
Proof.
  intros node1.
  apply (found_node_is_eligible testClient [node1] (fun _ => outage) noDemand
           alpha08 true "node1" []).
  vm_compute. reflexivity.
Defined.

(** X20.  With preemption switched off [findNodeForPod] evicts nothing,
    and, the metrics source answering alike throughout, returns the first
    node of the list that is Ready, schedulable and accepted. *)
Theorem placement_without_preemption
        (client : Preemptive.Client) (nodes : list Placement.Node)
        (fetch : nat -> Metrics) (podReq : PodRequest) (α : float64) :
  (exists name,
      Placement.findNodeForPod client (Some nodes) fetch podReq α false
      = Some (name, []))
  /\ forall prom,
      Placement.findNodeForPod client (Some nodes) (fun _ => prom) podReq α false
      = Some (match List.find
                      (fun node =>
                         Placement.eligible node
                         && fst (Preemptive.canScheduleMulti podReq
                                   (Preemptive.getNodeStats
                                      prom (Placement.NodeName node)) α)) nodes with
              | Some node => Placement.NodeName node
              | None => EmptyString
              end, []).
Proof.
  split.
  - unfold Placement.findNodeForPod.
    destruct (findLoop_evicted_grows client fetch podReq α false nodes 0 [])
      as (more & Hm & _ & Hnone).
    rewrite (Hnone eq_refl) in Hm. cbn [app] in Hm.
    destruct (Placement.findLoop client fetch podReq α false nodes 0 [])
      as [name ev]. cbn [snd] in Hm. subst ev. exists name. reflexivity.
  - intros prom. unfold Placement.findNodeForPod.
    rewrite findLoop_first_fit. reflexivity.
Qed.

(** ** The scheduling cycle of the plug-in *)

Section CycleFacts.
Import Plugin Cycle.

Lemma getNodeStats_store (p : Plugin) (n : string) (stats : NodeStats)
      (nodeName : string) :
  getNodeStats (store p n stats) nodeName = getNodeStats p nodeName.
Proof. reflexivity. Qed.

Lemma Filter_cases (p : Plugin) (pod : v1.Pod) (nodeName : string) :
  Filter p pod nodeName =
  match getNodeStatsFromCache p nodeName with
  | Some stats => (p, decision pod nodeName stats)
  | None =>
      match getNodeStats p nodeName with
      | Some stats => (store p nodeName stats, decision pod nodeName stats)
      | None => (p, Some {| code := Unschedulable;
                            reasons := "Failed to get node " ++ nodeName
                                       ++ " stats" |})
      end
  end.
Proof.
  unfold Filter, decision.
  destruct (getNodeStatsFromCache p nodeName); [destruct (negb _); reflexivity|].
  destruct (getNodeStats p nodeName); [destruct (negb _); reflexivity|reflexivity].
Qed.

Lemma update_lookup (p : Plugin) (nodes : list string) (n : string) :
  nodeStats (updateAllNodeStats p (Some nodes)) !! n =
  if bool_decide (n ∈ nodes)
  then match getNodeStats p n with
       | Some stats => Some stats
       | None => nodeStats p !! n
       end
  else nodeStats p !! n.
Proof.
  unfold updateAllNodeStats.
  assert (H : forall q, (forall m, getNodeStats q m = getNodeStats p m) ->
             nodeStats (fold_left
                          (fun p nodeName =>
                             match getNodeStats p nodeName with
                             | None => p
                             | Some stats => store p nodeName stats
                             end) nodes q) !! n =
             if bool_decide (n ∈ nodes)
             then match getNodeStats p n with
                  | Some stats => Some stats
                  | None => nodeStats q !! n
                  end
             else nodeStats q !! n).
  { induction nodes as [|m nodes IH]; intros q Hq; cbn [fold_left].
    - rewrite bool_decide_eq_false_2 by apply not_elem_of_nil. reflexivity.
    - rewrite IH.
      + rewrite Hq. destruct (decide (m = n)) as [->|Hne].
        * rewrite (bool_decide_eq_true_2 (n ∈ n :: nodes))
            by (apply elem_of_cons; tauto).
          destruct (getNodeStats p n) as [stats|];
            [|destruct (bool_decide _); reflexivity].
          cbn [store nodeStats]. rewrite lookup_insert_eq.
          destruct (bool_decide _); reflexivity.
        * rewrite (decide_cons n m nodes Hne).
          destruct (getNodeStats p m) as [stats|]; [|reflexivity].
          cbn [store nodeStats]. rewrite lookup_insert_ne by exact Hne.
          reflexivity.
      + intros k. rewrite <- Hq.
        destruct (getNodeStats q m); reflexivity. }
  apply H. reflexivity.
Qed.

End CycleFacts.

(** X21.  [Filter] reads the state of a node from the cache and fetches
    it only on a miss: a cached state is never refreshed, the entries of
    other nodes are never touched, with a metrics client the node has an
    entry afterwards, and a second call changes nothing and decides
    alike. *)
Theorem filter_fills_the_cache (p : Plugin.Plugin) (pod : v1.Pod) (nodeName : string) :
  let p' := fst (Cycle.Filter p pod nodeName) in
  (forall stats, Plugin.nodeStats p !! nodeName = Some stats -> p' = p)
  /\ (forall other, other <> nodeName ->
        Plugin.nodeStats p' !! other = Plugin.nodeStats p !! other)
  /\ (Plugin.promClient p <> None -> Plugin.nodeStats p' !! nodeName <> None)
  /\ Cycle.Filter p' pod nodeName = (p', snd (Cycle.Filter p pod nodeName)).
Proof.
  cbn zeta. rewrite Filter_cases. unfold Cycle.getNodeStatsFromCache.
  destruct (Plugin.nodeStats p !! nodeName) as [stats|] eqn:Hc; cbn [fst snd].
  - split; [reflexivity|]. split; [reflexivity|]. split; [congruence|].
    rewrite Filter_cases. unfold Cycle.getNodeStatsFromCache. rewrite Hc.
    reflexivity.
  - destruct (Plugin.getNodeStats p nodeName) as [stats|] eqn:Hg; cbn [fst snd].
    + split; [discriminate|]. split.
      { intros other Hne. cbn [Cycle.store Plugin.nodeStats].
        apply lookup_insert_ne. congruence. }
      split.
      { intros _. cbn [Cycle.store Plugin.nodeStats]. rewrite lookup_insert_eq.
        discriminate. }
      rewrite Filter_cases. unfold Cycle.getNodeStatsFromCache.
      cbn [Cycle.store Plugin.nodeStats]. rewrite lookup_insert_eq. reflexivity.
    + split; [discriminate|]. split; [reflexivity|]. split.
      { intros Hp. unfold Plugin.getNodeStats in Hg.
        destruct (Plugin.promClient p); [discriminate|congruence]. }
      rewrite Filter_cases. unfold Cycle.getNodeStatsFromCache. rewrite Hc, Hg.
      reflexivity.
Qed.

(** X22.  [Filter] lets a pod through exactly when the state that the
    cache holds for the node after the call passes [canScheduleMulti]. *)
Theorem filter_decides_on_cached_state
        (p : Plugin.Plugin) (pod : v1.Pod) (nodeName : string) :
  snd (Cycle.Filter p pod nodeName) = None <->
  exists stats,
    Plugin.nodeStats (fst (Cycle.Filter p pod nodeName)) !! nodeName = Some stats
    /\ fst (Plugin.canScheduleMulti (Plugin.extractPodRequirements pod) stats) = true.
Proof.
  rewrite Filter_cases. unfold Cycle.getNodeStatsFromCache, Cycle.decision.
  destruct (Plugin.nodeStats p !! nodeName) as [stats|] eqn:Hc; cbn [fst snd].
  - rewrite Hc. destruct (fst (Plugin.canScheduleMulti _ stats)) eqn:Hk; cbn [negb].
    + split; [intros _; exists stats; split; [reflexivity|exact Hk]|reflexivity].
    + split; [discriminate|]. intros (st & Hst & Hok). injection Hst as <-.
      congruence.
  - destruct (Plugin.getNodeStats p nodeName) as [stats|]; cbn [fst snd].
    + cbn [Cycle.store Plugin.nodeStats]. rewrite lookup_insert_eq.
      destruct (fst (Plugin.canScheduleMulti _ stats)) eqn:Hk; cbn [negb].
      * split; [intros _; exists stats; split; [reflexivity|exact Hk]|reflexivity].
      * split; [discriminate|]. intros (st & Hst & Hok). injection Hst as <-.
        congruence.
    + rewrite Hc. split; [discriminate|]. intros (st & Hst & _). discriminate.
Qed.

(** X23.  [updateAllNodeStats] replaces the entries of the nodes listed by
    freshly fetched state and keeps every other entry as it is: no entry is
    ever removed.  Without the node list or without a metrics client the
    cache stays as it is. *)
Theorem update_keeps_other_entries
        (p : Plugin.Plugin) (nodes : list string) (n : string) :
  (Plugin.nodeStats (Cycle.updateAllNodeStats p (Some nodes)) !! n =
   if bool_decide (n ∈ nodes)
   then match Plugin.getNodeStats p n with
        | Some stats => Some stats
        | None => Plugin.nodeStats p !! n
        end
   else Plugin.nodeStats p !! n)
  /\ (Plugin.nodeStats p !! n <> None ->
      Plugin.nodeStats (Cycle.updateAllNodeStats p (Some nodes)) !! n <> None)
  /\ Cycle.updateAllNodeStats p None = p
  /\ (Plugin.promClient p = None ->
      Plugin.nodeStats (Cycle.updateAllNodeStats p (Some nodes)) !! n
      = Plugin.nodeStats p !! n).
Proof.
  split; [apply update_lookup|]. split; [|split; [reflexivity|]].
  - intros Hn. rewrite update_lookup.
    destruct (bool_decide _); [|exact Hn].
    destruct (Plugin.getNodeStats p n); [discriminate|exact Hn].
  - intros Hp. rewrite update_lookup.
    unfold Plugin.getNodeStats. rewrite Hp. destruct (bool_decide _); reflexivity.
Qed.

Section LastIndex.
Import Prom.

Lemma lastIndexFrom_spec (s sep : list ascii) (i : nat) :
  (lastIndexFrom s sep i = -1 /\ forall j, (j <= i)%nat -> ~ occursAt s sep j)
  \/ (exists r, lastIndexFrom s sep i = Z.of_nat r /\ (r <= i)%nat
                /\ occursAt s sep r
                /\ forall j, (r < j <= i)%nat -> ~ occursAt s sep j).
Proof.
  induction i as [|i IH]; cbn [lastIndexFrom]; unfold Bytes.eqb.
  - destruct (decide (firstn (length sep) (skipn 0 s) = sep)) as [He|Hne].
    + rewrite bool_decide_eq_true_2 by exact He. right. exists 0%nat.
      repeat split; [lia|exact He|intros j Hj; lia].
    + rewrite bool_decide_eq_false_2 by exact Hne. left. split; [reflexivity|].
      intros j Hj. replace j with 0%nat by lia. exact Hne.
  - destruct (decide (firstn (length sep) (skipn (S i) s) = sep)) as [He|Hne].
    + rewrite bool_decide_eq_true_2 by exact He. right. exists (S i).
      repeat split; [lia|exact He|intros j Hj; lia].
    + rewrite bool_decide_eq_false_2 by exact Hne.
      destruct IH as [[-> Hall]|(r & -> & Hr & Hocc & Hlater)].
      * left. split; [reflexivity|]. intros j Hj.
        destruct (Nat.eq_dec j (S i)) as [->|]; [exact Hne|apply Hall; lia].
      * right. exists r. repeat split; [lia|exact Hocc|].
        intros j Hj. destruct (Nat.eq_dec j (S i)) as [->|]; [exact Hne|].
        apply Hlater. lia.
Qed.

End LastIndex.

Section SampleKeys.
Import Prom.

Lemma lastIndex_spec (s sep : list ascii) :
  (lastIndex s sep = -1
   /\ forall i, (i + length sep <= length s)%nat -> ~ occursAt s sep i)
  \/ (exists r, lastIndex s sep = Z.of_nat r
                /\ (r + length sep <= length s)%nat
                /\ occursAt s sep r
                /\ forall j, (r < j)%nat -> (j + length sep <= length s)%nat ->
                             ~ occursAt s sep j).
Proof.
  unfold lastIndex. destruct (Nat.leb_spec (length sep) (length s)) as [Hle|Hgt].
  - destruct (lastIndexFrom_spec s sep (length s - length sep))
      as [[-> Hall]|(r & -> & Hr & Hocc & Hlater)].
    + left. split; [reflexivity|]. intros i Hi. apply Hall. lia.
    + right. exists r. repeat split; [lia|exact Hocc|].
      intros j Hj Hb. apply Hlater. lia.
  - left. split; [reflexivity|]. intros i Hi. lia.
Qed.

Lemma occursAt_byte (s : list ascii) (c : ascii) (i : nat) :
  occursAt s [c] i <-> nth_error s i = Some c.
Proof.
  unfold occursAt. cbn [length]. revert i.
  induction s as [|a s IH]; intros i.
  - rewrite skipn_nil. destruct i; cbn; split; discriminate.
  - destruct i as [|i]; cbn [skipn nth_error].
    + cbn [firstn]. split; intros H; injection H as ->; reflexivity.
    + apply IH.
Qed.

Lemma lastIndex_of_split (host port : list ascii) (c : ascii) :
  ~ In c port -> lastIndex (host ++ c :: port) [c] = Z.of_nat (length host).
Proof.
  intros Hport.
  assert (Hat : occursAt (host ++ c :: port) [c] (length host)).
  { apply occursAt_byte. rewrite nth_error_app2 by lia.
    rewrite Nat.sub_diag. reflexivity. }
  assert (Hlen : length (host ++ c :: port) = (length host + S (length port))%nat)
    by (rewrite length_app; reflexivity).
  destruct (lastIndex_spec (host ++ c :: port) [c])
    as [[_ Hall]|(r & -> & Hr & Hocc & Hlater)].
  - exfalso. apply (Hall (length host)); [cbn [length]; lia|exact Hat].
  - f_equal. cbn [length] in Hr, Hlater.
    destruct (Nat.lt_trichotomy r (length host)) as [Hlt|[->|Hgt]];
      [|reflexivity|].
    + exfalso. apply (Hlater (length host) Hlt); [lia|exact Hat].
    + exfalso. apply occursAt_byte in Hocc.
      rewrite nth_error_app2 in Hocc by lia.
      destruct (r - length host)%nat as [|k] eqn:Ek; [lia|].
      cbn [nth_error] in Hocc. apply Hport. eapply nth_error_In. exact Hocc.
Qed.

Lemma lastIndex_absent (s : list ascii) (c : ascii) :
  ~ In c s -> lastIndex s [c] = -1.
Proof.
  intros Hs. destruct (lastIndex_spec s [c]) as [[-> _]|(r & _ & _ & Hocc & _)];
    [reflexivity|].
  exfalso. apply occursAt_byte in Hocc. apply Hs. eapply nth_error_In. exact Hocc.
Qed.

End SampleKeys.

(** X24.  [lastIndex] returns -1 exactly when [sep] occurs nowhere in [s],
    and the position of the last occurrence otherwise. *)
Theorem lastIndex_finds_last_occurrence (s sep : list ascii) :
  (Prom.lastIndex s sep = -1
   /\ forall i, (i + length sep <= length s)%nat -> ~ Prom.occursAt s sep i)
  \/ (exists r, Prom.lastIndex s sep = Z.of_nat r
                /\ (r + length sep <= length s)%nat
                /\ Prom.occursAt s sep r
                /\ forall j, (r < j)%nat -> (j + length sep <= length s)%nat ->
                             ~ Prom.occursAt s sep j).
Proof. exact (lastIndex_spec s sep). Qed.

(** X25.  The key of a sample is its [node] label when it has one,
    whatever its [instance] label; without it, an [instance] label
    [host:port] is keyed by [host] and a label without a colon by itself. *)
Theorem sample_key_drops_port (host port s : list ascii) :
  ~ In ":"%char port -> ~ In ":"%char s ->
  Prom.sampleKey (host ++ ":"%char :: port) None = host
  /\ Prom.sampleKey s None = s
  /\ forall instance node, Prom.sampleKey instance (Some node) = node.
Proof.
  intros Hport Hs. unfold Prom.sampleKey.
  split; [|split; [|intros instance node; reflexivity]].
  - change (Bytes.of_string ":") with [":"%char].
    rewrite (lastIndex_of_split host port ":"%char Hport).
    replace (Z.of_nat (length host) =? -1) with false
      by (symmetry; apply Z.eqb_neq; lia).
    cbn [negb]. rewrite Nat2Z.id. rewrite firstn_app, Nat.sub_diag.
    cbn [firstn]. rewrite app_nil_r. apply firstn_all.
  - change (Bytes.of_string ":") with [":"%char].
    rewrite (lastIndex_absent s ":"%char Hs). reflexivity.
Qed.

Lemma sample_key_drops_port_witness :
  Prom.sampleKey (Bytes.of_string "node1:9100") None = Bytes.of_string "node1".
Proof.
  apply (proj1 (sample_key_drops_port
                  (Bytes.of_string "node1") (Bytes.of_string "9100")
                  (Bytes.of_string "node1")
                  ltac:(cbn; intuition discriminate)
                  ltac:(cbn; intuition discriminate))).
Defined.

(** ** The range of the scores *)

Section ScoreBounds.

Lemma dominantShare_same (rs : list (float64 * float64)) (ds : float64) :
  Preemptive.dominantShareOf ds rs = Extender.dominantShareOf ds rs.
Proof.
  revert ds. induction rs as [|[free req] rs IH]; intros ds; cbn; [reflexivity|].
  rewrite !IH. reflexivity.
Qed.

Lemma dominantShare_is_share (rs : list (float64 * float64)) (ds : float64) :
  share ds -> share (Extender.dominantShareOf ds rs).
Proof.
  revert ds. induction rs as [|[free req] rs IH]; intros ds Hds; cbn; [exact Hds|].
  destruct (req == F64.zero)%f64; [apply IH, Hds|]. apply IH.
  destruct (req / free > ds)%f64 eqn:Hgt; [|exact Hds].
  right. unfold F64.gtb in Hgt. destruct Hds as [->|Hpos]; [exact Hgt|].
  unfold F64.ltb, SFltb in *.
  destruct (SFcompare F64.zero ds) as [[]|] eqn:E1; try discriminate.
  destruct (SFcompare ds (req / free)%f64) as [[]|] eqn:E2; try discriminate.
  rewrite (SFcompare_lt_trans _ _ _ E1 E2). reflexivity.
Qed.

Lemma share_shape (x : float64) :
  share x ->
  match x with
  | S754_zero false | S754_infinity false | S754_finite false _ _ => True
  | _ => False
  end.
Proof.
  intros [->|H]; [exact I|]. destruct x as [[]|[]| |[] m e]; try discriminate; exact I.
Qed.

(** The rounding of an exact positive integer is [+0], positive or [+Inf]. *)
Lemma round_aux_shape (m : positive) (e : Z) :
  match binary_round_aux F64.prec F64.emax false (Zpos m) e loc_Exact with
  | S754_zero false | S754_infinity false | S754_finite false _ _ => True
  | _ => False
  end.
Proof.
  unfold binary_round_aux.
  destruct (shr_fexp_spec (Zpos m) e ltac:(lia)) as (_ & Hq & _).
  destruct (shr_fexp F64.prec F64.emax (Zpos m) e loc_Exact) as [mrs1 e1].
  cbn [fst] in Hq. destruct (rne_bounds mrs1) as [HM _]. cbn zeta in HM.
  assert (H0 : 0 <= shr_m mrs1).
  { rewrite Hq. apply Z.div_pos; [lia|]. apply pow2_pos. lia. }
  pose proof (finish_nonneg
                (round_nearest_even (shr_m mrs1) (loc_of_shr_record mrs1)) e1
                ltac:(lia)) as Hf.
  unfold finish in Hf.
  destruct (shr_fexp F64.prec F64.emax _ e1 loc_Exact) as [mrs2 e2].
  cbn [fst snd] in Hf. exact Hf.
Qed.

Lemma mul_shape (m : positive) (e : Z) (ds : float64) :
  share ds ->
  match F64.mul (S754_finite false m e) ds with
  | S754_zero false | S754_infinity false | S754_finite false _ _ => True
  | _ => False
  end.
Proof.
  intros Hds. apply share_shape in Hds.
  destruct ds as [[]|[]| |[] md ed]; try contradiction; cbn [F64.mul SFmul xorb];
    try exact I.
  apply round_aux_shape.
Qed.

(** [M - P], with [P >= 0] and the result raised to 0 when negative, is
    within [M]. *)
Lemma score_within (m : positive) (e : Z) (P : float64) :
  valid64 (S754_finite false m e) = true ->
  match P with
  | S754_zero false | S754_infinity false | S754_finite false _ _ => True
  | _ => False
  end ->
  let score := F64.sub (S754_finite false m e) P in
  within m e (if F64.ltb score F64.zero then F64.zero else score).
Proof.
  intros VM HP. cbn zeta.
  assert (Hself : within m e (S754_finite false m e)).
  { split; [exact VM|]. right. split; [reflexivity|lia]. }
  destruct P as [[]|[]| |[] mp ep]; try contradiction.
  - exact Hself.
  - exact I.
  - rewrite sub_aligned.
    set (ez := Z.min e ep).
    pose proof (pow2_pos (e - ez) ltac:(unfold ez; lia)) as Hp1.
    pose proof (pow2_pos (ep - ez) ltac:(unfold ez; lia)) as Hp2.
    destruct (Zpos m * 2 ^ (e - ez) - Zpos mp * 2 ^ (ep - ez)) as [|D|D] eqn:ED;
      cbn [binary_normalize].
    + exact I.
    + pose proof (binary_round_valid D ez) as HV.
      unfold valid_binary, bounded, canonical_mantissa in VM.
      apply andb_prop in VM as [Vc Vb]. apply Z.eqb_eq in Vc. apply Z.leb_le in Vb.
      change (F64.emax - F64.prec) with 971 in Vb.
      pose proof (normalize_below D m ez e ltac:(unfold ez; lia) ltac:(lia) Vc Vb)
        as Hat.
      destruct (binary_round F64.prec F64.emax false D ez) as [[]|[]| |[] m' e'];
        try contradiction; cbn [F64.ltb SFltb SFcompare F64.zero]; try exact I.
      split; [exact HV|exact Hat].
    + rewrite binary_round_opp.
      pose proof (binary_round_valid D ez) as HV. apply nonNegative_shape in HV.
      destruct (binary_round F64.prec F64.emax false D ez) as [[]|[]| |[] m' e'];
        try contradiction; exact I.
Qed.

Lemma trunc_scaled (m : positive) (e b : Z) :
  b <= e -> b <= 0 ->
  F64.trunc (S754_finite false m e) = Some (Zpos m * 2 ^ (e - b) / 2 ^ (- b)).
Proof.
  intros He Hb. cbn [F64.trunc cond_Zopp]. f_equal.
  pose proof (pow2_pos (- b) ltac:(lia)) as Hp.
  destruct e as [|k|k].
  - rewrite Z.pow_0_r, Z.sub_0_l, Z.div_mul; lia.
  - replace (2 ^ (Zpos k - b)) with (2 ^ Zpos k * 2 ^ (- b))
      by (rewrite <- Z.pow_add_r by lia; f_equal; lia).
    rewrite Z.mul_assoc, Z.div_mul; lia.
  - replace (2 ^ (- b)) with (2 ^ Zpos k * 2 ^ (Zneg k - b))
      by (rewrite <- Z.pow_add_r by lia; f_equal; lia).
    pose proof (pow2_pos (Zneg k - b) ltac:(lia)).
    rewrite Z.div_mul_cancel_r by lia. reflexivity.
Qed.

Lemma to_int_within (m : positive) (e : Z) (n : Z) (r : float64) :
  valid64 (S754_finite false m e) = true ->
  F64.trunc (S754_finite false m e) = Some n -> n <= 2 ^ 53 ->
  within m e r -> 0 <= F64.to_int r <= n.
Proof.
  intros VM Hn Hb Hr.
  set (b := Z.min e 0).
  assert (Hn0 : 0 <= n).
  { rewrite (trunc_scaled m e b) in Hn by (unfold b; lia). injection Hn as <-.
    apply Z.div_pos; [|apply pow2_pos; unfold b; lia].
    pose proof (pow2_pos (e - b) ltac:(unfold b; lia)). lia. }
  destruct r as [s| | |[] m' e']; try contradiction.
  - change (F64.to_int (S754_zero s)) with 0. lia.
  - destruct Hr as [Vr Hat].
    destruct (atMost_order m e _ Hat) as [_ Hle].
    set (c := Z.min (Z.min e e') 0).
    pose proof (valid_order_at m' m e' e c Vr VM Hle
                  ltac:(unfold c; lia) ltac:(unfold c; lia)) as Hord.
    rewrite (trunc_scaled m e c) in Hn by (unfold c; lia). injection Hn as Hn.
    unfold F64.to_int. rewrite (trunc_scaled m' e' c) by (unfold c; lia).
    pose proof (pow2_pos (- c) ltac:(unfold c; lia)) as Hp.
    pose proof (pow2_pos (e' - c) ltac:(unfold c; lia)) as Hp'.
    assert (Hq : 0 <= Zpos m' * 2 ^ (e' - c) / 2 ^ (- c) <= n).
    { split; [apply Z.div_pos; lia|]. rewrite <- Hn. apply Z.div_le_mono; lia. }
    replace ((F64.min_int64 <=? _) && (_ <=? F64.max_int64)) with true; [exact Hq|].
    symmetry. apply andb_true_intro.
    split; apply Z.leb_le; unfold F64.min_int64, F64.max_int64; lia.
Qed.

(** [float64(n)] for [0 < n <= 2^53]. *)
Lemma of_int_exact (n : Z) :
  0 < n <= 2 ^ 53 ->
  exists m e, F64.of_int n = S754_finite false m e
              /\ valid64 (S754_finite false m e) = true
              /\ F64.trunc (S754_finite false m e) = Some n.
Proof.
  intros Hn. destruct (Z.eq_dec n (2 ^ 53)) as [->|Hne].
  - exists 4503599627370496%positive, 1. repeat split; reflexivity.
  - destruct n as [|p|p]; try lia.
    destruct (of_int_small p ltac:(lia)) as (m & e & Hof & Htr).
    exists m, e. split; [exact Hof|]. split; [|exact Htr].
    pose proof (binary_round_valid p 0) as HV.
    change (binary_round F64.prec F64.emax false p 0) with (F64.of_int (Zpos p)) in HV.
    rewrite Hof in HV. exact HV.
Qed.

(** The dominant-share score for a share [ds]. *)
Lemma share_score_range (maxScore : Z) (ds : float64) :
  0 < maxScore <= 2 ^ 53 -> share ds ->
  let score := (F64.of_int maxScore - F64.of_int maxScore * ds)%f64 in
  0 <= F64.to_int (if (score < F64.zero)%f64 then F64.zero else score) <= maxScore.
Proof.
  intros Hm Hds. cbn zeta.
  destruct (of_int_exact maxScore Hm) as (m & e & -> & VM & Htr).
  apply (to_int_within m e maxScore _ VM Htr ltac:(lia)).
  apply score_within; [exact VM|]. apply mul_shape. exact Hds.
Qed.

End ScoreBounds.

(** X26.  The dominant-share score lies between 0 and [maxScore], for every
    demand and every node state, in the extender and in the watch-and-bind
    scheduler alike. *)
Theorem score_is_in_range (podReq : PodRequest) (stats : NodeStats) (maxScore : Z) :
  0 < maxScore <= 2 ^ 53 ->
  0 <= Extender.ScoreMultiResource podReq stats maxScore <= maxScore
  /\ 0 <= Preemptive.scoreMultiResource podReq stats maxScore <= maxScore.
Proof.
  intros Hm. split.
  - unfold Extender.ScoreMultiResource. apply share_score_range; [exact Hm|].
    apply dominantShare_is_share. left. reflexivity.
  - unfold Preemptive.scoreMultiResource.
    destruct (_ == F64.zero)%f64.
    + split; [apply Z.quot_pos; lia|]. apply Z.quot_le_upper_bound; lia.
    + apply share_score_range; [exact Hm|]. rewrite dominantShare_same.
      apply dominantShare_is_share. left. reflexivity.
Qed.

Lemma score_is_in_range_witness :
  0 <= Extender.ScoreMultiResource oneCore roomyNode 100 <= 100.
Proof.
  apply (proj1 (score_is_in_range oneCore roomyNode 100 ltac:(cbn; lia))).
Defined.

(** X27.  [Prioritize] answers with one entry per node, in the order of the
    request, each with a score between 0 and [maxScore]. *)
Theorem prioritize_scores_every_node
        (e : Extender.MultiResourceExtender) (pod : v1.Pod) (nodes : list string) :
  0 < Extender.maxScore e <= 2 ^ 53 ->
  map fst (Extender.Prioritize e pod nodes) = nodes
  /\ Forall (fun hp => 0 <= snd hp <= Extender.maxScore e)
            (Extender.Prioritize e pod nodes).
Proof.
  intros Hm. unfold Extender.Prioritize. split.
  - rewrite map_map. rewrite <- (map_id nodes) at 2. apply map_ext. intros node.
    destruct (Extender.getNodeStatsFromCache e node); reflexivity.
  - apply Forall_map. apply List.Forall_forall. intros node _.
    destruct (Extender.getNodeStatsFromCache e node) as [stats|]; cbn [snd]; [|lia].
    unfold Extender.ScoreMultiResource. apply share_score_range; [exact Hm|].
    apply dominantShare_is_share. left. reflexivity.
Qed.

Lemma prioritize_scores_every_node_witness :
  let e := {| Extender.alpha := F64.one; Extender.maxScore := 100;
              Extender.nodeStats := {[ "node1" := roomyNode ]} |} in
  map fst (Extender.Prioritize e (lowPod "p") ["node1"; "node2"])
  = ["node1"; "node2"]
  /\ Forall (fun hp => 0 <= snd hp <= 100)
            (Extender.Prioritize e (lowPod "p") ["node1"; "node2"]).
Proof.
  intros e.
  apply (prioritize_scores_every_node e (lowPod "p") ["node1"; "node2"]).
  cbn. lia.
Defined.

(** ** The I/O estimates of the extender *)

Section Estimates.
Import Extender.

Ltac compare_cases :=
  repeat match goal with
         | H : context [Pos.compare_cont Eq ?x ?y] |- _ =>
             change (Pos.compare_cont Eq x y) with (Pos.compare x y) in H
         | |- context [Pos.compare_cont Eq ?x ?y] =>
             change (Pos.compare_cont Eq x y) with (Pos.compare x y)
         | H : context [Z.compare ?x ?y] |- _ => destruct (Z.compare_spec x y)
         | H : context [Pos.compare ?x ?y] |- _ => destruct (Pos.compare_spec x y)
         | |- context [Z.compare ?x ?y] => destruct (Z.compare_spec x y)
         | |- context [Pos.compare ?x ?y] => destruct (Pos.compare_spec x y)
         end.

Lemma leb_refl (a : float64) : F64.is_nan a = false -> F64.leb a a = true.
Proof.
  unfold F64.leb, SFleb. destruct a as [[]|[]| |[] m e]; cbn; intros H;
    try discriminate; try reflexivity;
    rewrite Z.compare_refl, Pos.compare_cont_refl; reflexivity.
Qed.

Lemma leb_number (a b : float64) : F64.leb a b = true -> F64.is_nan b = false.
Proof.
  unfold F64.leb, SFleb.
  destruct a as [[]|[]| |[] ma ea], b as [[]|[]| |[] mb eb]; cbn;
    intros H; try discriminate; reflexivity.
Qed.

(** Among numbers, [a <= b] whenever [a > b] is false. *)
Lemma not_gtb_leb (a b : float64) :
  F64.is_nan a = false -> F64.is_nan b = false ->
  F64.gtb a b = false -> F64.leb a b = true.
Proof.
  unfold F64.gtb, F64.leb, SFltb, SFleb.
  destruct a as [[]|[]| |[] ma ea], b as [[]|[]| |[] mb eb];
    cbn [SFcompare F64.is_nan]; intros Ha Hb H;
    try discriminate; try reflexivity;
    compare_cases; cbn in *; try discriminate; try reflexivity; lia.
Qed.

Lemma gtb_leb (a b : float64) : F64.gtb a b = true -> F64.leb b a = true.
Proof.
  unfold F64.gtb, F64.leb, SFltb, SFleb.
  destruct (SFcompare b a) as [[]|]; intros H; try discriminate; reflexivity.
Qed.

(** [max a b] is at least [b]. *)
Lemma max_ge_right (a b : float64) :
  F64.is_nan b = false -> F64.leb b (max a b) = true.
Proof.
  intros Hb. unfold max. destruct (a > b)%f64 eqn:E.
  - apply gtb_leb, E.
  - apply leb_refl, Hb.
Qed.

(** [max a b] is at least whatever [a] is at least. *)
Lemma max_keeps (c a b : float64) :
  F64.is_nan b = false -> F64.leb c a = true -> F64.leb c (max a b) = true.
Proof.
  intros Hb Hc. unfold max. destruct (a > b)%f64 eqn:E; [exact Hc|].
  apply leb_trans with (b := a); [exact Hc|].
  apply not_gtb_leb; [apply (leb_number c a Hc)|exact Hb|exact E].
Qed.

Lemma MBps_number (n : Z) : F64.is_nan (MBps n) = false.
Proof.
  unfold MBps, F64.of_int.
  destruct (n * F64.MiB) as [|p|p]; cbn [binary_normalize]; [reflexivity| |].
  - pose proof (binary_round_valid p 0) as H. apply nonNegative_shape in H.
    destruct (binary_round _ _ false p 0) as [[]|[]| |[] m e];
      try contradiction; reflexivity.
  - rewrite binary_round_opp.
    pose proof (binary_round_valid p 0) as H. apply nonNegative_shape in H.
    destruct (binary_round _ _ false p 0) as [[]|[]| |[] m e];
      try contradiction; reflexivity.
Qed.

(** One container of the image loop. *)
Lemma estimateFromImages_cons (container : v1.Container) (cs : list v1.Container)
      (est : float64 * float64 * float64 * float64) :
  estimateFromImages (container :: cs) est =
  estimateFromImages cs
    (if databaseImage container then max (diskReadOf est) (MBps 50) else diskReadOf est,
     if databaseImage container then max (diskWriteOf est) (MBps 20) else diskWriteOf est,
     if webImage container then max (netUpOf est) (MBps 20) else netUpOf est,
     if webImage container then max (netDownOf est) (MBps 40) else netDownOf est).
Proof.
  destruct est as [[[dr dw] nu] nd]. cbn [estimateFromImages].
  unfold databaseImage, webImage, diskReadOf, diskWriteOf, netUpOf, netDownOf.
  cbn [fst snd].
  destruct (_ || _ || _ || _); destruct (_ || _ || _ || _); reflexivity.
Qed.

(** The image loop lowers no estimate. *)
Lemma estimateFromImages_keeps (c : float64) (cs : list v1.Container) :
  forall est,
    (F64.leb c (diskReadOf est) = true ->
     F64.leb c (diskReadOf (estimateFromImages cs est)) = true)
    /\ (F64.leb c (diskWriteOf est) = true ->
        F64.leb c (diskWriteOf (estimateFromImages cs est)) = true)
    /\ (F64.leb c (netUpOf est) = true ->
        F64.leb c (netUpOf (estimateFromImages cs est)) = true)
    /\ (F64.leb c (netDownOf est) = true ->
        F64.leb c (netDownOf (estimateFromImages cs est)) = true).
Proof.
  induction cs as [|container cs IH]; intros est.
  - cbn [estimateFromImages]. repeat split; intros H; exact H.
  - rewrite estimateFromImages_cons.
    match goal with |- context [estimateFromImages cs ?e] =>
      destruct (IH e) as (I1 & I2 & I3 & I4) end.
    split; [|split; [|split]]; intros H;
      [apply I1|apply I2|apply I3|apply I4]; clear I1 I2 I3 I4;
      unfold diskReadOf, diskWriteOf, netUpOf, netDownOf in *; cbn [fst snd] in *;
      match goal with
      | |- context [if ?b then _ else _] => destruct b
      end; try exact H; apply max_keeps; try exact H; apply MBps_number.
Qed.

(** The image loop raises the estimates to the floor of a hint. *)
Lemma estimateFromImages_floor (container : v1.Container) (cs : list v1.Container) :
  In container cs ->
  forall est,
    (databaseImage container = true ->
     F64.leb (MBps 50) (diskReadOf (estimateFromImages cs est)) = true
     /\ F64.leb (MBps 20) (diskWriteOf (estimateFromImages cs est)) = true)
    /\ (webImage container = true ->
        F64.leb (MBps 20) (netUpOf (estimateFromImages cs est)) = true
        /\ F64.leb (MBps 40) (netDownOf (estimateFromImages cs est)) = true).
Proof.
  induction cs as [|c0 cs IH]; intros Hin est; [destruct Hin|].
  destruct Hin as [->|Hin]; [|rewrite estimateFromImages_cons; apply IH, Hin].
  rewrite estimateFromImages_cons.
  split; intros Hh; rewrite Hh.
  - match goal with |- context [estimateFromImages cs ?e] =>
      destruct (estimateFromImages_keeps (MBps 50) cs e) as (I1 & _);
      destruct (estimateFromImages_keeps (MBps 20) cs e) as (_ & I2 & _) end.
    split; [apply I1|apply I2]; clear I1 I2;
      unfold diskReadOf, diskWriteOf; cbn [fst snd];
      apply max_ge_right, MBps_number.
  - match goal with |- context [estimateFromImages cs ?e] =>
      destruct (estimateFromImages_keeps (MBps 20) cs e) as (_ & _ & I3 & _);
      destruct (estimateFromImages_keeps (MBps 40) cs e) as (_ & _ & _ & I4) end.
    split; [apply I3|apply I4]; clear I3 I4;
      unfold netUpOf, netDownOf; cbn [fst snd];
      apply max_ge_right, MBps_number.
Qed.

(** [estimateIORequirements] as the image loop followed by the scaling
    with the CPU and memory requests. *)
Lemma estimateIORequirements_stages (pod : v1.Pod) :
  exists (f1 f2 f3 f4 : float64 -> float64),
    (forall c x, F64.leb c x = true ->
                 F64.leb c (f1 x) = true /\ F64.leb c (f2 x) = true
                 /\ F64.leb c (f3 x) = true /\ F64.leb c (f4 x) = true)
    /\ forall est,
        est = estimateFromImages (v1.Containers (v1.Spec pod))
                (parseResourceAnnotation pod "scheduler.extender/disk-read" (MBps 10),
                 parseResourceAnnotation pod "scheduler.extender/disk-write" (MBps 5),
                 parseResourceAnnotation pod "scheduler.extender/net-up" (MBps 1),
                 parseResourceAnnotation pod "scheduler.extender/net-down" (MBps 2)) ->
        estimateIORequirements pod =
        (f1 (diskReadOf est), f2 (diskWriteOf est), f3 (netUpOf est), f4 (netDownOf est)).
Proof.
  unfold estimateIORequirements.
  change (F64.of_int (10 * F64.MiB)) with (MBps 10).
  change (F64.of_int (5 * F64.MiB)) with (MBps 5).
  change (F64.of_int (1 * F64.MiB)) with (MBps 1).
  change (F64.of_int (2 * F64.MiB)) with (MBps 2).
  destruct (totalRequests _) as [totalCPU totalMem].
  set (d := (totalCPU >= F64.of_int 4)%f64).
  set (d' := (totalCPU >= F64.of_int 2)%f64).
  set (n := (totalMem >= F64.of_int (4 * F64.GiB))%f64).
  set (n' := (totalMem >= F64.of_int (1 * F64.GiB))%f64).
  exists (fun x => if d then max x (MBps 100) else if d' then max x (MBps 50) else x),
         (fun x => if d then max x (MBps 50) else if d' then max x (MBps 25) else x),
         (fun x => if n then max x (MBps 50) else if n' then max x (MBps 20) else x),
         (fun x => if n then max x (MBps 100) else if n' then max x (MBps 40) else x).
  split.
  - intros c x H.
    repeat split; destruct d, d', n, n';
      try exact H; apply max_keeps; try exact H; apply MBps_number.
  - intros est ->.
    destruct (estimateFromImages _ _) as [[[dr dw] nu] nd].
    unfold diskReadOf, diskWriteOf, netUpOf, netDownOf. cbn [fst snd].
    destruct d, d', n, n'; reflexivity.
Qed.

End Estimates.

(** X28.  The heuristics of [estimateIORequirements] only raise an
    estimate: each of the four results is at least the value read from the
    annotation of the pod, or the default in its place, whenever that value
    is a number. *)
Theorem estimates_are_only_raised (pod : v1.Pod) :
  (forall v, v = parseResourceAnnotation pod "scheduler.extender/disk-read" (MBps 10) ->
             F64.is_nan v = false ->
             F64.leb v (diskReadOf (Extender.estimateIORequirements pod)) = true)
  /\ (forall v, v = parseResourceAnnotation pod "scheduler.extender/disk-write" (MBps 5) ->
                F64.is_nan v = false ->
                F64.leb v (diskWriteOf (Extender.estimateIORequirements pod)) = true)
  /\ (forall v, v = parseResourceAnnotation pod "scheduler.extender/net-up" (MBps 1) ->
                F64.is_nan v = false ->
                F64.leb v (netUpOf (Extender.estimateIORequirements pod)) = true)
  /\ (forall v, v = parseResourceAnnotation pod "scheduler.extender/net-down" (MBps 2) ->
                F64.is_nan v = false ->
                F64.leb v (netDownOf (Extender.estimateIORequirements pod)) = true).
Proof.
  destruct (estimateIORequirements_stages pod) as (f1 & f2 & f3 & f4 & Hf & Heq).
  rewrite (Heq _ eq_refl).
  unfold diskReadOf at 1, diskWriteOf at 1, netUpOf at 1, netDownOf at 1.
  cbn [fst snd].
  match goal with |- context [Extender.estimateFromImages ?cs ?e] =>
    set (e0 := e); set (l := cs) end.
  split; [|split; [|split]]; intros v -> Hn.
  - apply Hf.
    apply (proj1 (estimateFromImages_keeps _ l e0)). apply leb_refl, Hn.
  - apply Hf.
    apply (proj1 (proj2 (estimateFromImages_keeps _ l e0))). apply leb_refl, Hn.
  - apply Hf.
    apply (proj1 (proj2 (proj2 (estimateFromImages_keeps _ l e0)))). apply leb_refl, Hn.
  - apply Hf.
    apply (proj2 (proj2 (proj2 (estimateFromImages_keeps _ l e0)))). apply leb_refl, Hn.
Qed.

Lemma estimates_are_only_raised_witness :
  F64.leb (F64.of_int (200 * F64.MiB))
          (diskReadOf (Extender.estimateIORequirements
                         (annotate (lowPod "p") "scheduler.extender/disk-read" "200M")))
  = true.
Proof.
  apply (proj1 (estimates_are_only_raised
                  (annotate (lowPod "p") "scheduler.extender/disk-read" "200M")));
    vm_compute; reflexivity.
Defined.

(** X29.  A container whose image names a database sets a floor of 50 MB/s
    under the disk-read and of 20 MB/s under the disk-write estimate of the
    pod, and one whose image names a web server a floor of 20 MB/s under
    the upload and of 40 MB/s under the download estimate, whatever the
    annotations of the pod say. *)
Theorem image_hints_set_floors (pod : v1.Pod) (container : v1.Container) :
  In container (v1.Containers (v1.Spec pod)) ->
  let est := Extender.estimateIORequirements pod in
  (databaseImage container = true ->
   F64.leb (MBps 50) (diskReadOf est) = true
   /\ F64.leb (MBps 20) (diskWriteOf est) = true)
  /\ (webImage container = true ->
      F64.leb (MBps 20) (netUpOf est) = true
      /\ F64.leb (MBps 40) (netDownOf est) = true).
Proof.
  intros Hin. cbn zeta.
  destruct (estimateIORequirements_stages pod) as (f1 & f2 & f3 & f4 & Hf & Heq).
  rewrite (Heq _ eq_refl).
  unfold diskReadOf at 1, diskWriteOf at 1, netUpOf at 1, netDownOf at 1.
  cbn [fst snd].
  match goal with |- context [Extender.estimateFromImages ?cs ?e] =>
    destruct (estimateFromImages_floor container cs Hin e) as [Hdb Hweb] end.
  split; intros Hh.
  - destruct (Hdb Hh) as [H1 H2]. split; apply Hf; assumption.
  - destruct (Hweb Hh) as [H1 H2]. split; apply Hf; assumption.
Qed.

Lemma image_hints_set_floors_witness :
  let container := {| v1.Image := "bitnami/MySQL:8"; v1.Requests := None |} in
  let pod := {| v1.Name := "db"; v1.Namespace := "default";
                v1.Annotations :=
                  Some {[ "scheduler.extender/disk-read" := "1K" ]};
                v1.Spec := {| v1.NodeName := ""; v1.Containers := [container];
                              v1.Priority := None |};
                v1.Phase := v1.PodPending |} in
  F64.leb (MBps 50) (diskReadOf (Extender.estimateIORequirements pod)) = true
  /\ F64.leb (MBps 20) (diskWriteOf (Extender.estimateIORequirements pod)) = true.
Proof.
  intros container pod.
  apply (proj1 (image_hints_set_floors pod container ltac:(left; reflexivity))).
  vm_compute. reflexivity.
Defined.
